(** * Web storage benchmark: the measurement engine and the storage adapters

    A shallow embedding of [src/lib/benchmark.ts] (the measurement engine),
    of [src/lib/storage.ts] (the ten storage adapters) and of the functions
    of [src/App.tsx] that run the suites and arrange the results.

    Conventions of the embedding.
    - An [async] function is a computation over an explicit world: it takes
      the world, and gives back an outcome (a returned value or a thrown
      value) together with the world it leaves behind.  [await] is the bind
      of that monad, [throw] and [try]/[catch] are its error operations.
    - Durations are exact rationals ([Q], milliseconds).
    - Strings are sequences of 8-bit characters: a JavaScript string without
      unpaired surrogate is identified with its UTF-8 bytes ([UTF8.valid]
      tells the byte strings that stand for one); a string with an unpaired
      surrogate has no counterpart here.
    - The browser stores and the libraries the adapters call are not part of
      the sources; each is described by a small state and by the operations
      the adapters use, after its standard or its documentation. *)

From Stdlib Require Import Ascii String DecimalString ZArith QArith Qround Lia Lqa
  Permutation Sorted.
From stdpp Require Import base option list strings gmap fin_maps.

Local Open Scope string_scope.

(** ** Thrown values *)

(** What a [catch (e: any)] clause of the sources looks at in a thrown
    object: the [message] property (absent on a value that has none) and
    the [status] property that PouchDB puts on its errors. *)
Record Exn := mkExn {
  exn_name : string;
  exn_message : option string;
  exn_status : option nat
}.

(** What a [throw] or a rejected promise carries.  It can be any value:
    [null] and [undefined] have no property to read, [e.message] on them
    is itself a [TypeError]; every other value is read like an object. *)
Inductive JSValue :=
| Null
| Undefined
| Object (e : Exn).

Coercion Object : Exn >-> JSValue.

Definition TypeError (message : string) : Exn :=
  {| exn_name := "TypeError"; exn_message := Some message; exn_status := None |}.

Definition RangeError (message : string) : Exn :=
  {| exn_name := "RangeError"; exn_message := Some message; exn_status := None |}.

Inductive Outcome (A : Type) :=
| Returned (a : A)
| Thrown (e : JSValue).
Arguments Returned {A} a.
Arguments Thrown {A} e.

(** ** The monad of asynchronous computations over a world [W] *)

Definition Promise (W A : Type) : Type := W -> Outcome A * W.

Definition resolve {W A} (a : A) : Promise W A := fun w => (Returned a, w).

Definition throw {W A} (e : JSValue) : Promise W A := fun w => (Thrown e, w).

Definition await {W A B} (m : Promise W A) (k : A -> Promise W B) : Promise W B :=
  fun w =>
    match m w with
    | (Returned a, w') => k a w'
    | (Thrown e, w') => (Thrown e, w')
    end.

Definition try_catch {W A} (m : Promise W A) (handler : JSValue -> Promise W A)
    : Promise W A :=
  fun w =>
    match m w with
    | (Returned a, w') => (Returned a, w')
    | (Thrown e, w') => handler e w'
    end.

Notation "x <- m ;; k" := (await m (fun x => k))
  (at level 100, m at next level, right associativity).
Notation "m ;; k" := (await m (fun _ => k))
  (at level 100, right associativity).

(** ** [src/lib/storage.ts]: the adapter contract *)

Record StorageAdapter (W : Type) := {
  name : string;
  write : string -> string -> Promise W unit;
  read : string -> Promise W (option string);
  delete : string -> Promise W unit;
  clear : Promise W unit
}.
Arguments name {W} _.
Arguments write {W} _ _ _.
Arguments read {W} _ _.
Arguments delete {W} _ _.
Arguments clear {W} _.

(** ** The host runtime *)

(** [performance.now()] and the timer behind [wait]; the longest string the
    engine builds, beyond which [String.prototype.repeat] throws a
    [RangeError] as it does on a negative count; and the texts the engine
    gives to that [RangeError] (by the count) and to the [TypeError] of
    reading a property of [null] or of [undefined] (by the value and the
    property). *)
Class Runtime (W : Type) := {
  performance_now : W -> Q;
  set_timeout : Q -> W -> W;
  max_string_length : Z;
  invalid_count_message : Z -> string;
  cannot_read_message : JSValue -> string -> string
}.

(** ** [src/lib/benchmark.ts] *)

Record BenchmarkResult := {
  adapterName : string;
  suiteName : string;
  payloadSize : string;
  writeTime : Q;
  readTime : Q;
  blockingTime : Q;
  error : option string
}.

(** [size] is a [number]; the sizes here are the integers. *)
Record Payload := { label : string; size : Z }.

Record BenchmarkSuite := {
  suite_name : string;
  payloads : list Payload
}.

Definition MB : N := 1024 * 1024.

Definition suites : list BenchmarkSuite :=
  [ {| suite_name := "Save a preference (128 B)";
       payloads := [ {| label := "128 B"; size := 128 |} ] |};
    {| suite_name := "Persist UI state (1 KB)";
       payloads := [ {| label := "1 KB"; size := 1024 |} ] |};
    {| suite_name := "Persist UI state (10 KB)";
       payloads := [ {| label := "10 KB"; size := 10 * 1024 |} ] |};
    {| suite_name := "Offline dataset (100 KB)";
       payloads := [ {| label := "100 KB"; size := 100 * 1024 |} ] |};
    {| suite_name := "Offline dataset (1 MB)";
       payloads := [ {| label := "1 MB"; size := 1024 * 1024 |} ] |};
    {| suite_name := "Offline dataset (2 MB)";
       payloads := [ {| label := "2 MB"; size := 2 * 1024 * 1024 |} ] |};
    {| suite_name := "Offline dataset (4 MB)";
       payloads := [ {| label := "4 MB"; size := 4 * 1024 * 1024 |} ] |};
    {| suite_name := "Offline dataset (8 MB)";
       payloads := [ {| label := "8 MB"; size := 8 * 1024 * 1024 |} ] |};
    {| suite_name := "Offline dataset (16 MB)";
       payloads := [ {| label := "16 MB"; size := 16 * 1024 * 1024 |} ] |};
    {| suite_name := "Large dataset (32 MB)";
       payloads := [ {| label := "32 MB"; size := 32 * 1024 * 1024 |} ] |};
    {| suite_name := "Large dataset (64 MB)";
       payloads := [ {| label := "64 MB"; size := 64 * 1024 * 1024 |} ] |};
    {| suite_name := "Large dataset (100 MB)";
       payloads := [ {| label := "100 MB"; size := 100 * 1024 * 1024 |} ] |} ].

(** The first suite of the catalog and its payload. *)
Definition preferencePayload : Payload := {| label := "128 B"; size := 128 |}.

Definition preferenceSuite : BenchmarkSuite :=
  {| suite_name := "Save a preference (128 B)"; payloads := [preferencePayload] |}.

(** [s.repeat(count)] for a count the engine accepts. *)
Definition String_repeat (s : string) (count : N) : string :=
  N.iter count (String.append s) EmptyString.

Section Engine.
Context {W : Type} `{Runtime W}.

(** ["a".repeat(size)]: a [RangeError] on a negative count and on a result
    longer than the engine builds. *)
Definition generatePayload (size : Z) : Promise W string :=
  if ((0 <=? size) && (size <=? max_string_length))%Z
  then resolve (String_repeat "a" (Z.to_N size))
  else throw (RangeError (invalid_count_message size)).

Definition now : Promise W Q := fun w => (Returned (performance_now w), w).

Definition wait (ms : Q) : Promise W unit := fun w => (Returned tt, set_timeout ms w).

(** One timed trial; the pair is [{ writeTime, readTime }]. *)
Definition runOnce (adapter : StorageAdapter W) (key data : string) : Promise W (Q * Q) :=
  clear adapter ;;
  writeStart <- now ;;
  write adapter key data ;;
  writeEnd <- now ;;
  let writeTime := (writeEnd - writeStart)%Q in
  readStart <- now ;;
  _ <- read adapter key ;;
  readEnd <- now ;;
  let readTime := (readEnd - readStart)%Q in
  resolve (writeTime, readTime).

(** The local variables of the repetition loop. *)
Record Totals := { sumWrite : Q; sumRead : Q; runs : nat }.

(** [targetRuns] as fixed by the two thresholds on the first trial. *)
Definition targetRuns (totalTime : Q) : nat :=
  if Qlt_le_dec totalTime 10 then 3
  else if Qlt_le_dec totalTime 50 then 2
  else 1.

(** [while (runs < targetRuns) { ... }]; [fuel] bounds the iterations and
    [targetRuns - runs] of it is always enough. *)
Fixpoint repeatRuns (fuel : nat) (adapter : StorageAdapter W) (key data : string)
    (target : nat) (t : Totals) : Promise W Totals :=
  if (runs t <? target)%nat then
    match fuel with
    | O => resolve t
    | S fuel' =>
        wait 50 ;;
        nextRun <- runOnce adapter key data ;;
        repeatRuns fuel' adapter key data target
          {| sumWrite := sumWrite t + fst nextRun;
             sumRead := sumRead t + snd nextRun;
             runs := S (runs t) |}
    end
  else resolve t.

(** [adapter.name === 'localStorage' || ... ] *)
Definition isSync (adapter_name : string) : bool :=
  String.eqb adapter_name "localStorage"
  || String.eqb adapter_name "sessionStorage"
  || String.eqb adapter_name "Cookies".

(** The body of the [try] block: the result built for one payload. *)
Definition measure (adapter : StorageAdapter W) (suite : BenchmarkSuite)
    (payload : Payload) (key data : string) : Promise W BenchmarkResult :=
  first <- runOnce adapter key data ;;
  let totalTime := (fst first + snd first)%Q in
  let target := targetRuns totalTime in
  t <- repeatRuns target adapter key data target
         {| sumWrite := fst first; sumRead := snd first; runs := 1 |} ;;
  let writeTime := (sumWrite t / inject_Z (Z.of_nat (runs t)))%Q in
  let readTime := (sumRead t / inject_Z (Z.of_nat (runs t)))%Q in
  let blockingTime :=
    if isSync (name adapter) then (writeTime + readTime)%Q else (1 # 2)%Q in
  resolve {| adapterName := name adapter;
             suiteName := suite_name suite;
             payloadSize := label payload;
             writeTime := writeTime;
             readTime := readTime;
             blockingTime := blockingTime;
             error := None |}.

(** [m || "Quota exceeded or unknown error"] on the [message] read. *)
Definition orFallback (m : option string) : string :=
  match m with
  | Some m => if String.eqb m "" then "Quota exceeded or unknown error" else m
  | None => "Quota exceeded or unknown error"
  end.

(** [e.message || "Quota exceeded or unknown error"]: reading the property
    of [null] or [undefined] throws. *)
Definition errorMessage (e : JSValue) : Promise W string :=
  match e with
  | Object o => resolve (orFallback (exn_message o))
  | _ => throw (TypeError (cannot_read_message e "message"))
  end.

(** The result the [catch] block pushes. *)
Definition failedResult (adapter : StorageAdapter W) (suite : BenchmarkSuite)
    (payload : Payload) (message : string) : BenchmarkResult :=
  {| adapterName := name adapter;
     suiteName := suite_name suite;
     payloadSize := label payload;
     writeTime := 0;
     readTime := 0;
     blockingTime := 0;
     error := Some message |}.

(** The [catch] block. *)
Definition failed (adapter : StorageAdapter W) (suite : BenchmarkSuite)
    (payload : Payload) (e : JSValue) : Promise W BenchmarkResult :=
  message <- errorMessage e ;;
  resolve (failedResult adapter suite payload message).

(** One iteration of [for (const payload of suite.payloads)].  The payload
    is built before the [try]: a [RangeError] of [generatePayload] leaves
    the loop, and so does what the [catch] block itself throws. *)
Definition benchPayload (adapter : StorageAdapter W) (suite : BenchmarkSuite)
    (payload : Payload) : Promise W BenchmarkResult :=
  data <- generatePayload (size payload) ;;
  let key := "bench_" ++ label payload in
  try_catch (measure adapter suite payload key data)
            (fun e => failed adapter suite payload e).

(** The loop over the payloads, pushing onto [results]. *)
Fixpoint benchPayloads (adapter : StorageAdapter W) (suite : BenchmarkSuite)
    (todo : list Payload) (results : list BenchmarkResult)
    : Promise W (list BenchmarkResult) :=
  match todo with
  | [] => resolve results
  | payload :: rest =>
      r <- benchPayload adapter suite payload ;;
      benchPayloads adapter suite rest (results ++ [r])
  end.

Definition runBenchmark (adapter : StorageAdapter W) (suite : BenchmarkSuite)
    : Promise W (list BenchmarkResult) :=
  benchPayloads adapter suite (payloads suite) [].

(** [purgeAll]: a failing [clear] is logged and the loop goes on. *)
Fixpoint purgeAll (adapters : list (StorageAdapter W)) : Promise W unit :=
  match adapters with
  | [] => resolve tt
  | adapter :: rest =>
      try_catch (clear adapter) (fun _ => resolve tt) ;;
      purgeAll rest
  end.

End Engine.

(** ** Strings as the adapters use them *)

Module Str.

Fixpoint mem (c : ascii) (s : string) : bool :=
  match s with
  | EmptyString => false
  | String d r => Ascii.eqb c d || mem c r
  end.

(** [s.split(sep)] for a one-character separator: never the empty list. *)
Fixpoint split (sep : ascii) (s : string) : list string :=
  match s with
  | EmptyString => [EmptyString]
  | String c r =>
      if Ascii.eqb c sep then EmptyString :: split sep r
      else match split sep r with
           | piece :: pieces => String c piece :: pieces
           | [] => [String c EmptyString]
           end
  end.

(** [parts.join(sep)] *)
Fixpoint join (sep : string) (parts : list string) : string :=
  match parts with
  | [] => EmptyString
  | [p] => p
  | p :: rest => p ++ sep ++ join sep rest
  end.

(** [s.indexOf(p) === 0] *)
Fixpoint startsWith (p s : string) : bool :=
  match p, s with
  | EmptyString, _ => true
  | String a p', String b s' => Ascii.eqb a b && startsWith p' s'
  | String _ _, EmptyString => false
  end.

(** [s.substring(n, s.length)] *)
Fixpoint drop (n : nat) (s : string) : string :=
  match n, s with
  | O, _ => s
  | S n', String _ r => drop n' r
  | S _, EmptyString => EmptyString
  end.

Fixpoint trimStartBy (ws : ascii -> bool) (s : string) : string :=
  match s with
  | EmptyString => EmptyString
  | String c r => if ws c then trimStartBy ws r else s
  end.

Fixpoint trimEndBy (ws : ascii -> bool) (s : string) : string :=
  match s with
  | EmptyString => EmptyString
  | String c r =>
      match trimEndBy ws r with
      | EmptyString => if ws c then EmptyString else String c EmptyString
      | r' => String c r'
      end
  end.

Definition trimBy (ws : ascii -> bool) (s : string) : string :=
  trimEndBy ws (trimStartBy ws s).

Definition isSpace (c : ascii) : bool := Ascii.eqb c " "%char.

(** The white space and line terminators of [String.prototype.trim] that
    fit in one byte: TAB, LF, VT, FF, CR and SP. *)
Definition isWhiteSpace (c : ascii) : bool :=
  let n := N_of_ascii c in
  ((9 <=? n) && (n <=? 13))%N || (n =? 32)%N.

(** [s.trim()] *)
Definition trim (s : string) : string := trimBy isWhiteSpace s.

(** The part of [s] before the first [sep], and the part after it when
    there is one. *)
Fixpoint cut (sep : ascii) (s : string) : string * option string :=
  match s with
  | EmptyString => (EmptyString, None)
  | String c r =>
      if Ascii.eqb c sep then (EmptyString, Some r)
      else let (before, after) := cut sep r in (String c before, after)
  end.

End Str.

(** ** UTF-8 (Unicode, table 3-7: well-formed byte sequences) *)

Module UTF8.

(** Where a reader of octets stands: between two characters, or within
    one.  [Tail n]: [n] more octets, each from 80 to BF; the four other
    states follow a first octet E0, ED, F0 or F4, which narrows the range
    of the second. *)
Inductive State :=
| Boundary
| Tail1 | Tail2 | Tail3
| AfterE0 | AfterED | AfterF0 | AfterF4.

Definition between (low high b : N) : bool := ((low <=? b) && (b <=? high))%N.

Definition step (st : State) (c : ascii) : option State :=
  let b := N_of_ascii c in
  match st with
  | Boundary =>
      if between 0 127 b then Some Boundary
      else if between 194 223 b then Some Tail1
      else if (b =? 224)%N then Some AfterE0
      else if between 225 236 b || between 238 239 b then Some Tail2
      else if (b =? 237)%N then Some AfterED
      else if (b =? 240)%N then Some AfterF0
      else if between 241 243 b then Some Tail3
      else if (b =? 244)%N then Some AfterF4
      else None
  | Tail1 => if between 128 191 b then Some Boundary else None
  | Tail2 => if between 128 191 b then Some Tail1 else None
  | Tail3 => if between 128 191 b then Some Tail2 else None
  | AfterE0 => if between 160 191 b then Some Tail1 else None
  | AfterED => if between 128 159 b then Some Tail1 else None
  | AfterF0 => if between 144 191 b then Some Tail2 else None
  | AfterF4 => if between 128 143 b then Some Tail2 else None
  end.

Fixpoint validFrom (st : State) (s : string) : bool :=
  match s with
  | EmptyString =>
      match st with
      | Boundary => true
      | _ => false
      end
  | String c r =>
      match step st c with
      | Some st' => validFrom st' r
      | None => false
      end
  end.

(** The octets are the UTF-8 encoding of a sequence of characters: the
    byte strings that stand for a string. *)
Definition valid (s : string) : bool := validFrom Boundary s.

(** The byte order mark: the octets EF BB BF of U+FEFF. *)
Definition bom : string :=
  String (ascii_of_N 239) (String (ascii_of_N 187) (String (ascii_of_N 191) EmptyString)).

(** [UTF-8 decode] of the Encoding standard, on well-formed octets: a
    byte order mark in front is dropped.  This is what [Response.text()]
    and [Blob.text()] hand back. *)
Definition decode (s : string) : string :=
  if Str.startsWith bom s then Str.drop 3 s else s.

End UTF8.

(** ** [encodeURIComponent] and [decodeURIComponent] (ECMAScript, 19.2.6) *)

Module URI.

(** uriUnreserved: uriAlpha, DecimalDigit and uriMark. *)
Definition unreservedSet : string :=
  "ABCDEFGHIJKLMNOPQRSTUVWXYZabcdefghijklmnopqrstuvwxyz0123456789-_.!~*'()".

Definition unreserved (c : ascii) : bool := Str.mem c unreservedSet.

Definition hexDigit (n : N) : ascii :=
  match String.get (N.to_nat n) "0123456789ABCDEF" with
  | Some c => c
  | None => "0"%char
  end.

Definition hexValue (c : ascii) : option N :=
  let n := N_of_ascii c in
  if ((48 <=? n) && (n <=? 57))%N then Some (n - 48)%N
  else if ((65 <=? n) && (n <=? 70))%N then Some (n - 55)%N
  else if ((97 <=? n) && (n <=? 102))%N then Some (n - 87)%N
  else None.

(** An octet outside the unreserved set becomes [%XX]. *)
Definition encodeOctet (c : ascii) : string :=
  if unreserved c then String c EmptyString
  else
    let n := N_of_ascii c in
    String "%"%char
      (String (hexDigit (n / 16)) (String (hexDigit (n mod 16)) EmptyString)).

Fixpoint encodeURIComponent (s : string) : string :=
  match s with
  | EmptyString => EmptyString
  | String c r => encodeOctet c ++ encodeURIComponent r
  end.

(** [%XX] *)
Definition hexOctet (h l : ascii) : option ascii :=
  match hexValue h, hexValue l with
  | Some a, Some b => Some (ascii_of_N (16 * a + b))
  | _, _ => None
  end.

(** [None] stands for the [URIError]: thrown on a [%] that is not followed
    by two hexadecimal digits, and when the octets of the escapes are not
    the UTF-8 encoding of characters (an octet of 128 or more must open or
    continue a well-formed sequence, each of its octets written as an
    escape).  An escape of an octet below 128 is decoded whatever the
    character is: the reserved set of [decodeURIComponent] is empty. *)
Fixpoint decodeFrom (st : UTF8.State) (s : string) : option string :=
  match s with
  | EmptyString =>
      match st with
      | UTF8.Boundary => Some EmptyString
      | _ => None
      end
  | String c r =>
      if Ascii.eqb c "%"%char then
        match r with
        | String h (String l r') =>
            match hexOctet h l with
            | Some o =>
                match UTF8.step st o with
                | Some st' =>
                    match decodeFrom st' r' with
                    | Some d => Some (String o d)
                    | None => None
                    end
                | None => None
                end
            | None => None
            end
        | _ => None
        end
      else
        match st with
        | UTF8.Boundary =>
            match decodeFrom UTF8.Boundary r with
            | Some d => Some (String c d)
            | None => None
            end
        | _ => None
        end
  end.

Definition decodeURIComponent (s : string) : option string :=
  decodeFrom UTF8.Boundary s.

End URI.

(** ** The browser state the adapters act on *)

(** A PouchDB document: its revision, its tombstone flag and the [value]
    property the adapter stores. *)
Record PouchDoc := {
  doc_rev : nat;
  doc_deleted : bool;
  doc_value : string
}.

(** The texts a browser gives to the errors it raises for the adapters:
    to the [QuotaExceededError] of [setItem] (by the key), to the
    [TypeError] of [new Request] on an input that is no URL (by the input),
    to the [TypeError] of [cache.put] on a URL that is not of the web (by
    the URL), to the [TypeError] of reading a property of [null] or of
    [undefined] (by the value and the property). *)
Record Messages := {
  quota_exceeded : string -> string;
  invalid_url : string -> string;
  unsupported_scheme : string -> string;
  cannot_read : JSValue -> string -> string
}.

(** One field per backing store.  [localStorage] and [sessionStorage] are the
    two Web Storage areas of the origin, each bounded by [storageQuota]
    characters; the IndexedDB, Dexie, PouchDB and localForage fields are the
    databases [benchmark_db], [dexie_benchmark], [pouch_benchmark] and
    [localforage_benchmark]; [cacheStorage] is the cache [benchmark_cache],
    its responses under the URL of their request; [requestURL] is the URL
    parser of the page: the URL of [new Request(key)], serialised without
    its fragment, and nothing when the constructor throws (the key does not
    parse against the base URL of the page, or the URL carries
    credentials); [cookieJar] holds the name/value pairs [document.cookie]
    shows, oldest first; [opfsRoot] is the origin private file system,
    reachable only when [opfsAvailable]. *)
Record Browser := {
  localStorage : gmap string string;
  sessionStorage : gmap string string;
  storageQuota : N;
  indexedDB : gmap string string;
  requestURL : string -> option string;
  cacheStorage : gmap string string;
  cookieJar : list (string * string);
  dexieDB : gmap string string;
  pouchDB : gmap string PouchDoc;
  localforageDB : gmap string string;
  opfsAvailable : bool;
  opfsRoot : gmap string string;
  messages : Messages
}.

Definition set_localStorage (m : gmap string string) (b : Browser) : Browser :=
  {| localStorage := m; sessionStorage := sessionStorage b;
     storageQuota := storageQuota b; indexedDB := indexedDB b;
     requestURL := requestURL b; cacheStorage := cacheStorage b;
     cookieJar := cookieJar b; dexieDB := dexieDB b; pouchDB := pouchDB b;
     localforageDB := localforageDB b; opfsAvailable := opfsAvailable b;
     opfsRoot := opfsRoot b; messages := messages b |}.

Definition set_sessionStorage (m : gmap string string) (b : Browser) : Browser :=
  {| localStorage := localStorage b; sessionStorage := m;
     storageQuota := storageQuota b; indexedDB := indexedDB b;
     requestURL := requestURL b; cacheStorage := cacheStorage b;
     cookieJar := cookieJar b; dexieDB := dexieDB b; pouchDB := pouchDB b;
     localforageDB := localforageDB b; opfsAvailable := opfsAvailable b;
     opfsRoot := opfsRoot b; messages := messages b |}.

Definition set_indexedDB (m : gmap string string) (b : Browser) : Browser :=
  {| localStorage := localStorage b; sessionStorage := sessionStorage b;
     storageQuota := storageQuota b; indexedDB := m;
     requestURL := requestURL b; cacheStorage := cacheStorage b;
     cookieJar := cookieJar b; dexieDB := dexieDB b; pouchDB := pouchDB b;
     localforageDB := localforageDB b; opfsAvailable := opfsAvailable b;
     opfsRoot := opfsRoot b; messages := messages b |}.

Definition set_cacheStorage (m : gmap string string) (b : Browser) : Browser :=
  {| localStorage := localStorage b; sessionStorage := sessionStorage b;
     storageQuota := storageQuota b; indexedDB := indexedDB b;
     requestURL := requestURL b; cacheStorage := m; cookieJar := cookieJar b;
     dexieDB := dexieDB b; pouchDB := pouchDB b;
     localforageDB := localforageDB b; opfsAvailable := opfsAvailable b;
     opfsRoot := opfsRoot b; messages := messages b |}.

Definition set_cookieJar (j : list (string * string)) (b : Browser) : Browser :=
  {| localStorage := localStorage b; sessionStorage := sessionStorage b;
     storageQuota := storageQuota b; indexedDB := indexedDB b;
     requestURL := requestURL b; cacheStorage := cacheStorage b;
     cookieJar := j; dexieDB := dexieDB b; pouchDB := pouchDB b;
     localforageDB := localforageDB b; opfsAvailable := opfsAvailable b;
     opfsRoot := opfsRoot b; messages := messages b |}.

Definition set_dexieDB (m : gmap string string) (b : Browser) : Browser :=
  {| localStorage := localStorage b; sessionStorage := sessionStorage b;
     storageQuota := storageQuota b; indexedDB := indexedDB b;
     requestURL := requestURL b; cacheStorage := cacheStorage b;
     cookieJar := cookieJar b; dexieDB := m; pouchDB := pouchDB b;
     localforageDB := localforageDB b; opfsAvailable := opfsAvailable b;
     opfsRoot := opfsRoot b; messages := messages b |}.

Definition set_pouchDB (m : gmap string PouchDoc) (b : Browser) : Browser :=
  {| localStorage := localStorage b; sessionStorage := sessionStorage b;
     storageQuota := storageQuota b; indexedDB := indexedDB b;
     requestURL := requestURL b; cacheStorage := cacheStorage b;
     cookieJar := cookieJar b; dexieDB := dexieDB b; pouchDB := m;
     localforageDB := localforageDB b; opfsAvailable := opfsAvailable b;
     opfsRoot := opfsRoot b; messages := messages b |}.

Definition set_localforageDB (m : gmap string string) (b : Browser) : Browser :=
  {| localStorage := localStorage b; sessionStorage := sessionStorage b;
     storageQuota := storageQuota b; indexedDB := indexedDB b;
     requestURL := requestURL b; cacheStorage := cacheStorage b;
     cookieJar := cookieJar b; dexieDB := dexieDB b; pouchDB := pouchDB b;
     localforageDB := m; opfsAvailable := opfsAvailable b;
     opfsRoot := opfsRoot b; messages := messages b |}.

Definition set_opfsRoot (m : gmap string string) (b : Browser) : Browser :=
  {| localStorage := localStorage b; sessionStorage := sessionStorage b;
     storageQuota := storageQuota b; indexedDB := indexedDB b;
     requestURL := requestURL b; cacheStorage := cacheStorage b;
     cookieJar := cookieJar b; dexieDB := dexieDB b; pouchDB := pouchDB b;
     localforageDB := localforageDB b; opfsAvailable := opfsAvailable b;
     opfsRoot := m; messages := messages b |}.

(** ** Web Storage ([localStorage], [sessionStorage]), after the HTML
    standard *)

Module Storage.

(** The [DOMException] of [setItem]; the text of its message is the
    browser's. *)
Definition QuotaExceededError (message : string) : Exn :=
  {| exn_name := "QuotaExceededError";
     exn_message := Some message;
     exn_status := None |}.

(** Characters held by an area: keys and values. *)
Definition usage (area : gmap string string) : N :=
  map_fold (fun k v acc => N.of_nat (String.length k) + N.of_nat (String.length v) + acc)%N
           0%N area.

(** [area.setItem(key, value)]: the area after the call, or nothing when
    the call throws [QuotaExceededError]. *)
Definition setItem (quota : N) (key value : string) (area : gmap string string)
    : option (gmap string string) :=
  let area' := <[key := value]> area in
  if (usage area' <=? quota)%N then Some area' else None.

Definition getItem (key : string) (area : gmap string string) : option string :=
  area !! key.

Definition removeItem (key : string) (area : gmap string string) : gmap string string :=
  base.delete key area.

Definition clear (area : gmap string string) : gmap string string := ∅.

End Storage.

(** ** [document.cookie], after RFC 6265 and its revision *)

Module Cookie.

(** Name and value of one cookie are kept when their lengths add up to at
    most this many octets; a larger cookie is ignored by the setter. *)
Definition maxSize : nat := 4096.

Definition isWSP (c : ascii) : bool :=
  Ascii.eqb c " "%char || Ascii.eqb c "009"%char.

(** The name/value pair of an assigned cookie string: what precedes the
    first [;], cut at its first [=] (a pair without [=] is a value with
    the empty name), both sides trimmed. *)
Definition parsePair (s : string) : string * string :=
  let pair := fst (Str.cut ";" s) in
  match Str.cut "=" pair with
  | (n, Some v) => (Str.trimBy isWSP n, Str.trimBy isWSP v)
  | (v, None) => (EmptyString, Str.trimBy isWSP v)
  end.

Fixpoint remove (n : string) (jar : list (string * string)) : list (string * string) :=
  match jar with
  | [] => []
  | (m, v) :: rest => if String.eqb m n then remove n rest else (m, v) :: remove n rest
  end.

(** A cookie of the same name is replaced where it stands, a new one goes
    last. *)
Fixpoint store (n v : string) (jar : list (string * string)) : list (string * string) :=
  match jar with
  | [] => [(n, v)]
  | (m, w) :: rest => if String.eqb m n then (n, v) :: rest else (m, w) :: store n v rest
  end.

(** [document.cookie = pair ++ "; path=/; Max-Age=" ++ maxAge] *)
Definition assign (pair : string) (maxAge : Z) (jar : list (string * string))
    : list (string * string) :=
  let (n, v) := parsePair pair in
  if String.eqb n "" && String.eqb v "" then jar
  else if (maxSize <? String.length n + String.length v)%nat then jar
  else if (maxAge <=? 0)%Z then remove n jar
  else store n v jar.

Definition pairString (c : string * string) : string :=
  if String.eqb (fst c) "" then snd c else fst c ++ "=" ++ snd c.

(** The value of [document.cookie]. *)
Definition document_cookie (jar : list (string * string)) : string :=
  Str.join "; " (map pairString jar).

(** The jars the adapter deals with: a name has no [=], no [;] and no space
    in front, a value has no [;], and a value without a name has no [=].
    The empty jar is one, and the adapter keeps a jar so. *)
Definition wfName (n : string) : bool :=
  negb (Str.mem "="%char n) && negb (Str.mem ";"%char n)
  && String.eqb (Str.trimStartBy Str.isSpace n) n.

Definition wfCookie (c : string * string) : bool :=
  wfName (fst c) && negb (Str.mem ";"%char (snd c))
  && (negb (String.eqb (fst c) "") || negb (Str.mem "="%char (snd c))).

Definition wfJar (jar : list (string * string)) : bool :=
  forallb wfCookie jar.

End Cookie.

(** ** PouchDB: documents with revisions, after the API of the library *)

Module Pouch.

Definition notFound (reason : string) : Exn :=
  {| exn_name := "not_found"; exn_message := Some reason; exn_status := Some 404 |}.

Definition conflict : Exn :=
  {| exn_name := "conflict";
     exn_message := Some "Document update conflict";
     exn_status := Some 409 |}.

Definition missingId : Exn :=
  {| exn_name := "missing_id";
     exn_message := Some "_id is required for puts";
     exn_status := Some 412 |}.

Definition reservedId : Exn :=
  {| exn_name := "bad_request";
     exn_message := Some "Only reserved document ids may start with underscore.";
     exn_status := Some 400 |}.

(** [invalidIdError(id)] on a string: the empty id, and the id that starts
    with an underscore without being that of a design document or of a
    local document. *)
Definition invalidIdError (id : string) : option Exn :=
  if String.eqb id "" then Some missingId
  else if Str.startsWith "_" id
          && negb (Str.startsWith "_design" id || Str.startsWith "_local" id)
       then Some reservedId
       else None.

(** A local document: it has no revision tree, is not listed by
    [allDocs], and is gone once removed. *)
Definition isLocalId (id : string) : bool := Str.startsWith "_local/" id.

(** [db.get(id)]: the live document, with its [_rev].  No document is kept
    under an id that [put] refuses. *)
Definition get (id : string) : Promise (gmap string PouchDoc) PouchDoc :=
  fun db =>
    match invalidIdError id with
    | Some _ => (Thrown (notFound "missing"), db)
    | None =>
        match db !! id with
        | Some d => if doc_deleted d then (Thrown (notFound "deleted"), db)
                    else (Returned d, db)
        | None => (Thrown (notFound "missing"), db)
        end
    end.

(** [put] and [remove] of a local document: it is replaced or removed
    only under its current revision, and created by a [put] without
    [_rev]. *)
Definition putLocal (id : string) (rev : option nat) (deleted : bool) (value : string)
    : Promise (gmap string PouchDoc) unit :=
  fun db =>
    let refused : JSValue := if deleted then notFound "missing" else conflict in
    match db !! id, rev with
    | Some d, Some r =>
        if (r =? doc_rev d)%nat then
          (Returned tt,
           if deleted then base.delete id db
           else <[id := {| doc_rev := S (doc_rev d); doc_deleted := false;
                           doc_value := value |}]> db)
        else (Thrown refused, db)
    | None, None =>
        if deleted then (Thrown refused, db)
        else (Returned tt,
              <[id := {| doc_rev := 1; doc_deleted := false; doc_value := value |}]> db)
    | _, _ => (Thrown refused, db)
    end.

(** [db.put({_id: id, _rev: rev, _deleted: deleted, value})]: the id is
    checked first; a live document is replaced only under its current
    revision; a missing or deleted one is created by a [put] without
    [_rev]. *)
Definition put (id : string) (rev : option nat) (deleted : bool) (value : string)
    : Promise (gmap string PouchDoc) unit :=
  fun db =>
    match invalidIdError id with
    | Some e => (Thrown e, db)
    | None =>
        if isLocalId id then putLocal id rev deleted value db
        else
          match db !! id with
          | Some d =>
              if doc_deleted d then
                match rev with
                | None => (Returned tt,
                           <[id := {| doc_rev := S (doc_rev d); doc_deleted := deleted;
                                      doc_value := value |}]> db)
                | Some _ => (Thrown conflict, db)
                end
              else
                match rev with
                | Some r =>
                    if (r =? doc_rev d)%nat then
                      (Returned tt,
                       <[id := {| doc_rev := S (doc_rev d); doc_deleted := deleted;
                                  doc_value := value |}]> db)
                    else (Thrown conflict, db)
                | None => (Thrown conflict, db)
                end
          | None =>
              match rev with
              | None => (Returned tt,
                         <[id := {| doc_rev := 1; doc_deleted := deleted;
                                    doc_value := value |}]> db)
              | Some _ => (Thrown conflict, db)
              end
          end
    end.

(** [db.remove(doc)] *)
Definition remove (id : string) (d : PouchDoc) : Promise (gmap string PouchDoc) unit :=
  put id (Some (doc_rev d)) true (doc_value d).

(** [db.allDocs()]: the rows [(id, rev)] of the live documents; the local
    documents are not among them. *)
Definition allDocs (db : gmap string PouchDoc) : list (string * nat) :=
  omap (fun kd => if doc_deleted (snd kd) || isLocalId (fst kd) then None
                  else Some (fst kd, doc_rev (snd kd)))
       (map_to_list db).

(** One entry [{_id, _rev, _deleted: true}] of a [bulkDocs] call; a
    rejected entry is reported in the reply, not thrown. *)
Definition bulkDelete (db : gmap string PouchDoc) (row : string * nat)
    : gmap string PouchDoc :=
  match put (fst row) (Some (snd row)) true "" db with
  | (Returned _, db') => db'
  | (Thrown _, _) => db
  end.

(** [db.bulkDocs(deletions)] *)
Definition bulkDocs (deletions : list (string * nat)) (db : gmap string PouchDoc)
    : gmap string PouchDoc :=
  fold_left bulkDelete deletions db.

End Pouch.

(** ** The origin private file system, after the File System standard *)

Module FileSystem.

Definition NotFoundError : Exn :=
  {| exn_name := "NotFoundError";
     exn_message := Some "A requested file or directory could not be found at the time an operation was processed.";
     exn_status := None |}.

(** [root.getFileHandle(key)] then [getFile()] and [text()] *)
Definition readFile (key : string) : Promise (gmap string string) string :=
  fun root =>
    match root !! key with
    | Some content => (Returned (UTF8.decode content), root)
    | None => (Thrown NotFoundError, root)
    end.

(** [root.getFileHandle(key, { create: true })], [createWritable()],
    [write(value)], [close()] *)
Definition writeFile (key value : string) : Promise (gmap string string) unit :=
  fun root => (Returned tt, <[key := value]> root).

(** [root.removeEntry(key)]: rejects with [NotFoundError] when the
    directory has no such entry. *)
Definition removeEntry (key : string) : Promise (gmap string string) unit :=
  fun root =>
    match root !! key with
    | Some _ => (Returned tt, base.delete key root)
    | None => (Thrown NotFoundError, root)
    end.

(** [root.keys()] *)
Definition keys (root : gmap string string) : list string :=
  (map_to_list root).*1.

End FileSystem.

(** ** store.js 2 over its default storage, the origin's [localStorage] *)

(** [JSON.stringify] on a string and [JSON.parse] on a text; [None] is the
    [SyntaxError] of [JSON.parse] on a text that is no JSON string. *)
Class JSONCodec := {
  JSON_stringify : string -> string;
  JSON_parse : string -> option string
}.

(** What store.js relies on: a serialised string is never the empty text,
    and parsing gives the string back. *)
Definition JSONLawful (J : JSONCodec) : Prop :=
  forall s, JSON_stringify s <> "" /\ JSON_parse (JSON_stringify s) = Some s.

Module StoreJs.
Section WithCodec.
Context {J : JSONCodec}.

(** [store.set(key, value)]: the serialised value goes under [key] itself,
    the default store has no namespace prefix. *)
Definition set (quota : N) (key value : string) (area : gmap string string)
    : option (gmap string string) :=
  Storage.setItem quota key (JSON_stringify value) area.

(** [store.get(key)]: [None] is [undefined]; a text that does not parse is
    handed back as it is. *)
Definition get (key : string) (area : gmap string string) : option string :=
  match Storage.getItem key area with
  | None => None
  | Some raw =>
      if String.eqb raw "" then None
      else match JSON_parse raw with
           | Some v => Some v
           | None => Some raw
           end
  end.

Definition remove (key : string) (area : gmap string string) : gmap string string :=
  Storage.removeItem key area.

Definition clearAll (area : gmap string string) : gmap string string :=
  Storage.clear area.

End WithCodec.
End StoreJs.

(** [x || null] on a string or [undefined]: the empty string is falsy. *)
Definition orNull (x : option string) : option string :=
  match x with
  | Some s => if String.eqb s "" then None else Some s
  | None => None
  end.

(** ** [src/lib/storage.ts]: the ten adapters *)

(** A computation on one backing store, run on the browser that holds it. *)
Definition within {S A} (get : Browser -> S) (set : S -> Browser -> Browser)
    (m : Promise S A) : Promise Browser A :=
  fun b => let (r, s) := m (get b) in (r, set s b).

Definition LocalStorageAdapter : StorageAdapter Browser :=
  {| name := "localStorage";
     write key value := fun b =>
       match Storage.setItem (storageQuota b) key value (localStorage b) with
       | Some area => (Returned tt, set_localStorage area b)
       | None =>
           (Thrown (Storage.QuotaExceededError (quota_exceeded (messages b) key)), b)
       end;
     read key := fun b => (Returned (Storage.getItem key (localStorage b)), b);
     delete key := fun b =>
       (Returned tt, set_localStorage (Storage.removeItem key (localStorage b)) b);
     clear := fun b =>
       (Returned tt, set_localStorage (Storage.clear (localStorage b)) b) |}.

Definition SessionStorageAdapter : StorageAdapter Browser :=
  {| name := "sessionStorage";
     write key value := fun b =>
       match Storage.setItem (storageQuota b) key value (sessionStorage b) with
       | Some area => (Returned tt, set_sessionStorage area b)
       | None =>
           (Thrown (Storage.QuotaExceededError (quota_exceeded (messages b) key)), b)
       end;
     read key := fun b => (Returned (Storage.getItem key (sessionStorage b)), b);
     delete key := fun b =>
       (Returned tt, set_sessionStorage (Storage.removeItem key (sessionStorage b)) b);
     clear := fun b =>
       (Returned tt, set_sessionStorage (Storage.clear (sessionStorage b)) b) |}.

(** The object store [entries]: [put], [get] (whose [undefined] is [None]),
    [delete] and [clear] on the opened database. *)
Definition IndexedDBAdapter : StorageAdapter Browser :=
  {| name := "IndexedDB";
     write key value := fun b =>
       (Returned tt, set_indexedDB (<[key := value]> (indexedDB b)) b);
     read key := fun b => (Returned (orNull (indexedDB b !! key)), b);
     delete key := fun b =>
       (Returned tt, set_indexedDB (base.delete key (indexedDB b)) b);
     clear := fun b => (Returned tt, set_indexedDB ∅ b) |}.

Module Cache.

(** [cache.put] takes the requests of the web only. *)
Definition http (url : string) : bool :=
  Str.startsWith "http://" url || Str.startsWith "https://" url.

(** [new Request(key)]: its URL, or the [TypeError] of the constructor. *)
Definition newRequest (key : string) : Promise Browser string :=
  fun b =>
    match requestURL b key with
    | Some url => (Returned url, b)
    | None => (Thrown (TypeError (invalid_url (messages b) key)), b)
    end.

(** [cache.put(request, new Response(value))] *)
Definition put (url value : string) : Promise Browser unit :=
  fun b =>
    if http url
    then (Returned tt, set_cacheStorage (<[url := value]> (cacheStorage b)) b)
    else (Thrown (TypeError (unsupported_scheme (messages b) url)), b).

(** [cache.match(request)] and [response.text()] *)
Definition matchText (url : string) : Promise Browser (option string) :=
  fun b =>
    (Returned (match cacheStorage b !! url with
               | Some body => Some (UTF8.decode body)
               | None => None
               end), b).

End Cache.

Definition CacheStorageAdapter : StorageAdapter Browser :=
  {| name := "Cache Storage";
     write key value :=
       request <- Cache.newRequest key ;;
       Cache.put request value;
     read key :=
       request <- Cache.newRequest key ;;
       Cache.matchText request;
     delete key :=
       request <- Cache.newRequest key ;;
       fun b => (Returned tt, set_cacheStorage (base.delete request (cacheStorage b)) b);
     clear := fun b => (Returned tt, set_cacheStorage ∅ b) |}.

Module CookieAdapter.

Definition URIError : Exn :=
  {| exn_name := "URIError"; exn_message := Some "URI malformed"; exn_status := None |}.

Definition write (key value : string) : Promise Browser unit :=
  fun b =>
    (Returned tt,
     set_cookieJar
       (Cookie.assign
          (URI.encodeURIComponent key ++ "=" ++ URI.encodeURIComponent value)
          3600 (cookieJar b)) b).

(** The [for] loop of [read] over the pieces of [document.cookie]: the
    text after [nameEQ] in the first piece that starts with it. *)
Fixpoint find (nameEQ : string) (ca : list string) : option string :=
  match ca with
  | [] => None
  | c :: rest =>
      let c := Str.trimStartBy Str.isSpace c in
      if Str.startsWith nameEQ c then Some (Str.drop (String.length nameEQ) c)
      else find nameEQ rest
  end.

Definition read (key : string) : Promise Browser (option string) :=
  fun b =>
    let nameEQ := URI.encodeURIComponent key ++ "=" in
    let ca := Str.split ";" (Cookie.document_cookie (cookieJar b)) in
    match find nameEQ ca with
    | Some encoded =>
        match URI.decodeURIComponent encoded with
        | Some value => (Returned (Some value), b)
        | None => (Thrown URIError, b)
        end
    | None => (Returned None, b)
    end.

Definition delete (key : string) : Promise Browser unit :=
  fun b =>
    (Returned tt,
     set_cookieJar
       (Cookie.assign (URI.encodeURIComponent key ++ "=") (-99999999) (cookieJar b)) b).

(** The [for] loop of [clear]. *)
Fixpoint deleteEach (ca : list string) : Promise Browser unit :=
  match ca with
  | [] => resolve tt
  | c :: rest =>
      let key := Str.trim (hd EmptyString (Str.split "=" c)) in
      delete key ;;
      deleteEach rest
  end.

Definition clear : Promise Browser unit :=
  fun b => deleteEach (Str.split ";" (Cookie.document_cookie (cookieJar b))) b.

End CookieAdapter.

Definition CookieAdapter : StorageAdapter Browser :=
  {| name := "Cookies";
     write := CookieAdapter.write;
     read := CookieAdapter.read;
     delete := CookieAdapter.delete;
     clear := CookieAdapter.clear |}.

(** The table [entries] keyed by [key]; a row is [{ key, value }]. *)
Definition DexieAdapter : StorageAdapter Browser :=
  {| name := "Dexie.js";
     write key value := fun b =>
       (Returned tt, set_dexieDB (<[key := value]> (dexieDB b)) b);
     read key := fun b =>
       (Returned (match dexieDB b !! key with
                  | Some value => Some value
                  | None => None
                  end), b);
     delete key := fun b =>
       (Returned tt, set_dexieDB (base.delete key (dexieDB b)) b);
     clear := fun b => (Returned tt, set_dexieDB ∅ b) |}.

Definition StoreJsAdapter {J : JSONCodec} : StorageAdapter Browser :=
  {| name := "store.js";
     write key value := fun b =>
       match StoreJs.set (storageQuota b) key value (localStorage b) with
       | Some area => (Returned tt, set_localStorage area b)
       | None =>
           (Thrown (Storage.QuotaExceededError (quota_exceeded (messages b) key)), b)
       end;
     read key := fun b => (Returned (orNull (StoreJs.get key (localStorage b))), b);
     delete key := fun b =>
       (Returned tt, set_localStorage (StoreJs.remove key (localStorage b)) b);
     clear := fun b =>
       (Returned tt, set_localStorage (StoreJs.clearAll (localStorage b)) b) |}.

Module PouchDBAdapter.
Section WithTexts.
Variable texts : Messages.

(** [e.status === 404]; reading the property of [null] or [undefined]
    throws. *)
Definition is404 (e : JSValue) : Promise (gmap string PouchDoc) bool :=
  match e with
  | Object o =>
      resolve (match exn_status o with
               | Some s => (s =? 404)%nat
               | None => false
               end)
  | _ => throw (TypeError (cannot_read texts e "status"))
  end.

Definition write (key value : string) : Promise (gmap string PouchDoc) unit :=
  try_catch
    (doc <- Pouch.get key ;;
     Pouch.put key (Some (doc_rev doc)) (doc_deleted doc) value)
    (fun e =>
       missing <- is404 e ;;
       if missing then Pouch.put key None false value
       else throw e).

Definition read (key : string) : Promise (gmap string PouchDoc) (option string) :=
  try_catch
    (doc <- Pouch.get key ;;
     resolve (Some (doc_value doc)))
    (fun e =>
       missing <- is404 e ;;
       if missing then resolve None else throw e).

Definition delete (key : string) : Promise (gmap string PouchDoc) unit :=
  try_catch
    (doc <- Pouch.get key ;;
     Pouch.remove key doc)
    (fun e =>
       missing <- is404 e ;;
       if negb missing then throw e else resolve tt).

End WithTexts.

Definition clear : Promise (gmap string PouchDoc) unit :=
  fun db =>
    let deletions := Pouch.allDocs db in
    (Returned tt, Pouch.bulkDocs deletions db).

End PouchDBAdapter.

Definition PouchDBAdapter : StorageAdapter Browser :=
  {| name := "PouchDB";
     write key value := fun b =>
       within pouchDB set_pouchDB (PouchDBAdapter.write (messages b) key value) b;
     read key := fun b =>
       within pouchDB set_pouchDB (PouchDBAdapter.read (messages b) key) b;
     delete key := fun b =>
       within pouchDB set_pouchDB (PouchDBAdapter.delete (messages b) key) b;
     clear := within pouchDB set_pouchDB PouchDBAdapter.clear |}.

Definition LocalForageAdapter : StorageAdapter Browser :=
  {| name := "localForage";
     write key value := fun b =>
       (Returned tt, set_localforageDB (<[key := value]> (localforageDB b)) b);
     read key := fun b => (Returned (localforageDB b !! key), b);
     delete key := fun b =>
       (Returned tt, set_localforageDB (base.delete key (localforageDB b)) b);
     clear := fun b => (Returned tt, set_localforageDB ∅ b) |}.

Module OPFSAdapter.

Definition notSupported : Exn :=
  {| exn_name := "Error"; exn_message := Some "OPFS not supported"; exn_status := None |}.

Definition getRoot : Promise Browser unit :=
  fun b =>
    if negb (opfsAvailable b) then (Thrown notSupported, b)
    else (Returned tt, b).

Definition write (key value : string) : Promise Browser unit :=
  getRoot ;;
  within opfsRoot set_opfsRoot (FileSystem.writeFile key value).

Definition read (key : string) : Promise Browser (option string) :=
  try_catch
    (getRoot ;;
     text <- within opfsRoot set_opfsRoot (FileSystem.readFile key) ;;
     resolve (Some text))
    (fun _ => resolve None).

Definition delete (key : string) : Promise Browser unit :=
  getRoot ;;
  within opfsRoot set_opfsRoot (FileSystem.removeEntry key).

(** [for await (const name of root.keys())] *)
Fixpoint removeEach (names : list string) : Promise Browser unit :=
  match names with
  | [] => resolve tt
  | entry :: rest =>
      within opfsRoot set_opfsRoot (FileSystem.removeEntry entry) ;;
      removeEach rest
  end.

Definition clear : Promise Browser unit :=
  getRoot ;;
  fun b => removeEach (FileSystem.keys (opfsRoot b)) b.

End OPFSAdapter.

Definition OPFSAdapter : StorageAdapter Browser :=
  {| name := "OPFS";
     write := OPFSAdapter.write;
     read := OPFSAdapter.read;
     delete := OPFSAdapter.delete;
     clear := OPFSAdapter.clear |}.

(** The adapters, in the order in which [App.tsx] registers them. *)
Inductive Backend :=
| LocalStorage | SessionStorage | IndexedDB | CacheStorage | Cookies
| Dexie | StoreJS | PouchDB | LocalForage | OPFS.

Definition adapter {J : JSONCodec} (k : Backend) : StorageAdapter Browser :=
  match k with
  | LocalStorage => LocalStorageAdapter
  | SessionStorage => SessionStorageAdapter
  | IndexedDB => IndexedDBAdapter
  | CacheStorage => CacheStorageAdapter
  | Cookies => CookieAdapter
  | Dexie => DexieAdapter
  | StoreJS => StoreJsAdapter
  | PouchDB => PouchDBAdapter
  | LocalForage => LocalForageAdapter
  | OPFS => OPFSAdapter
  end.

Definition backends : list Backend :=
  [LocalStorage; SessionStorage; IndexedDB; CacheStorage; Cookies;
   Dexie; StoreJS; PouchDB; LocalForage; OPFS].

Definition adapters {J : JSONCodec} : list (StorageAdapter Browser) :=
  map adapter backends.

(** ** A browser with nothing stored, and a serialisation for plain strings *)

(** The decimal numeral of an integer. *)
Definition decimal (z : Z) : string := NilZero.string_of_int (Z.to_int z).

Module Chromium.

(** The texts of Chromium and of its engine. *)
Definition cannotRead (e : JSValue) (property : string) : string :=
  "Cannot read properties of "
  ++ match e with Null => "null" | _ => "undefined" end
  ++ " (reading '" ++ property ++ "')".

Definition messages : Messages :=
  {| quota_exceeded key :=
       "Failed to execute 'setItem' on 'Storage': Setting the value of '"
       ++ key ++ "' exceeded the quota.";
     invalid_url input :=
       "Failed to construct 'Request': Failed to parse URL from " ++ input;
     unsupported_scheme url :=
       "Failed to execute 'put' on 'Cache': Request scheme '"
       ++ fst (Str.cut ":" url) ++ "' is unsupported";
     cannot_read := cannotRead |}.

(** The longest string of the engine, and the texts of the [RangeError] of
    [repeat]. *)
Definition max_string_length : Z := 2 ^ 29 - 24.

Definition invalid_count_message (count : Z) : string :=
  if (count <? 0)%Z then "Invalid count value: " ++ decimal count
  else "Invalid string length".

End Chromium.

Module Page.

(** A page at [https://localhost/].  A key made of unreserved characters
    and spaces is one segment of a path: the spaces around it are dropped,
    those within become [%20], and the segments [.] and [..] lead to the
    root.  This is the URL parser on these keys, the keys of the benchmark
    among them; on the other keys it stands for a parser that fails. *)
Definition plain (c : ascii) : bool := URI.unreserved c || Str.isSpace c.

Fixpoint allPlain (s : string) : bool :=
  match s with
  | EmptyString => true
  | String c r => plain c && allPlain r
  end.

Fixpoint escapeSpaces (s : string) : string :=
  match s with
  | EmptyString => EmptyString
  | String c r =>
      if Str.isSpace c then "%20" ++ escapeSpaces r else String c (escapeSpaces r)
  end.

Definition requestURL (key : string) : option string :=
  if allPlain key then
    let segment := Str.trimBy Str.isSpace key in
    if String.eqb segment "." || String.eqb segment ".."
    then Some "https://localhost/"
    else Some ("https://localhost/" ++ escapeSpaces segment)
  else None.

End Page.

(** Five mebi-characters per Web Storage area, no cookie, no document and
    no file; the file system is available. *)
Definition freshBrowser : Browser :=
  {| localStorage := ∅; sessionStorage := ∅; storageQuota := 5 * MB;
     indexedDB := ∅; requestURL := Page.requestURL; cacheStorage := ∅;
     cookieJar := []; dexieDB := ∅; pouchDB := ∅; localforageDB := ∅;
     opfsAvailable := true; opfsRoot := ∅; messages := Chromium.messages |}.

(** The same browser without the file system capability. *)
Definition browserWithoutOPFS : Browser :=
  {| localStorage := ∅; sessionStorage := ∅; storageQuota := 5 * MB;
     indexedDB := ∅; requestURL := Page.requestURL; cacheStorage := ∅;
     cookieJar := []; dexieDB := ∅; pouchDB := ∅; localforageDB := ∅;
     opfsAvailable := false; opfsRoot := ∅; messages := Chromium.messages |}.

Module Quoted.

Definition quote : ascii := ascii_of_N 34.

Fixpoint unquoteEnd (s : string) : option string :=
  match s with
  | EmptyString => None
  | String c EmptyString => if Ascii.eqb c quote then Some EmptyString else None
  | String c r =>
      match unquoteEnd r with
      | Some r' => Some (String c r')
      | None => None
      end
  end.

Definition parse (s : string) : option string :=
  match s with
  | String c r => if Ascii.eqb c quote then unquoteEnd r else None
  | EmptyString => None
  end.

Definition stringify (s : string) : string :=
  String quote (s ++ String quote EmptyString).

End Quoted.

(** The serialisation that only puts the string between double quotes: it
    is [JSON.stringify] on the strings that need no escape, the payloads of
    the benchmark among them. *)
Definition quotedCodec : JSONCodec :=
  {| JSON_stringify := Quoted.stringify; JSON_parse := Quoted.parse |}.

(** ** A world with a clock, for running the engine on the adapters *)

Module Timed.

Inductive Call :=
| CallClear
| CallWrite (key : string)
| CallRead (key : string)
| CallDelete (key : string).

(** [pending] lists the durations, in microseconds, of the adapter calls
    to come (a call beyond the list takes no time); [calls] logs the calls
    made, oldest first. *)
Record World (W : Type) := {
  store : W;
  clock : Q;
  pending : list N;
  calls : list Call
}.
Arguments store {W} _.
Arguments clock {W} _.
Arguments pending {W} _.
Arguments calls {W} _.

Definition millis (us : N) : Q := Z.of_N us # 1000.

Definition call {W A} (c : Call) (m : Promise W A) : Promise (World W) A :=
  fun t =>
    let (r, w) := m (store t) in
    (r, {| store := w;
           clock := Qred (clock t + millis (hd 0%N (pending t)));
           pending := tl (pending t);
           calls := calls t ++ [c] |}).

Definition timed {W} (a : StorageAdapter W) : StorageAdapter (World W) :=
  {| name := name a;
     write key value := call (CallWrite key) (write a key value);
     read key := call (CallRead key) (read a key);
     delete key := call (CallDelete key) (delete a key);
     clear := call CallClear (clear a) |}.

Definition runtime (W : Type) : Runtime (World W) :=
  {| performance_now := clock;
     set_timeout ms t :=
       {| store := store t; clock := Qred (clock t + ms);
          pending := pending t; calls := calls t |};
     max_string_length := Chromium.max_string_length;
     invalid_count_message := Chromium.invalid_count_message;
     cannot_read_message := Chromium.cannotRead |}.

Definition start {W} (w : W) (durations : list N) : World W :=
  {| store := w; clock := 0; pending := durations; calls := [] |}.

(** How many trials a log shows: each trial starts with one [clear()]. *)
Fixpoint trials (log : list Call) : nat :=
  match log with
  | [] => O
  | CallClear :: rest => S (trials rest)
  | _ :: rest => trials rest
  end.

End Timed.

#[export] Existing Instance Timed.runtime.

(** ** Runs of the engine used as examples *)

(** The localStorage adapter and the OPFS adapter under the clock. *)
Definition timedLocalStorage : StorageAdapter (Timed.World Browser) :=
  Timed.timed LocalStorageAdapter.

Definition timedOPFS : StorageAdapter (Timed.World Browser) :=
  Timed.timed OPFSAdapter.

(** A fresh browser in which the first trial takes 3 ms to write and 2 ms to
    read, the second 6 ms and 1 ms, the third 3 ms and 3 ms. *)
Definition threeTrials : Timed.World Browser :=
  Timed.start freshBrowser [0; 3000; 2000; 0; 6000; 1000; 0; 3000; 3000]%N.

(** A browser without the file system capability. *)
Definition withoutOPFS : Timed.World Browser :=
  Timed.start browserWithoutOPFS [1000]%N.

(** The first suite on the localStorage adapter, under given durations. *)
Definition localStorageRun (durations : list N) :=
  runBenchmark timedLocalStorage preferenceSuite
    (Timed.start freshBrowser durations).

(** A suite with a payload longer than the strings of the engine. *)
Definition oversizedPayload : Payload :=
  {| label := "1 GB"; size := 1024 * 1024 * 1024 |}.

Definition oversizedSuite : BenchmarkSuite :=
  {| suite_name := "Keep a disk image (1 GB)";
     payloads := [oversizedPayload; preferencePayload] |}.

(** An adapter whose [clear] rejects as [Promise.reject()] does, with
    [undefined]; the rest is the localStorage adapter. *)
Definition rejectingAdapter : StorageAdapter (Timed.World Browser) :=
  Timed.timed
    {| name := "rejecting";
       write := write LocalStorageAdapter;
       read := read LocalStorageAdapter;
       delete := delete LocalStorageAdapter;
       clear := throw Undefined |}.

(** ** The measurement protocol in the words of the specification *)

Section Protocol.
Context {W : Type} `{Runtime W}.

(** [n] further trials, each after a pause of 50 ms; a trial that fails
    ends the sequence. *)
Fixpoint moreTrials (n : nat) (adapter : StorageAdapter W) (key data : string)
    : Promise W (list (Q * Q)) :=
  match n with
  | O => resolve []
  | S n' =>
      wait 50 ;;
      t <- runOnce adapter key data ;;
      ts <- moreTrials n' adapter key data ;;
      resolve (t :: ts)
  end.

(** The arithmetic mean of a non-empty list of durations, summed from the
    first to the last. *)
Definition mean (xs : list Q) : Q :=
  (fold_left Qplus (tl xs) (hd 0 xs) / inject_Z (Z.of_nat (length xs)))%Q.

(** "Either error is set and the timings are zero, or error is unset and
    the timings are not negative." *)
Definition resultInvariant (r : BenchmarkResult) : Prop :=
  (exists m, error r = Some m /\ m <> "" /\ writeTime r = 0%Q /\ readTime r = 0%Q)
  \/ (error r = None /\ (0 <= writeTime r)%Q /\ (0 <= readTime r)%Q).

(** The clock does not run backwards across a computation. *)
Definition monotone {A} (m : Promise W A) : Prop :=
  forall w, (performance_now w <= performance_now (snd (m w)))%Q.

(** A trial fails with [e], leaving the world [w']: its [clear], its
    [write] or its [read] throws. *)
Definition trialThrows (adapter : StorageAdapter W) (key data : string)
    (w : W) (e : JSValue) (w' : W) : Prop :=
  clear adapter w = (Thrown e, w')
  \/ (exists w1, clear adapter w = (Returned tt, w1)
                 /\ write adapter key data w1 = (Thrown e, w'))
  \/ (exists w1 w2, clear adapter w = (Returned tt, w1)
                    /\ write adapter key data w1 = (Returned tt, w2)
                    /\ read adapter key w2 = (Thrown e, w')).

(** The payload fails with [e]: its first trial does, or a later one does
    after the trials before it went through. *)
Inductive laterTrialThrows (adapter : StorageAdapter W) (key data : string)
    : nat -> W -> JSValue -> W -> Prop :=
| later_now n w e w' :
    trialThrows adapter key data (set_timeout 50 w) e w' ->
    laterTrialThrows adapter key data (S n) w e w'
| later_next n w t w1 e w' :
    runOnce adapter key data (set_timeout 50 w) = (Returned t, w1) ->
    laterTrialThrows adapter key data n w1 e w' ->
    laterTrialThrows adapter key data (S n) w e w'.

Definition payloadThrows (adapter : StorageAdapter W) (key data : string)
    (w : W) (e : JSValue) (w' : W) : Prop :=
  trialThrows adapter key data w e w'
  \/ (exists first w1,
        runOnce adapter key data w = (Returned first, w1)
        /\ laterTrialThrows adapter key data
             (targetRuns (fst first + snd first) - 1) w1 e w').

(** A size is the length of a string the engine builds. *)
Definition validSize (size : Z) : Prop := (0 <= size <= max_string_length)%Z.

(** Every payload of the suite can be generated. *)
Definition buildable (suite : BenchmarkSuite) : Prop :=
  Forall (fun p => validSize (size p)) (payloads suite).

(** What the computation throws, if it throws, is neither [null] nor
    [undefined]. *)
Definition rejectsWithObjects {A} (m : Promise W A) : Prop :=
  forall w e w', m w = (Thrown e, w') -> exists o : Exn, e = Object o.

(** The three operations the engine calls reject with nothing but
    objects. *)
Definition throwsObjects (adapter : StorageAdapter W) : Prop :=
  rejectsWithObjects (clear adapter)
  /\ (forall key value, rejectsWithObjects (write adapter key value))
  /\ (forall key, rejectsWithObjects (read adapter key)).



End Protocol.

(** ** Notions used to state the properties of the adapters *)

(** Every character of [s] passes [p]. *)
Fixpoint allChars (p : ascii -> bool) (s : string) : bool :=
  match s with
  | EmptyString => true
  | String c r => p c && allChars p r
  end.

(** Every escape replaced by its octet, whatever the octets are: what the
    encoding of a byte string stands for. *)
Fixpoint unescape (s : string) : option string :=
  match s with
  | EmptyString => Some EmptyString
  | String c r =>
      if Ascii.eqb c "%"%char then
        match r with
        | String h (String l r') =>
            match URI.hexOctet h l, unescape r' with
            | Some o, Some d => Some (String o d)
            | _, _ => None
            end
        | _ => None
        end
      else
        match unescape r with
        | Some d => Some (String c d)
        | None => None
        end
  end.

(** The characters [encodeURIComponent] produces. *)
Definition uriChar (c : ascii) : bool :=
  URI.unreserved c || Ascii.eqb c "%"%char.

(** The value of the cookie called [n], for a non-empty [n]. *)
Fixpoint cookieNamed (n : string) (jar : list (string * string)) : option string :=
  match jar with
  | [] => None
  | (m, v) :: rest =>
      if String.eqb m n && negb (String.eqb n "") then Some v else cookieNamed n rest
  end.

(** The backing store an adapter keeps its entries in.  The localStorage
    adapter and the store.js adapter both keep them in the origin's
    [localStorage], under the very key they are given. *)
Inductive BackingStore :=
| InLocalStorage | InSessionStorage | InIndexedDB | InCacheStorage
| InCookieJar | InDexieDB | InPouchDB | InLocalforageDB | InOPFS.

Definition backingStore (k : Backend) : BackingStore :=
  match k with
  | LocalStorage => InLocalStorage
  | SessionStorage => InSessionStorage
  | IndexedDB => InIndexedDB
  | CacheStorage => InCacheStorage
  | Cookies => InCookieJar
  | Dexie => InDexieDB
  | StoreJS => InLocalStorage
  | PouchDB => InPouchDB
  | LocalForage => InLocalforageDB
  | OPFS => InOPFS
  end.

(** Two browser states that differ at most in the backing store [s]. *)
Definition sameExcept (s : BackingStore) (b b' : Browser) : Prop :=
  (s = InLocalStorage \/ localStorage b' = localStorage b)
  /\ (s = InSessionStorage \/ sessionStorage b' = sessionStorage b)
  /\ storageQuota b' = storageQuota b
  /\ (s = InIndexedDB \/ indexedDB b' = indexedDB b)
  /\ (s = InCacheStorage \/ cacheStorage b' = cacheStorage b)
  /\ (s = InCookieJar \/ cookieJar b' = cookieJar b)
  /\ (s = InDexieDB \/ dexieDB b' = dexieDB b)
  /\ (s = InPouchDB \/ pouchDB b' = pouchDB b)
  /\ (s = InLocalforageDB \/ localforageDB b' = localforageDB b)
  /\ opfsAvailable b' = opfsAvailable b
  /\ (s = InOPFS \/ opfsRoot b' = opfsRoot b)
  /\ requestURL b' = requestURL b
  /\ messages b' = messages b.

(** What the cookie adapter needs of a key and a value for the browser to
    keep the cookie: a name, and no more than [Cookie.maxSize] octets for
    the encoded name and value together. *)
Definition cookieFits (key value : string) : Prop :=
  key <> ""
  /\ (String.length (URI.encodeURIComponent key)
      + String.length (URI.encodeURIComponent value) <= Cookie.maxSize)%nat.

(** ** [Array.prototype.sort] with a comparator *)

(** The language leaves the algorithm open and fixes the outcome for a
    consistent comparator: the stable arrangement in which [a] stands before
    [b] whenever [cmp a b < 0].  It is built here by insertion, from the
    last element to the first. *)
Fixpoint sortInsert {A} (cmp : A -> A -> Q) (x : A) (sorted : list A) : list A :=
  match sorted with
  | [] => [x]
  | y :: rest =>
      if Qlt_le_dec (cmp y x) 0 then y :: sortInsert cmp x rest
      else x :: y :: rest
  end.

Fixpoint Array_sort {A} (cmp : A -> A -> Q) (l : list A) : list A :=
  match l with
  | [] => []
  | x :: rest => sortInsert cmp x (Array_sort cmp rest)
  end.

(** ** [src/App.tsx]: the orchestrator and the views on the results *)

Module App.

(** [prev.includes(name)] *)
Definition includes (x : string) (l : list string) : bool :=
  existsb (String.eqb x) l.

(** [toggleAdapter], as the function given to [setVisibleAdapters]. *)
Definition toggleAdapter (adapter_name : string) (prev : list string) : list string :=
  if includes adapter_name prev
  then List.filter (fun n => negb (String.eqb n adapter_name)) prev
  else (prev ++ [adapter_name])%list.

(** The comparator of [sortedLegendItems]. *)
Definition legendOrder {W} (visibleAdapters : list string) (a b : StorageAdapter W) : Q :=
  let aVisible := includes (name a) visibleAdapters in
  let bVisible := includes (name b) visibleAdapters in
  if aVisible && negb bVisible then (-1)%Q
  else if negb aVisible && bVisible then 1%Q
  else 0%Q.

Definition sortedLegendItems {W} (adapters : list (StorageAdapter W))
    (visibleAdapters : list string) : list (StorageAdapter W) :=
  Array_sort (legendOrder visibleAdapters) adapters.

(** Whether [r.error] is truthy: set, and not the empty string. *)
Definition hasError (r : BenchmarkResult) : bool :=
  match error r with
  | Some m => negb (String.eqb m "")
  | None => false
  end.

(** The comparator of [getSuiteResults]. *)
Definition byErrorThenTotal (a b : BenchmarkResult) : Q :=
  if hasError a && negb (hasError b) then 1%Q
  else if negb (hasError a) && hasError b then (-1)%Q
  else (writeTime a + readTime a - (writeTime b + readTime b))%Q.

Definition getSuiteResults (results : list BenchmarkResult) (suiteName' : string)
    : list BenchmarkResult :=
  Array_sort byErrorThenTotal
    (List.filter (fun r => String.eqb (suiteName r) suiteName') results).

(** [x.toFixed(2)] read back by [parseFloat]: the multiple of 0.01 nearest
    to [x], the one further from zero of two that are as near; from 10^21
    on, the number itself. *)
Definition toFixed2 (x : Q) : Q :=
  let nearest (y : Q) : Q := (Qfloor (y * 100 + (1 # 2)) # 100)%Q in
  if Qlt_le_dec x 0 then
    (if Qlt_le_dec (- x) (10 ^ 21) then - nearest (- x) else x)%Q
  else
    (if Qlt_le_dec x (10 ^ 21) then nearest x else x)%Q.

(** [Math.max(a, b)] *)
Definition Math_max (a b : Q) : Q := if Qlt_le_dec a b then b else a.

(** A property of a [dataPoint]: the label under ["name"], and under the
    name of an adapter a number or [null]. *)
Inductive Cell :=
| CellLabel (text : string)
| CellNumber (value : Q)
| CellNull.

(** [results.find(r => r.suiteName === suite.name && r.adapterName === adapter.name)] *)
Definition findResult (results : list BenchmarkResult) (suite : BenchmarkSuite)
    (adapter_name : string) : option BenchmarkResult :=
  List.find (fun r => String.eqb (suiteName r) (suite_name suite)
                      && String.eqb (adapterName r) adapter_name) results.

(** The body of [adapters.forEach] in [chartData], on the set
    [failedAdapters] and the [dataPoint] under construction. *)
Definition chartCell (results : list BenchmarkResult) (suite : BenchmarkSuite)
    (acc : gset string * gmap string Cell) (adapter_name : string)
    : gset string * gmap string Cell :=
  let (failedAdapters, dataPoint) := acc in
  let res := findResult results suite adapter_name in
  let failedAdapters :=
    match res with
    | Some r => if hasError r then {[adapter_name]} ∪ failedAdapters
                else failedAdapters
    | None => failedAdapters
    end in
  if decide (adapter_name ∈ failedAdapters) then
    (failedAdapters, <[adapter_name := CellNull]> dataPoint)
  else
    match res with
    | Some r =>
        let total := toFixed2 (writeTime r + readTime r) in
        (failedAdapters,
         <[adapter_name := CellNumber (Math_max total (1 # 100))]> dataPoint)
    | None => (failedAdapters, <[adapter_name := CellNull]> dataPoint)
    end.

(** [suites.map(suite => ...)] in [chartData].  [None] is the [TypeError]
    of [suite.payloads[0].label] on a suite without payload. *)
Fixpoint chartPoints (results : list BenchmarkResult) (adapter_names : list string)
    (failedAdapters : gset string) (todo : list BenchmarkSuite)
    : option (list (gmap string Cell)) :=
  match todo with
  | [] => Some []
  | suite :: rest =>
      match payloads suite with
      | [] => None
      | payload :: _ =>
          let dataPoint : gmap string Cell := {[ "name" := CellLabel (label payload) ]} in
          let (failedAdapters', dataPoint') :=
            fold_left (chartCell results suite) adapter_names
              (failedAdapters, dataPoint) in
          match chartPoints results adapter_names failedAdapters' rest with
          | Some points => Some (dataPoint' :: points)
          | None => None
          end
      end
  end.

Definition chartData (suites' : list BenchmarkSuite) (adapter_names : list string)
    (results : list BenchmarkResult) : option (list (gmap string Cell)) :=
  chartPoints results adapter_names ∅ suites'.

(** The state of the component that the run changes. *)
Record State := {
  results : list BenchmarkResult;
  isRunning : bool
}.

Definition setResults (value : list BenchmarkResult) (ui : State) : State :=
  {| results := value; isRunning := isRunning ui |}.

Definition setIsRunning (value : bool) (ui : State) : State :=
  {| results := results ui; isRunning := value |}.

Section Orchestrator.
Context {W : Type} `{Runtime W}.

(** [for (const adapter of adapters)], with [allResults] and the state of the
    component threaded through; an exception of [runBenchmark] is logged
    and the pair gives nothing. *)
Fixpoint forAdapters (suite : BenchmarkSuite) (todo : list (StorageAdapter W))
    (allResults : list BenchmarkResult) (ui : State)
    : Promise W (list BenchmarkResult * State) :=
  match todo with
  | [] => resolve (allResults, ui)
  | adapter :: rest =>
      st <- try_catch
              (suiteResults <- runBenchmark adapter suite ;;
               let allResults := (allResults ++ suiteResults)%list in
               resolve (allResults, setResults allResults ui))
              (fun _ => resolve (allResults, ui)) ;;
      forAdapters suite rest (fst st) (snd st)
  end.

(** [for (const suite of suites)] *)
Fixpoint forSuites (todo : list BenchmarkSuite) (adapters' : list (StorageAdapter W))
    (allResults : list BenchmarkResult) (ui : State)
    : Promise W (list BenchmarkResult * State) :=
  match todo with
  | [] => resolve (allResults, ui)
  | suite :: rest =>
      st <- forAdapters suite adapters' allResults ui ;;
      forSuites rest adapters' (fst st) (snd st)
  end.

Definition runAllBenchmarks (suites' : list BenchmarkSuite)
    (adapters' : list (StorageAdapter W)) (ui : State) : Promise W State :=
  let ui := setIsRunning true ui in
  let ui := setResults [] ui in
  st <- forSuites suites' adapters' [] ui ;;
  purgeAll adapters' ;;
  resolve (setIsRunning false (snd st)).

End Orchestrator.

End App.


(** ** Notions used to state the properties of the views *)

(** [a] may stand before [b]: the comparator does not put [b] first. *)
Definition mayPrecede {A} (cmp : A -> A -> Q) (a b : A) : Prop := ~ (cmp b a < 0)%Q.

(** [writeTime + readTime], the key of the table of a suite. *)
Definition total (r : BenchmarkResult) : Q := (writeTime r + readTime r)%Q.

(** [a] stands above [b] in the table: a result with an error stands above
    no result without one, and of two results that both have an error, or
    both have none, the one above has the total that is not greater. *)
Definition rankedBefore (a b : BenchmarkResult) : Prop :=
  (App.hasError a = true -> App.hasError b = true)
  /\ (App.hasError a = App.hasError b -> (total a <= total b)%Q).

(** A cell has a place on the logarithmic axis of the chart. *)
Definition plottable (c : App.Cell) : Prop :=
  match c with
  | App.CellNumber q => (1 # 100 <= q)%Q
  | _ => True
  end.

(** ** Notions used to state the properties of a whole run *)

(** The world after [clear] was called on each adapter in turn, whether it
    returned or threw. *)
Definition clearEach {W} (l : list (StorageAdapter W)) (w : W) : W :=
  fold_left (fun w a => snd (clear a w)) l w.

(** What identifies a result: suite, adapter and payload. *)
Definition resultKey (r : BenchmarkResult) : string * string * string :=
  (suiteName r, adapterName r, payloadSize r).

(** The results a run is to give: for each suite, for each adapter, for
    each payload of the suite. *)
Definition plannedKeys {W} (suites' : list BenchmarkSuite)
    (adapters' : list (StorageAdapter W)) : list (string * string * string) :=
  concat (map (fun s =>
    concat (map (fun a => map (fun p => (suite_name s, name a, label p)) (payloads s))
                adapters')) suites').

(** The calls of one trial on [key] that goes through. *)
Definition trialCalls (key : string) : list Timed.Call :=
  [Timed.CallClear; Timed.CallWrite key; Timed.CallRead key].

(** A call is a [clear], or a [write] or a [read] of one of [keys]. *)
Definition usesOnly (keys : list string) (c : Timed.Call) : Prop :=
  match c with
  | Timed.CallClear => True
  | Timed.CallWrite k | Timed.CallRead k => k ∈ keys
  | Timed.CallDelete _ => False
  end.

(** The keys [runBenchmark] uses on a suite. *)
Definition benchKeys (suite : BenchmarkSuite) : list string :=
  map (fun p => "bench_" ++ label p) (payloads suite).

(** ** Notions used to state what [clear] of the cookie adapter does *)

(** A cookie as [write] of the adapter leaves it: a name that is not empty,
    name and value made of the characters of an encoding. *)
Definition encodedCookie (c : string * string) : bool :=
  negb (String.eqb (fst c) "") && allChars uriChar (fst c) && allChars uriChar (snd c).

Definition encodedJar (jar : list (string * string)) : bool :=
  forallb encodedCookie jar.

(** [clear], when it comes to the cookie [c], makes the browser expire the
    cookie called [n]: [n] is the encoding of the name of [c], and a cookie
    of that name and no value is not too large for the browser. *)
Definition expires (n : string) (c : string * string) : bool :=
  String.eqb (URI.encodeURIComponent (fst c)) n
  && (String.length (URI.encodeURIComponent (fst c)) <=? Cookie.maxSize)%nat.

Definition expiredByClear (jar : list (string * string)) (n : string) : bool :=
  existsb (expires n) jar.

(** The jar after the deletions [clear] asks for, one for each of [cs]. *)
Definition expireEach (cs : list (string * string)) (jar : list (string * string))
    : list (string * string) :=
  fold_left (fun jar c =>
               if (String.length (URI.encodeURIComponent (fst c)) <=? Cookie.maxSize)%nat
               then Cookie.remove (URI.encodeURIComponent (fst c)) jar else jar)
            cs jar.

(** ** Inputs used as examples for the views and the adapters *)

(** Two suites of the catalog. *)
Definition largeSuites : list BenchmarkSuite :=
  [ {| suite_name := "Offline dataset (8 MB)";
       payloads := [ {| label := "8 MB"; size := 8 * 1024 * 1024 |} ] |};
    {| suite_name := "Large dataset (100 MB)";
       payloads := [ {| label := "100 MB"; size := 100 * 1024 * 1024 |} ] |} ].

(** A result with an error for the first of them, and a result without
    error of the same adapter for the second. *)
Definition quotaFailure : BenchmarkResult :=
  {| adapterName := "localStorage";
     suiteName := "Offline dataset (8 MB)";
     payloadSize := "8 MB";
     writeTime := 0; readTime := 0; blockingTime := 0;
     error := Some "The quota has been exceeded." |}.

Definition laterSuccess : BenchmarkResult :=
  {| adapterName := "localStorage";
     suiteName := "Large dataset (100 MB)";
     payloadSize := "100 MB";
     writeTime := 40; readTime := 2; blockingTime := 42;
     error := None |}.

(** The points of the chart for these results. *)
Definition chartAfterFailure : list (gmap string App.Cell) :=
  match App.chartData largeSuites ["localStorage"; "IndexedDB"]
          [quotaFailure; laterSuccess] with
  | Some points => points
  | None => []
  end.

(** The state of the page before a run. *)
Definition idle : App.State := {| App.results := []; App.isRunning := false |}.

(** The browser after the cookie adapter wrote the first payload. *)
Definition oneCookie : Browser :=
  snd (write (@adapter quotedCodec Cookies) "bench_128 B" (String_repeat "a" 128)
         freshBrowser).

(** The browser after the OPFS adapter wrote the first payload. *)
Definition oneFile : Browser :=
  snd (write (@adapter quotedCodec OPFS) "bench_128 B" (String_repeat "a" 128)
         freshBrowser).

(** * Properties of the measurement engine *)

Section EngineProperties.
Context {W : Type} `{Runtime W}.
Variable adapter : StorageAdapter W.

Ltac step_call c :=
  let o := fresh "o" in
  let w := fresh "w" in
  let E := fresh "E" in
  destruct c as [o w] eqn:E; destruct o; simpl.

(** A trial that returns went through its three calls, and its two times
    are differences of clock readings around [write] and around [read]. *)
Lemma runOnce_returned key data w t w' :
  runOnce adapter key data w = (Returned t, w') ->
  exists w1 w2 v,
    clear adapter w = (Returned tt, w1)
    /\ write adapter key data w1 = (Returned tt, w2)
    /\ read adapter key w2 = (Returned v, w')
    /\ t = ((performance_now w2 - performance_now w1)%Q,
            (performance_now w' - performance_now w2)%Q).
Proof.
  unfold runOnce, await, now, resolve.
  step_call (clear adapter w); [|discriminate].
  step_call (write adapter key data w0); [|discriminate].
  step_call (read adapter key w1); [|discriminate].
  intros [= <- <-]. destruct a, a0. eauto 10.
Qed.

Lemma runOnce_thrown key data w e w' :
  runOnce adapter key data w = (Thrown e, w') <->
  trialThrows adapter key data w e w'.
Proof.
  unfold runOnce, trialThrows, await, now, resolve.
  step_call (clear adapter w).
  - destruct a. step_call (write adapter key data w0).
    + destruct a. step_call (read adapter key w1).
      * split; [discriminate|].
        intros [?|[(? & ? & ?)|(? & ? & ? & ? & ?)]]; congruence.
      * split.
        -- intros [= <- <-]. right; right. eauto.
        -- intros [?|[(? & ? & ?)|(? & ? & ? & ? & ?)]]; congruence.
    + split.
      * intros [= <- <-]. right; left. eauto.
      * intros [?|[(? & ? & ?)|(? & ? & ? & ? & ?)]]; congruence.
  - split.
    + intros [= <- <-]. left. reflexivity.
    + intros [?|[(? & ? & ?)|(? & ? & ? & ? & ?)]]; congruence.
Qed.

Lemma await_eq {A B} (m : Promise W A) (k : A -> Promise W B) w :
  await m k w =
  match m w with
  | (Returned a, w') => k a w'
  | (Thrown e, w') => (Thrown e, w')
  end.
Proof. reflexivity. Qed.

Lemma repeatRuns_moreTrials key data target :
  forall fuel t w,
    (target - runs t <= fuel)%nat ->
    repeatRuns fuel adapter key data target t w =
    match moreTrials (target - runs t) adapter key data w with
    | (Returned ts, w') =>
        (Returned {| sumWrite := fold_left Qplus (map fst ts) (sumWrite t);
                     sumRead := fold_left Qplus (map snd ts) (sumRead t);
                     runs := runs t + length ts |}, w')
    | (Thrown e, w') => (Thrown e, w')
    end.
Proof.
  induction fuel as [|fuel IH]; intros t w Hfuel.
  - assert (target - runs t = 0)%nat as -> by lia.
    simpl. destruct (Nat.ltb_spec (runs t) target); [lia|].
    unfold resolve. destruct t; simpl. rewrite Nat.add_0_r. reflexivity.
  - cbn [repeatRuns]. destruct (Nat.ltb_spec (runs t) target) as [Hlt|Hge].
    + destruct (target - runs t)%nat as [|n] eqn:En; [lia|].
      cbn [moreTrials]. rewrite !await_eq. unfold wait at 1 2.
      rewrite !await_eq.
      destruct (runOnce adapter key data (set_timeout 50 w)) as [[nx|e] w0] eqn:E;
        [|reflexivity].
      rewrite IH by (simpl; lia). simpl.
      assert (target - S (runs t) = n)%nat as -> by lia.
      rewrite await_eq.
      destruct (moreTrials n adapter key data w0) as [[ts|e] w1]; [|reflexivity].
      unfold resolve. simpl. do 3 f_equal. lia.
    + assert (target - runs t = 0)%nat as -> by lia.
      unfold resolve. destruct t; simpl. rewrite Nat.add_0_r. reflexivity.
Qed.

Lemma moreTrials_length key data :
  forall n w ts w',
    moreTrials n adapter key data w = (Returned ts, w') -> length ts = n.
Proof.
  induction n as [|n IH]; cbn [moreTrials]; intros w ts w'.
  - unfold resolve. intros [= <- <-]. reflexivity.
  - rewrite await_eq. unfold wait at 1. rewrite await_eq.
    destruct (runOnce adapter key data (set_timeout 50 w)) as [[nx|e] w0] eqn:E;
      [|discriminate].
    rewrite await_eq.
    destruct (moreTrials n adapter key data w0) as [[ts'|e] w1] eqn:E';
      [|discriminate].
    unfold resolve. intros [= <- <-]. simpl. f_equal. eauto.
Qed.

Lemma moreTrials_thrown key data :
  forall n w e w',
    moreTrials n adapter key data w = (Thrown e, w') <->
    laterTrialThrows adapter key data n w e w'.
Proof.
  induction n as [|n IH]; intros w e w'.
  - simpl. unfold resolve. split; [discriminate|inversion 1].
  - cbn [moreTrials]. rewrite await_eq. unfold wait at 1. rewrite await_eq.
    destruct (runOnce adapter key data (set_timeout 50 w)) as [[nx|e0] w0] eqn:E.
    + rewrite await_eq.
      destruct (moreTrials n adapter key data w0) as [[ts'|e'] w1] eqn:E'.
      * split; [discriminate|].
        inversion 1 as [? ? ? ? Ht|? ? ? ? ? ? Hr Hl]; subst.
        -- apply runOnce_thrown in Ht. congruence.
        -- rewrite E in Hr. injection Hr as <- <-.
           apply IH in Hl. congruence.
      * split.
        -- intros [= <- <-]. eapply later_next; [eassumption|].
           apply IH. assumption.
        -- inversion 1 as [? ? ? ? Ht|? ? ? ? ? ? Hr Hl]; subst.
           ++ apply runOnce_thrown in Ht. congruence.
           ++ rewrite E in Hr. injection Hr as <- <-.
              apply IH in Hl. congruence.
    + split.
      * intros [= <- <-]. apply later_now. apply runOnce_thrown. assumption.
      * inversion 1 as [? ? ? ? Ht|? ? ? ? ? ? Hr Hl]; subst.
        -- apply runOnce_thrown in Ht. congruence.
        -- congruence.
Qed.

Lemma targetRuns_positive totalTime : (1 <= targetRuns totalTime)%nat.
Proof.
  unfold targetRuns.
  destruct (Qlt_le_dec totalTime 10); [lia|].
  destruct (Qlt_le_dec totalTime 50); lia.
Qed.

(** What the [try] block computes, in terms of the trials it runs. *)
Lemma measure_trials suite payload key data w :
  measure adapter suite payload key data w =
  match runOnce adapter key data w with
  | (Thrown e, w1) => (Thrown e, w1)
  | (Returned first, w1) =>
      match moreTrials (targetRuns (fst first + snd first) - 1) adapter key data w1 with
      | (Thrown e, w') => (Thrown e, w')
      | (Returned ts, w') =>
          let writeTime := mean (map fst (first :: ts)) in
          let readTime := mean (map snd (first :: ts)) in
          (Returned {| adapterName := name adapter;
                       suiteName := suite_name suite;
                       payloadSize := label payload;
                       writeTime := writeTime;
                       readTime := readTime;
                       blockingTime :=
                         if isSync (name adapter) then (writeTime + readTime)%Q
                         else (1 # 2)%Q;
                       error := None |}, w')
      end
  end.
Proof.
  unfold measure. rewrite await_eq.
  destruct (runOnce adapter key data w) as [[first|e] w0] eqn:E; [|reflexivity].
  rewrite await_eq.
  rewrite repeatRuns_moreTrials by (simpl; lia). simpl runs.
  destruct (moreTrials _ adapter key data w0) as [[ts|e] w1] eqn:E'; [|reflexivity].
  unfold resolve, mean. cbn [runs sumWrite sumRead map hd tl length].
  rewrite !length_map. reflexivity.
Qed.

Lemma measure_thrown suite payload key data w e w' :
  measure adapter suite payload key data w = (Thrown e, w') <->
  payloadThrows adapter key data w e w'.
Proof.
  rewrite measure_trials. unfold payloadThrows.
  destruct (runOnce adapter key data w) as [[first|e1] w1] eqn:E.
  - destruct (moreTrials _ adapter key data w1) as [[ts|e2] w2] eqn:E2.
    + split; [discriminate|].
      intros [Hf|(f & w3 & [= <- <-] & Hl)].
      * apply runOnce_thrown in Hf. congruence.
      * apply moreTrials_thrown in Hl. congruence.
    + split.
      * intros [= <- <-]. right. exists first, w1. split; [reflexivity|].
        apply moreTrials_thrown. assumption.
      * intros [Hf|(f & w3 & [= <- <-] & Hl)].
        -- apply runOnce_thrown in Hf. congruence.
        -- apply moreTrials_thrown in Hl. congruence.
  - split.
    + intros [= <- <-]. left. apply runOnce_thrown. assumption.
    + intros [Hf|(f & w3 & [= ] & Hl)].
      apply runOnce_thrown in Hf. congruence.
Qed.

(** ** The payload *)

Lemma generatePayload_eq size w :
  generatePayload size w =
  (if ((0 <=? size) && (size <=? max_string_length))%Z
   then Returned (String_repeat "a" (Z.to_N size))
   else Thrown (RangeError (invalid_count_message size)), w).
Proof.
  unfold generatePayload. destruct ((0 <=? size) && (size <=? max_string_length))%Z;
    reflexivity.
Qed.

Lemma validSize_spec size :
  validSize size <-> ((0 <=? size) && (size <=? max_string_length))%Z = true.
Proof. unfold validSize. rewrite andb_true_iff, !Z.leb_le. tauto. Qed.

Lemma generatePayload_valid size w :
  validSize size ->
  generatePayload size w = (Returned (String_repeat "a" (Z.to_N size)), w).
Proof.
  intros Hsize%validSize_spec. rewrite generatePayload_eq, Hsize. reflexivity.
Qed.

Lemma generatePayload_returned size w data w' :
  generatePayload size w = (Returned data, w') ->
  w' = w /\ data = String_repeat "a" (Z.to_N size) /\ validSize size.
Proof.
  rewrite generatePayload_eq.
  destruct ((0 <=? size) && (size <=? max_string_length))%Z eqn:E; [|discriminate].
  intros [= <- <-]. repeat split; try (apply validSize_spec in E; apply E).
Qed.

Lemma generatePayload_thrown size w e w' :
  generatePayload size w = (Thrown e, w') ->
  w' = w /\ e = RangeError (invalid_count_message size) /\ ~ validSize size.
Proof.
  rewrite generatePayload_eq.
  destruct ((0 <=? size) && (size <=? max_string_length))%Z eqn:E; [discriminate|].
  intros [= <- <-]. repeat split. rewrite validSize_spec, E. discriminate.
Qed.

(** ** One payload *)

Lemma orFallback_cases m :
  (forall t, m = Some t -> t <> "" -> orFallback m = t)
  /\ (m = None \/ m = Some "" -> orFallback m = "Quota exceeded or unknown error").
Proof.
  unfold orFallback. split.
  - intros t -> Ht. destruct (String.eqb_spec t ""); congruence.
  - intros [->| ->]; reflexivity.
Qed.

Lemma orFallback_not_empty m : orFallback m <> "".
Proof.
  unfold orFallback. destruct m as [m|]; [|discriminate].
  destruct (String.eqb_spec m ""); [discriminate|assumption].
Qed.

Lemma failed_object suite payload (o : Exn) w :
  failed adapter suite payload o w =
  (Returned (failedResult adapter suite payload (orFallback (exn_message o))), w).
Proof. reflexivity. Qed.

Lemma failed_nullish suite payload e w :
  (forall o : Exn, e <> Object o) ->
  failed adapter suite payload e w =
  (Thrown (TypeError (cannot_read_message e "message")), w).
Proof. intros He. destruct e as [| |o]; try reflexivity. destruct (He o eq_refl). Qed.

Lemma benchPayload_eq suite payload w :
  benchPayload adapter suite payload w =
  match generatePayload (size payload) w with
  | (Thrown e, w0) => (Thrown e, w0)
  | (Returned data, w0) =>
      match measure adapter suite payload ("bench_" ++ label payload) data w0 with
      | (Returned r, w') => (Returned r, w')
      | (Thrown e, w') => failed adapter suite payload e w'
      end
  end.
Proof. reflexivity. Qed.

(** A result of [benchPayload] comes from the [try] block or from the
    [catch] block, on a thrown object. *)
Lemma benchPayload_returned suite payload w r w' :
  benchPayload adapter suite payload w = (Returned r, w') ->
  exists data,
    generatePayload (size payload) w = (Returned data, w)
    /\ (measure adapter suite payload ("bench_" ++ label payload) data w = (Returned r, w')
        \/ exists o : Exn,
             measure adapter suite payload ("bench_" ++ label payload) data w
             = (Thrown o, w')
             /\ r = failedResult adapter suite payload (orFallback (exn_message o))).
Proof.
  rewrite benchPayload_eq.
  destruct (generatePayload (size payload) w) as [[data|e] w0] eqn:Eg; [|discriminate].
  destruct (generatePayload_returned _ _ _ _ Eg) as (-> & _ & _).
  intros Hr. exists data. split; [reflexivity|]. revert Hr.
  destruct (measure _ _ _ _ _ w) as [[r0|e] w1] eqn:Em.
  - intros [= <- <-]. left. reflexivity.
  - destruct e as [| |o]; try discriminate.
    rewrite failed_object. intros [= <- <-]. right. eauto.
Qed.

Lemma runOnce_objects key data :
  throwsObjects adapter -> rejectsWithObjects (runOnce adapter key data).
Proof.
  intros (Hclear & Hwrite & Hread) w e w' Hrun.
  apply runOnce_thrown in Hrun as [Hc|[(w1 & _ & Hw)|(w1 & w2 & _ & _ & Hr)]].
  - eapply Hclear; eassumption.
  - eapply Hwrite; eassumption.
  - eapply Hread; eassumption.
Qed.

Lemma measure_objects suite payload key data :
  throwsObjects adapter ->
  rejectsWithObjects (measure adapter suite payload key data).
Proof.
  intros Hobjects w e w' Hthrown.
  apply measure_thrown in Hthrown as [Hfirst|(first & w1 & _ & Hlater)].
  - apply runOnce_thrown in Hfirst. eapply runOnce_objects; eassumption.
  - remember (targetRuns (fst first + snd first) - 1)%nat as n eqn:En. clear En.
    induction Hlater as [n w0 e w' Ht|n w0 t w1' e w' _ _ IH].
    + apply runOnce_thrown in Ht. eapply runOnce_objects; eassumption.
    + exact IH.
Qed.

(** When the payload can be generated and the adapter rejects with objects
    only, the payload gives a result. *)
Lemma benchPayload_returns suite payload w :
  throwsObjects adapter -> validSize (size payload) ->
  exists r w', benchPayload adapter suite payload w = (Returned r, w').
Proof.
  intros Hobjects Hsize.
  rewrite benchPayload_eq, (generatePayload_valid _ _ Hsize).
  destruct (measure _ _ _ _ _ w) as [[r|e] w'] eqn:Em; [eauto|].
  destruct (measure_objects _ _ _ _ Hobjects _ _ _ Em) as (o & ->).
  rewrite failed_object. eauto.
Qed.

(** The results the loop over the payloads pushes, when it returns: one
    per payload, each the result of [benchPayload] on that payload. *)
Lemma benchPayloads_returned suite :
  forall todo results w out w',
    benchPayloads adapter suite todo results w = (Returned out, w') ->
    exists rs,
      out = (results ++ rs)%list
      /\ Forall2 (fun p r => exists w1 w2,
                     benchPayload adapter suite p w1 = (Returned r, w2)) todo rs.
Proof.
  induction todo as [|p todo IH]; intros results w out w'.
  - cbn [benchPayloads]. unfold resolve. intros [= <- <-].
    exists []. rewrite app_nil_r. split; constructor.
  - cbn [benchPayloads]. rewrite await_eq.
    destruct (benchPayload adapter suite p w) as [[r|e] w1] eqn:Er; [|discriminate].
    intros Hrest. apply IH in Hrest as (rs & -> & Hall).
    exists (r :: rs). split.
    + rewrite <- app_assoc. reflexivity.
    + constructor; eauto.
Qed.

Lemma runBenchmark_returned suite w rs w' :
  runBenchmark adapter suite w = (Returned rs, w') ->
  Forall2 (fun p r => exists w1 w2,
              benchPayload adapter suite p w1 = (Returned r, w2))
          (payloads suite) rs.
Proof.
  unfold runBenchmark. intros Hrun.
  apply benchPayloads_returned in Hrun as (rs' & -> & Hall). exact Hall.
Qed.

Lemma benchPayloads_returns suite :
  throwsObjects adapter ->
  forall todo results w,
    Forall (fun p => validSize (size p)) todo ->
    exists rs w',
      benchPayloads adapter suite todo results w = (Returned (results ++ rs)%list, w')
      /\ Forall2 (fun p r => exists w1 w2,
                     benchPayload adapter suite p w1 = (Returned r, w2)) todo rs.
Proof.
  intros Hobjects.
  induction todo as [|p todo IH]; intros results w Hsizes.
  - exists [], w. simpl. unfold resolve. rewrite app_nil_r. split; constructor.
  - inversion Hsizes as [|? ? Hp Htodo]; subst.
    cbn [benchPayloads]. rewrite await_eq.
    destruct (benchPayload_returns suite p w Hobjects Hp) as (r & w1 & Hr). rewrite Hr.
    destruct (IH (results ++ [r])%list w1 Htodo) as (rs & w2 & Hrs & Hall).
    exists (r :: rs), w2. split.
    + rewrite Hrs. rewrite <- app_assoc. reflexivity.
    + constructor; eauto.
Qed.

Lemma runBenchmark_returns suite w :
  throwsObjects adapter -> buildable suite ->
  exists rs w',
    runBenchmark adapter suite w = (Returned rs, w')
    /\ Forall2 (fun p r => exists w1 w2,
                   benchPayload adapter suite p w1 = (Returned r, w2))
               (payloads suite) rs.
Proof.
  intros Hobjects Hsizes. unfold runBenchmark.
  destruct (benchPayloads_returns suite Hobjects (payloads suite) [] w Hsizes)
    as (rs & w' & Hrs & Hall).
  exists rs, w'. split; assumption.
Qed.

Lemma benchPayload_labels suite payload w r w' :
  benchPayload adapter suite payload w = (Returned r, w') ->
  adapterName r = name adapter /\ suiteName r = suite_name suite
  /\ payloadSize r = label payload.
Proof.
  intros Hr. apply benchPayload_returned in Hr as (data & _ & [Hm|(o & _ & ->)]).
  - rewrite measure_trials in Hm.
    destruct (runOnce _ _ _ w) as [[first|e] w1]; [|discriminate].
    destruct (moreTrials _ _ _ _ w1) as [[ts|e] w2]; [|discriminate].
    injection Hm as <- <-. simpl. auto.
  - simpl. auto.
Qed.

Lemma results_labels suite rs :
  Forall2 (fun p r => exists w1 w2,
              benchPayload adapter suite p w1 = (Returned r, w2))
          (payloads suite) rs ->
  length rs = length (payloads suite)
  /\ map payloadSize rs = map label (payloads suite)
  /\ Forall (fun r => adapterName r = name adapter
                      /\ suiteName r = suite_name suite) rs.
Proof.
  induction 1 as [|p r ps rs (w1 & w2 & Hr) Hall IH].
  - repeat split; constructor.
  - apply benchPayload_labels in Hr as (Ha & Hs & Hp).
    destruct IH as (Hlen & Hmap & Hnames).
    simpl. repeat split; [congruence|congruence|].
    constructor; auto.
Qed.

(** C1, as amended.  For every suite whose payloads can be generated (each
    size is the length of a string the engine builds) and every adapter
    whose operations reject with nothing but objects, [runBenchmark]
    returns, and what it returns has exactly one result per payload of the
    suite, in the order of the payloads, each carrying the name of the
    adapter and the name of the suite; this holds whether the adapter
    calls fail or not. *)
Theorem runBenchmark_one_result_per_payload suite w :
  throwsObjects adapter -> buildable suite ->
  exists rs w',
    runBenchmark adapter suite w = (Returned rs, w')
    /\ length rs = length (payloads suite)
    /\ map payloadSize rs = map label (payloads suite)
    /\ Forall (fun r => adapterName r = name adapter
                       /\ suiteName r = suite_name suite) rs.
Proof.
  intros Hobjects Hsizes.
  destruct (runBenchmark_returns suite w Hobjects Hsizes) as (rs & w' & Hrun & Hall).
  exists rs, w'. split; [assumption|].
  apply results_labels. assumption.
Qed.

Lemma targetRuns_cases totalTime :
  ((totalTime < 10)%Q -> targetRuns totalTime = 3%nat)
  /\ ((10 <= totalTime)%Q -> (totalTime < 50)%Q -> targetRuns totalTime = 2%nat)
  /\ ((50 <= totalTime)%Q -> targetRuns totalTime = 1%nat).
Proof.
  unfold targetRuns. repeat split; intros.
  - destruct (Qlt_le_dec totalTime 10) as [?|Hle]; [reflexivity|].
    exfalso. eapply Qlt_not_le; eassumption.
  - destruct (Qlt_le_dec totalTime 10) as [Hlt|?].
    + exfalso. eapply Qlt_not_le; eassumption.
    + destruct (Qlt_le_dec totalTime 50) as [?|Hle]; [reflexivity|].
      exfalso. eapply Qlt_not_le; eassumption.
  - destruct (Qlt_le_dec totalTime 10) as [Hlt|?].
    + exfalso. apply (Qlt_not_le _ _ Hlt).
      apply Qle_trans with 50%Q; [discriminate|assumption].
    + destruct (Qlt_le_dec totalTime 50) as [Hlt|?]; [|reflexivity].
      exfalso. eapply Qlt_not_le; eassumption.
Qed.

(** C2. When the first trial of a payload takes [total] ms for its write
    and its read together, the engine runs 3 trials in all if
    [total < 10], 2 if [10 <= total < 50] and 1 otherwise: the first trial
    and then, each after a pause of 50 ms, the trials still due; when
    these go through, the result reports as [writeTime] and [readTime]
    the arithmetic means of the write times and of the read times of
    exactly those trials.  [data] is the payload, as [generatePayload]
    gave it. *)
Theorem adaptive_repetition suite payload w data first w1 :
  let key := "bench_" ++ label payload in
  let total := (fst first + snd first)%Q in
  let n := targetRuns total in
  generatePayload (size payload) w = (Returned data, w) ->
  runOnce adapter key data w = (Returned first, w1) ->
  (((total < 10)%Q -> n = 3%nat)
   /\ ((10 <= total)%Q -> (total < 50)%Q -> n = 2%nat)
   /\ ((50 <= total)%Q -> n = 1%nat))
  /\ forall ts w',
       moreTrials (n - 1) adapter key data w1 = (Returned ts, w') ->
       length (first :: ts) = n
       /\ exists r,
            benchPayload adapter suite payload w = (Returned r, w')
            /\ error r = None
            /\ writeTime r = mean (map fst (first :: ts))
            /\ readTime r = mean (map snd (first :: ts)).
Proof.
  intros key total n Hdata Hfirst. split; [apply targetRuns_cases|].
  intros ts w' Hmore. split.
  - apply moreTrials_length in Hmore. simpl. rewrite Hmore.
    pose proof (targetRuns_positive total) as Hpos. fold n in Hpos. lia.
  - rewrite benchPayload_eq, Hdata, measure_trials.
    fold key. rewrite Hfirst. fold total n. rewrite Hmore.
    eexists. split; [reflexivity|]. simpl. auto.
Qed.

(** C4, as amended.  When an adapter call throws an object while a payload
    is processed (in its first trial or in a later one), no further call
    is made for that payload: the world the engine goes on from is the one
    the failing call left.  The result recorded for the payload has zero
    timings and, as its error, the message of the thrown object, or "Quota
    exceeded or unknown error" when the message is missing or empty.  The
    loop then goes on with the payloads that remain, and gives one result
    for each of them when they can be generated and the adapter rejects
    with nothing but objects. *)
Theorem failing_payload_is_recorded suite payload rest results w data (e : Exn) w' :
  generatePayload (size payload) w = (Returned data, w) ->
  payloadThrows adapter ("bench_" ++ label payload) data w e w' ->
  let r := {| adapterName := name adapter;
              suiteName := suite_name suite;
              payloadSize := label payload;
              writeTime := 0; readTime := 0; blockingTime := 0;
              error := Some (orFallback (exn_message e)) |} in
  benchPayload adapter suite payload w = (Returned r, w')
  /\ (forall m, exn_message e = Some m -> m <> "" -> error r = Some m)
  /\ (exn_message e = None \/ exn_message e = Some "" ->
      error r = Some "Quota exceeded or unknown error")
  /\ benchPayloads adapter suite (payload :: rest) results w =
     benchPayloads adapter suite rest (results ++ [r])%list w'
  /\ (throwsObjects adapter -> Forall (fun p => validSize (size p)) rest ->
      exists rs w'',
        benchPayloads adapter suite (payload :: rest) results w =
        (Returned (results ++ r :: rs)%list, w'')
        /\ length rs = length rest).
Proof.
  intros Hdata Hthrows r.
  apply (measure_thrown suite payload) in Hthrows.
  assert (benchPayload adapter suite payload w = (Returned r, w')) as Hr.
  { rewrite benchPayload_eq, Hdata, Hthrows. reflexivity. }
  destruct (orFallback_cases (exn_message e)) as [Hsome Hnone].
  split; [assumption|]. split; [|split; [|split]].
  - intros m Hm Hne. simpl. f_equal. auto.
  - intros Hm. simpl. f_equal. auto.
  - cbn [benchPayloads]. rewrite await_eq, Hr. reflexivity.
  - intros Hobjects Hsizes. cbn [benchPayloads]. rewrite await_eq, Hr.
    destruct (benchPayloads_returns suite Hobjects rest (results ++ [r])%list w' Hsizes)
      as (rs & w'' & Hrs & Hall).
    exists rs, w''. split.
    + rewrite Hrs. rewrite <- app_assoc. reflexivity.
    + symmetry. eapply Forall2_length. eassumption.
Qed.

(** What the engine does on a value that is no object: the [catch] block
    throws, and the loop over the payloads ends there. *)
Lemma nullish_rejection_aborts suite payload rest results w data e w' :
  generatePayload (size payload) w = (Returned data, w) ->
  payloadThrows adapter ("bench_" ++ label payload) data w e w' ->
  (forall o : Exn, e <> Object o) ->
  benchPayloads adapter suite (payload :: rest) results w =
  (Thrown (TypeError (cannot_read_message e "message")), w').
Proof.
  intros Hdata Hthrows He.
  apply (measure_thrown suite payload) in Hthrows.
  cbn [benchPayloads]. rewrite await_eq, benchPayload_eq, Hdata, Hthrows.
  rewrite failed_nullish by assumption. reflexivity.
Qed.

(** A payload that cannot be generated ends the loop before any call of
    the adapter. *)
Lemma unbuildable_payload_aborts suite payload rest results w :
  ~ validSize (size payload) ->
  benchPayloads adapter suite (payload :: rest) results w =
  (Thrown (RangeError (invalid_count_message (size payload))), w).
Proof.
  intros Hsize. cbn [benchPayloads]. rewrite await_eq, benchPayload_eq.
  rewrite generatePayload_eq.
  destruct ((0 <=? size payload) && (size payload <=? max_string_length))%Z eqn:E;
    [|reflexivity].
  apply validSize_spec in E. contradiction.
Qed.

Lemma runOnce_nonneg key data w t w' :
  (forall k v, monotone (write adapter k v)) ->
  (forall k, monotone (read adapter k)) ->
  runOnce adapter key data w = (Returned t, w') ->
  (0 <= fst t)%Q /\ (0 <= snd t)%Q.
Proof.
  intros Hwrite Hread Hrun.
  apply runOnce_returned in Hrun as (w1 & w2 & v & _ & Hw & Hr & ->).
  pose proof (Hwrite key data w1) as Hw'. rewrite Hw in Hw'.
  pose proof (Hread key w2) as Hr'. rewrite Hr in Hr'.
  cbn [fst snd] in *. unfold Qminus. split; apply -> Qle_minus_iff; assumption.
Qed.

Lemma moreTrials_nonneg key data :
  (forall k v, monotone (write adapter k v)) ->
  (forall k, monotone (read adapter k)) ->
  forall n w ts w',
    moreTrials n adapter key data w = (Returned ts, w') ->
    Forall (fun t => (0 <= fst t)%Q /\ (0 <= snd t)%Q) ts.
Proof.
  intros Hwrite Hread.
  induction n as [|n IH]; cbn [moreTrials]; intros w ts w'.
  - unfold resolve. intros [= <- <-]. constructor.
  - rewrite await_eq. unfold wait at 1. rewrite await_eq.
    destruct (runOnce adapter key data (set_timeout 50 w)) as [[t|e] w0] eqn:E;
      [|discriminate].
    rewrite await_eq.
    destruct (moreTrials n adapter key data w0) as [[ts'|e] w1] eqn:E';
      [|discriminate].
    unfold resolve. intros [= <- <-]. constructor.
    + eapply runOnce_nonneg; eassumption.
    + eapply IH; eassumption.
Qed.

Lemma fold_left_Qplus_nonneg xs :
  forall acc, (0 <= acc)%Q -> Forall (fun x => (0 <= x)%Q) xs ->
              (0 <= fold_left Qplus xs acc)%Q.
Proof.
  induction xs as [|x xs IH]; intros acc Hacc Hall; simpl; [assumption|].
  inversion Hall; subst. apply IH; [|assumption].
  replace 0%Q with (0 + 0)%Q by reflexivity.
  apply Qplus_le_compat; assumption.
Qed.

Lemma mean_nonneg x xs :
  Forall (fun x => (0 <= x)%Q) (x :: xs) -> (0 <= mean (x :: xs))%Q.
Proof.
  intros Hall. inversion Hall; subst. unfold mean. cbn [hd tl].
  unfold Qdiv. apply Qmult_le_0_compat.
  - apply fold_left_Qplus_nonneg; assumption.
  - apply Qinv_le_0_compat. unfold Qle. simpl. lia.
Qed.

Lemma benchPayload_invariant suite payload w r w' :
  (forall k v, monotone (write adapter k v)) ->
  (forall k, monotone (read adapter k)) ->
  benchPayload adapter suite payload w = (Returned r, w') ->
  resultInvariant r.
Proof.
  intros Hwrite Hread Hr.
  apply benchPayload_returned in Hr as (data & _ & [Hm|(o & _ & ->)]).
  - rewrite measure_trials in Hm.
    destruct (runOnce _ _ _ w) as [[first|e] w1] eqn:E1; [|discriminate].
    destruct (moreTrials _ _ _ _ w1) as [[ts|e] w2] eqn:E2; [|discriminate].
    injection Hm as <- <-. right. simpl.
    pose proof (runOnce_nonneg _ _ _ _ _ Hwrite Hread E1) as [Hw Hr].
    pose proof (moreTrials_nonneg _ _ Hwrite Hread _ _ _ _ E2) as Hts.
    split; [reflexivity|]. split; apply mean_nonneg; constructor;
      try assumption; apply Forall_map; eapply Forall_impl; try eassumption;
      simpl; tauto.
  - left. exists (orFallback (exn_message o)). simpl.
    split; [reflexivity|]. split; [apply orFallback_not_empty|]. auto.
Qed.

(** C3. When the clock does not run backwards across the [write] and the
    [read] of the adapter, every result of [runBenchmark] either has a
    (non-empty) error and [writeTime = readTime = 0], or has no error and
    [writeTime >= 0] and [readTime >= 0]. *)
Theorem results_satisfy_invariant suite w rs w' :
  (forall k v, monotone (write adapter k v)) ->
  (forall k, monotone (read adapter k)) ->
  runBenchmark adapter suite w = (Returned rs, w') ->
  Forall resultInvariant rs.
Proof.
  intros Hwrite Hread Hrun.
  apply runBenchmark_returned in Hrun.
  induction Hrun as [|p r ps rs' (w1 & w2 & Hr) Hall IH]; constructor.
  - eapply benchPayload_invariant; eassumption.
  - apply IH.
Qed.

Lemma isSync_names adapter_name :
  isSync adapter_name = true <->
  adapter_name = "localStorage" \/ adapter_name = "sessionStorage"
  \/ adapter_name = "Cookies".
Proof.
  unfold isSync. rewrite !orb_true_iff, !String.eqb_eq. tauto.
Qed.

Lemma benchPayload_blockingTime suite payload w r w' :
  benchPayload adapter suite payload w = (Returned r, w') ->
  error r = None ->
  blockingTime r =
  if isSync (name adapter) then (writeTime r + readTime r)%Q else (1 # 2)%Q.
Proof.
  intros Hr. apply benchPayload_returned in Hr as (data & _ & [Hm|(o & _ & ->)]).
  - rewrite measure_trials in Hm.
    destruct (runOnce _ _ _ w) as [[first|e] w1]; [|discriminate].
    destruct (moreTrials _ _ _ _ w1) as [[ts|e] w2]; [|discriminate].
    injection Hm as <- <-. reflexivity.
  - discriminate.
Qed.

(** C7. In every result of [runBenchmark] that carries no error,
    [blockingTime] is [writeTime + readTime] when the adapter is named
    localStorage, sessionStorage or Cookies, and is 0.5 ms when it has any
    other name. *)
Theorem blockingTime_by_backend suite w rs w' r :
  runBenchmark adapter suite w = (Returned rs, w') ->
  In r rs ->
  error r = None ->
  (name adapter = "localStorage" \/ name adapter = "sessionStorage"
   \/ name adapter = "Cookies" ->
   blockingTime r = (writeTime r + readTime r)%Q)
  /\ (name adapter <> "localStorage" -> name adapter <> "sessionStorage" ->
      name adapter <> "Cookies" ->
      blockingTime r = (1 # 2)%Q).
Proof.
  intros Hrun Hin Herr.
  apply runBenchmark_returned in Hrun.
  assert (exists p w1 w2, benchPayload adapter suite p w1 = (Returned r, w2))
    as (p & w1 & w2 & Hr).
  { induction Hrun as [|p r' ps rs' (w1 & w2 & Hr) Hall IH].
    - destruct Hin.
    - destruct Hin as [->|Hin]; eauto. }
  rewrite (benchPayload_blockingTime _ _ _ _ _ Hr Herr).
  split.
  - intros Hname. apply isSync_names in Hname. rewrite Hname. reflexivity.
  - intros H1 H2 H3. destruct (isSync (name adapter)) eqn:E; [|reflexivity].
    apply isSync_names in E. tauto.
Qed.

End EngineProperties.

(** * Properties of the URI encoding *)

Section URIProperties.

(** The decoder reads the encoding of an octet as the octet itself, in
    whatever state it is: an unreserved character stands for itself and is
    below 128, any other octet is an escape. *)
Lemma decodeFrom_encodeOctet st c r :
  URI.decodeFrom st (URI.encodeOctet c ++ r) =
  match UTF8.step st c with
  | Some st' =>
      match URI.decodeFrom st' r with
      | Some d => Some (String c d)
      | None => None
      end
  | None => None
  end.
Proof.
  destruct st; destruct c as [[] [] [] [] [] [] [] []]; reflexivity.
Qed.

Lemma decodeFrom_encode s :
  forall st,
    URI.decodeFrom st (URI.encodeURIComponent s) =
    if UTF8.validFrom st s then Some s else None.
Proof.
  induction s as [|c s IH]; intros st.
  - destruct st; reflexivity.
  - cbn [URI.encodeURIComponent UTF8.validFrom]. rewrite decodeFrom_encodeOctet.
    destruct (UTF8.step st c) as [st'|]; [|reflexivity].
    rewrite IH. destruct (UTF8.validFrom st' s); reflexivity.
Qed.

(** [decodeURIComponent] undoes [encodeURIComponent] on a string, and
    throws on the encoding of octets that are not one. *)
Lemma decode_encode_valid s :
  URI.decodeURIComponent (URI.encodeURIComponent s) =
  if UTF8.valid s then Some s else None.
Proof. apply decodeFrom_encode. Qed.

Lemma decode_encode s :
  UTF8.valid s = true ->
  URI.decodeURIComponent (URI.encodeURIComponent s) = Some s.
Proof. intros Hs. rewrite decode_encode_valid, Hs. reflexivity. Qed.

Lemma unescape_encodeOctet c r :
  unescape (URI.encodeOctet c ++ r) =
  match unescape r with
  | Some d => Some (String c d)
  | None => None
  end.
Proof.
  destruct c as [[] [] [] [] [] [] [] []]; reflexivity.
Qed.

Lemma unescape_encode s : unescape (URI.encodeURIComponent s) = Some s.
Proof.
  induction s as [|c s IH]; [reflexivity|].
  cbn [URI.encodeURIComponent]. rewrite unescape_encodeOctet, IH. reflexivity.
Qed.

Lemma encode_injective s t :
  URI.encodeURIComponent s = URI.encodeURIComponent t -> s = t.
Proof.
  intros Heq. pose proof (unescape_encode s) as Hs.
  rewrite Heq, unescape_encode in Hs. congruence.
Qed.

Lemma allChars_app p s t :
  allChars p (s ++ t) = allChars p s && allChars p t.
Proof.
  induction s as [|c s IH]; simpl; [reflexivity|].
  rewrite IH, andb_assoc. reflexivity.
Qed.

Lemma encodeOctet_uriChars c : allChars uriChar (URI.encodeOctet c) = true.
Proof.
  destruct c as [[] [] [] [] [] [] [] []]; reflexivity.
Qed.

Lemma encode_uriChars s : allChars uriChar (URI.encodeURIComponent s) = true.
Proof.
  induction s as [|c s IH]; [reflexivity|].
  cbn [URI.encodeURIComponent].
  rewrite allChars_app, encodeOctet_uriChars, IH. reflexivity.
Qed.

Lemma encode_empty s : URI.encodeURIComponent s = "" -> s = "".
Proof.
  destruct s as [|c s]; [reflexivity|].
  cbn [URI.encodeURIComponent]. unfold URI.encodeOctet.
  destruct (URI.unreserved c); discriminate.
Qed.

Lemma allChars_mem p s c :
  allChars p s = true -> p c = false -> Str.mem c s = false.
Proof.
  intros Hall Hc. induction s as [|d s IH]; [reflexivity|].
  simpl in *. apply andb_true_iff in Hall as [Hd Hs].
  rewrite (IH Hs), orb_false_r.
  destruct (Ascii.eqb_spec c d) as [->|]; congruence.
Qed.

End URIProperties.

(** * Properties of the cookie jar and of the cookie adapter *)

Section CookieProperties.

Lemma uriChar_plain c :
  uriChar c = true ->
  Cookie.isWSP c = false /\ Str.isSpace c = false
  /\ Ascii.eqb c ";"%char = false /\ Ascii.eqb c "="%char = false.
Proof.
  destruct c as [[] [] [] [] [] [] [] []]; vm_compute; intuition discriminate.
Qed.

Lemma mem_app c s t : Str.mem c (s ++ t) = Str.mem c s || Str.mem c t.
Proof.
  induction s as [|d s IH]; simpl; [reflexivity|].
  rewrite IH, orb_assoc. reflexivity.
Qed.

Lemma uriChars_no c s :
  allChars uriChar s = true ->
  (c = ";" \/ c = "=" \/ c = " ")%char -> Str.mem c s = false.
Proof.
  intros Hs Hc. apply (allChars_mem uriChar); [assumption|].
  destruct Hc as [->|[->| ->]]; reflexivity.
Qed.

Lemma trimStartBy_uriChars ws s :
  (forall c, uriChar c = true -> ws c = false) ->
  allChars uriChar s = true -> Str.trimStartBy ws s = s.
Proof.
  intros Hws. destruct s as [|c s]; simpl; [reflexivity|].
  intros [Hc _]%andb_true_iff. rewrite (Hws c Hc). reflexivity.
Qed.

Lemma trimEndBy_uriChars ws s :
  (forall c, uriChar c = true -> ws c = false) ->
  allChars uriChar s = true -> Str.trimEndBy ws s = s.
Proof.
  intros Hws. induction s as [|c s IH]; simpl; [reflexivity|].
  intros [Hc Hs]%andb_true_iff. rewrite (IH Hs), (Hws c Hc).
  destruct s; reflexivity.
Qed.

Lemma trimBy_uriChars s :
  allChars uriChar s = true -> Str.trimBy Cookie.isWSP s = s.
Proof.
  intros Hs. unfold Str.trimBy.
  rewrite trimStartBy_uriChars, trimEndBy_uriChars; auto;
    intros c Hc; apply uriChar_plain in Hc; tauto.
Qed.

Lemma cut_absent sep s : Str.mem sep s = false -> Str.cut sep s = (s, None).
Proof.
  induction s as [|c s IH]; simpl; [reflexivity|].
  rewrite Ascii.eqb_sym. intros [Hc Hs]%orb_false_iff.
  rewrite Hc, (IH Hs). reflexivity.
Qed.

Lemma cut_first sep s t :
  Str.mem sep s = false -> Str.cut sep (s ++ String sep t) = (s, Some t).
Proof.
  induction s as [|c s IH]; simpl.
  - rewrite Ascii.eqb_refl. reflexivity.
  - rewrite Ascii.eqb_sym. intros [Hc Hs]%orb_false_iff.
    rewrite Hc, (IH Hs). reflexivity.
Qed.

(** The pair the adapter assigns is read by the browser as the encoded
    key and the encoded value. *)
Lemma parsePair_encoded n v :
  allChars uriChar n = true -> allChars uriChar v = true ->
  Cookie.parsePair (n ++ "=" ++ v) = (n, v).
Proof.
  intros Hn Hv. unfold Cookie.parsePair.
  rewrite (cut_absent ";"%char (n ++ "=" ++ v)).
  2:{ rewrite !mem_app, (uriChars_no _ n), (uriChars_no _ v) by auto.
      reflexivity. }
  cbn [fst]. change ("=" ++ v) with (String "="%char v).
  rewrite cut_first by (apply uriChars_no; auto).
  rewrite !trimBy_uriChars by assumption. reflexivity.
Qed.

Lemma split_absent sep s : Str.mem sep s = false -> Str.split sep s = [s].
Proof.
  induction s as [|c s IH]; simpl; [reflexivity|].
  rewrite Ascii.eqb_sym. intros [Hc Hs]%orb_false_iff.
  rewrite Hc, (IH Hs). reflexivity.
Qed.

Lemma split_first sep s t :
  Str.mem sep s = false ->
  Str.split sep (s ++ String sep t) = s :: Str.split sep t.
Proof.
  induction s as [|c s IH]; simpl.
  - rewrite Ascii.eqb_refl. reflexivity.
  - rewrite Ascii.eqb_sym. intros [Hc Hs]%orb_false_iff.
    rewrite Hc, (IH Hs). reflexivity.
Qed.

(** The pieces of [document.cookie]: the first cookie as it is, the
    others after one space. *)
Lemma split_document_cookie items :
  Forall (fun i => Str.mem ";"%char i = false) items ->
  Str.split ";" (Str.join "; " items) =
  match items with
  | [] => [""]
  | i :: rest => i :: map (String " "%char) rest
  end.
Proof.
  induction 1 as [|i rest Hi Hrest IH]; [reflexivity|].
  destruct rest as [|j rest].
  - simpl. apply split_absent. assumption.
  - change (Str.join "; " (i :: j :: rest))
      with (i ++ String ";"%char (String " "%char (Str.join "; " (j :: rest)))).
    rewrite split_first by assumption. f_equal.
    inversion Hrest as [|? ? Hj _]; subst.
    assert (Str.split ";" (String " "%char (Str.join "; " (j :: rest))) =
            map (String " "%char) (j :: rest)) as ->; [|reflexivity].
    cbn [Str.split]. change (Ascii.eqb " " ";") with false. cbv iota.
    rewrite IH. reflexivity.
Qed.


Lemma app_nil s : "" ++ s = s.
Proof. reflexivity. Qed.

Lemma app_cons c s t : String c s ++ t = String c (s ++ t).
Proof. reflexivity. Qed.

Lemma startsWith_name t n v :
  Str.mem "="%char t = false -> Str.mem "="%char n = false ->
  Str.startsWith (t ++ "=") (n ++ "=" ++ v) = String.eqb n t.
Proof.
  revert n. induction t as [|a t IH]; intros [|c n];
    rewrite ?app_cons, ?app_nil, ?app_cons, ?app_nil;
    cbn [Str.startsWith Str.mem String.eqb].
  - rewrite Ascii.eqb_refl. reflexivity.
  - intros _ [Hc _]%orb_false_iff. rewrite Hc. reflexivity.
  - intros [Ha _]%orb_false_iff _. rewrite (Ascii.eqb_sym a), Ha. reflexivity.
  - intros [_ Ht]%orb_false_iff [_ Hn]%orb_false_iff.
    rewrite (Ascii.eqb_sym a), <- (IH n Ht Hn). reflexivity.
Qed.

Lemma startsWith_without_eq t s :
  Str.mem "="%char s = false -> Str.startsWith (t ++ "=") s = false.
Proof.
  revert s. induction t as [|a t IH]; intros [|c s];
    rewrite ?app_cons, ?app_nil;
    cbn [Str.startsWith Str.mem]; try reflexivity.
  - intros [Hc _]%orb_false_iff. rewrite Hc. reflexivity.
  - intros [_ Hs]%orb_false_iff. rewrite (IH s Hs). apply andb_false_r.
Qed.

Lemma mem_trimStartBy c ws s :
  Str.mem c s = false -> Str.mem c (Str.trimStartBy ws s) = false.
Proof.
  induction s as [|d s IH]; simpl; [reflexivity|].
  intros [Hd Hs]%orb_false_iff. destruct (ws d); [auto|].
  simpl. rewrite Hd, Hs. reflexivity.
Qed.

Lemma length_trimStartBy ws s :
  (String.length (Str.trimStartBy ws s) <= String.length s)%nat.
Proof.
  induction s as [|d s IH]; simpl; [lia|]. destruct (ws d); simpl; lia.
Qed.

Lemma trimStartBy_fixed_app ws n s :
  n <> "" -> Str.trimStartBy ws n = n -> Str.trimStartBy ws (n ++ s) = n ++ s.
Proof.
  destruct n as [|c n]; [congruence|]. intros _. simpl.
  destruct (ws c); [|reflexivity].
  intros Heq. pose proof (length_trimStartBy ws n) as Hlen.
  rewrite Heq in Hlen. simpl in Hlen. lia.
Qed.

Lemma append_assoc (a b c : string) : (a ++ b) ++ c = a ++ (b ++ c).
Proof.
  induction a as [|x a IH]; [reflexivity|].
  rewrite !app_cons, IH. reflexivity.
Qed.

Lemma drop_app p s : Str.drop (String.length p) (p ++ s) = s.
Proof. induction p as [|c p IH]; simpl; [destruct s|]; auto. Qed.

(** Which piece of [document.cookie] the loop of [read] stops at. *)
Lemma find_piece t n v :
  Cookie.wfCookie (n, v) = true -> Str.mem "="%char t = false ->
  let c := Str.trimStartBy Str.isSpace (Cookie.pairString (n, v)) in
  if String.eqb n t && negb (String.eqb t "")
  then Str.startsWith (t ++ "=") c = true
       /\ Str.drop (String.length (t ++ "=")) c = v
  else Str.startsWith (t ++ "=") c = false.
Proof.
  unfold Cookie.wfCookie, Cookie.wfName, Cookie.pairString. cbn [fst snd].
  rewrite !andb_true_iff, !negb_true_iff, orb_true_iff, !negb_true_iff.
  intros [[[[Hneq Hnsemi] Htrim] Hvsemi] Hnameless] Ht.
  apply String.eqb_eq in Htrim.
  destruct (String.eqb_spec n "") as [->|Hn].
  - destruct Hnameless as [?|Hv]; [discriminate|].
    assert (String.eqb "" t && negb (String.eqb t "") = false) as ->.
    { destruct t; reflexivity. }
    apply startsWith_without_eq, mem_trimStartBy. assumption.
  - cbv zeta. rewrite trimStartBy_fixed_app by assumption.
    rewrite startsWith_name by assumption.
    destruct (String.eqb_spec n t) as [->|Hne]; [|reflexivity].
    destruct (String.eqb_spec t ""); [congruence|]. simpl. split; [reflexivity|].
    rewrite <- (append_assoc t "=" v). apply drop_app.
Qed.

Lemma find_spaced nameEQ items :
  CookieAdapter.find nameEQ (map (String " "%char) items) =
  CookieAdapter.find nameEQ items.
Proof.
  induction items as [|i items IH]; [reflexivity|].
  cbn [map CookieAdapter.find]. rewrite IH. reflexivity.
Qed.

Lemma find_items t jar :
  Cookie.wfJar jar = true -> Str.mem "="%char t = false ->
  CookieAdapter.find (t ++ "=") (map Cookie.pairString jar) = cookieNamed t jar.
Proof.
  intros Hjar Ht. induction jar as [|[n v] jar IH]; [reflexivity|].
  unfold Cookie.wfJar in *. cbn [forallb] in Hjar.
  apply andb_true_iff in Hjar as [Hc Hjar].
  cbn [map CookieAdapter.find cookieNamed].
  pose proof (find_piece t n v Hc Ht) as Hpiece. cbv zeta in Hpiece.
  destruct (String.eqb n t && negb (String.eqb t "")).
  - destruct Hpiece as [-> ->]. reflexivity.
  - rewrite Hpiece. auto.
Qed.

Lemma pairString_no_semicolon c :
  Cookie.wfCookie c = true -> Str.mem ";"%char (Cookie.pairString c) = false.
Proof.
  destruct c as [n v].
  unfold Cookie.wfCookie, Cookie.wfName, Cookie.pairString. cbn [fst snd].
  rewrite !andb_true_iff, !negb_true_iff.
  intros [[[[_ Hn] _] Hv] _].
  destruct (String.eqb n ""); [assumption|].
  rewrite !mem_app, Hn, Hv. reflexivity.
Qed.

(** What [read] finds in [document.cookie] is the cookie of that name. *)
Lemma find_document_cookie t jar :
  Cookie.wfJar jar = true -> Str.mem "="%char t = false ->
  CookieAdapter.find (t ++ "=") (Str.split ";" (Cookie.document_cookie jar)) =
  cookieNamed t jar.
Proof.
  intros Hjar Ht. unfold Cookie.document_cookie.
  rewrite split_document_cookie.
  2:{ clear Ht. unfold Cookie.wfJar in Hjar.
      induction jar as [|c jar IH]; [constructor|].
      cbn [forallb] in Hjar. apply andb_true_iff in Hjar as [Hc Hjar].
      constructor; [apply pairString_no_semicolon|]; auto. }
  rewrite <- (find_items t jar Hjar Ht).
  destruct (map Cookie.pairString jar) as [|i rest].
  - simpl. rewrite startsWith_without_eq; reflexivity.
  - cbn [CookieAdapter.find]. rewrite find_spaced. reflexivity.
Qed.

Lemma cookieNamed_store n v jar :
  n <> "" -> cookieNamed n (Cookie.store n v jar) = Some v.
Proof.
  intros Hn. apply String.eqb_neq in Hn.
  induction jar as [|[m w] jar IH]; simpl.
  - rewrite String.eqb_refl, Hn. reflexivity.
  - destruct (String.eqb m n) eqn:E; simpl.
    + rewrite String.eqb_refl, Hn. reflexivity.
    + rewrite E. simpl. assumption.
Qed.

Lemma wfJar_store n v jar :
  Cookie.wfCookie (n, v) = true -> Cookie.wfJar jar = true ->
  Cookie.wfJar (Cookie.store n v jar) = true.
Proof.
  unfold Cookie.wfJar. intros Hc.
  induction jar as [|[m w] jar IH]; simpl.
  - rewrite Hc. reflexivity.
  - intros [Hm Hjar]%andb_true_iff.
    destruct (String.eqb m n); simpl.
    + rewrite Hjar. change (Cookie.wfCookie (n, v) && true = true).
      rewrite Hc. reflexivity.
    + rewrite Hm. simpl. auto.
Qed.

Lemma wfCookie_encoded key value :
  Cookie.wfCookie (URI.encodeURIComponent key, URI.encodeURIComponent value) = true.
Proof.
  unfold Cookie.wfCookie, Cookie.wfName. cbn [fst snd].
  pose proof (encode_uriChars key) as Hk.
  pose proof (encode_uriChars value) as Hv.
  rewrite !(uriChars_no _ _ Hk), !(uriChars_no _ _ Hv) by auto.
  rewrite trimStartBy_uriChars, String.eqb_refl; auto.
  - simpl. apply orb_true_r.
  - intros c Hc. apply uriChar_plain in Hc. tauto.
Qed.

Lemma assign_encoded key value jar :
  cookieFits key value ->
  Cookie.assign (URI.encodeURIComponent key ++ "=" ++ URI.encodeURIComponent value)
    3600 jar =
  Cookie.store (URI.encodeURIComponent key) (URI.encodeURIComponent value) jar.
Proof.
  intros [Hkey Hsize]. unfold Cookie.assign.
  rewrite parsePair_encoded by apply encode_uriChars.
  destruct (String.eqb_spec (URI.encodeURIComponent key) "") as [He|_].
  { apply encode_empty in He. contradiction. }
  simpl andb. cbv iota.
  destruct (Nat.ltb_spec Cookie.maxSize
              (String.length (URI.encodeURIComponent key)
               + String.length (URI.encodeURIComponent value))); [lia|].
  reflexivity.
Qed.

(** The cookie adapter reads back what it wrote when the browser keeps the
    cookie. *)
Lemma cookie_read_write key value b :
  Cookie.wfJar (cookieJar b) = true ->
  cookieFits key value ->
  UTF8.valid value = true ->
  fst (CookieAdapter.read key (snd (CookieAdapter.write key value b))) =
  Returned (Some value).
Proof.
  intros Hjar Hfits Hvalue. unfold CookieAdapter.write, CookieAdapter.read. cbn [snd].
  cbn [cookieJar set_cookieJar].
  rewrite assign_encoded by assumption.
  destruct Hfits as [Hkey _].
  rewrite find_document_cookie.
  - rewrite cookieNamed_store.
    + rewrite decode_encode by assumption. reflexivity.
    + intros He. apply encode_empty in He. contradiction.
  - apply wfJar_store; [apply wfCookie_encoded|assumption].
  - apply uriChars_no; [apply encode_uriChars|auto].
Qed.

Lemma wfJar_remove n jar :
  Cookie.wfJar jar = true -> Cookie.wfJar (Cookie.remove n jar) = true.
Proof.
  unfold Cookie.wfJar. induction jar as [|[m w] jar IH]; simpl; [reflexivity|].
  intros [Hm Hjar]%andb_true_iff.
  destruct (String.eqb m n); simpl; [auto|].
  rewrite Hm. simpl. auto.
Qed.

(** Whatever the adapter assigns to [document.cookie] keeps the jar well
    formed. *)
Lemma wfJar_assign_encoded key value maxAge jar :
  Cookie.wfJar jar = true ->
  Cookie.wfJar
    (Cookie.assign (URI.encodeURIComponent key ++ "=" ++ URI.encodeURIComponent value)
       maxAge jar) = true.
Proof.
  intros Hjar. unfold Cookie.assign.
  rewrite parsePair_encoded by apply encode_uriChars.
  destruct (_ && _); [assumption|].
  destruct (_ <? _)%nat; [assumption|].
  destruct (maxAge <=? 0)%Z.
  - apply wfJar_remove. assumption.
  - apply wfJar_store; [apply wfCookie_encoded|assumption].
Qed.

Lemma wfJar_deleteEach ca :
  forall b, Cookie.wfJar (cookieJar b) = true ->
            Cookie.wfJar (cookieJar (snd (CookieAdapter.deleteEach ca b))) = true.
Proof.
  induction ca as [|c ca IH]; intros b Hjar; [assumption|].
  cbn [CookieAdapter.deleteEach]. rewrite await_eq.
  unfold CookieAdapter.delete at 1. apply IH. cbn [cookieJar set_cookieJar].
  apply (wfJar_assign_encoded _ ""). assumption.
Qed.

(** The jar stays well formed under the cookie adapter, starting from the
    empty jar of a fresh browser. *)
Lemma wfJar_invariant b :
  Cookie.wfJar (cookieJar b) = true ->
  (forall key value,
     Cookie.wfJar (cookieJar (snd (write CookieAdapter key value b))) = true)
  /\ (forall key, Cookie.wfJar (cookieJar (snd (delete CookieAdapter key b))) = true)
  /\ Cookie.wfJar (cookieJar (snd (clear CookieAdapter b))) = true.
Proof.
  intros Hjar. repeat split.
  - intros key value. apply wfJar_assign_encoded. assumption.
  - intros key. apply (wfJar_assign_encoded _ ""). assumption.
  - apply wfJar_deleteEach. assumption.
Qed.

End CookieProperties.

(** * Properties of the adapters *)

Lemma unquoteEnd_quoted s :
  Quoted.unquoteEnd (s ++ String Quoted.quote "") = Some s.
Proof.
  induction s as [|c s IH]; [reflexivity|].
  rewrite app_cons. cbn [Quoted.unquoteEnd]. rewrite IH.
  destruct (s ++ String Quoted.quote "") eqn:E; [|reflexivity].
  destruct s; discriminate.
Qed.

Lemma quotedCodec_lawful : JSONLawful quotedCodec.
Proof.
  intros s. split; [discriminate|].
  cbn [JSON_parse JSON_stringify quotedCodec].
  unfold Quoted.stringify, Quoted.parse.
  rewrite Ascii.eqb_refl. apply unquoteEnd_quoted.
Qed.

Ltac pouch_cases db key :=
  unfold PouchDBAdapter.write, PouchDBAdapter.read, PouchDBAdapter.delete,
    PouchDBAdapter.is404, try_catch, await, Pouch.get, Pouch.remove, Pouch.put,
    Pouch.putLocal, resolve, throw;
  let Ei := fresh "Ei" in
  let El := fresh "El" in
  let E := fresh "E" in
  let Ed := fresh "Ed" in
  let d := fresh "d" in
  destruct (Pouch.invalidIdError key) as [?|] eqn:Ei;
    [|destruct (Pouch.isLocalId key) eqn:El;
      (destruct (db !! key) as [d|] eqn:E; [destruct (doc_deleted d) eqn:Ed|])];
  cbn [exn_status Pouch.notFound Nat.eqb negb];
  rewrite ?Ei, ?El; cbn [exn_status Pouch.notFound Nat.eqb negb];
  rewrite ?E; cbn [exn_status Pouch.notFound Nat.eqb negb];
  rewrite ?Ed, ?Nat.eqb_refl; cbn [exn_status Pouch.notFound Nat.eqb negb].

Section AdapterProperties.
Context {J : JSONCodec}.
Hypothesis lawful : JSONLawful J.

Lemma setItem_Some quota key value area area' :
  Storage.setItem quota key value area = Some area' ->
  area' = <[key := value]> area.
Proof.
  unfold Storage.setItem. destruct (_ <=? _)%N; congruence.
Qed.

Lemma orNull_Some v : v <> "" -> orNull (Some v) = Some v.
Proof. intros Hv. simpl. destruct (String.eqb_spec v ""); congruence. Qed.

Lemma storeJs_get_set quota key value area area' :
  StoreJs.set quota key value area = Some area' ->
  StoreJs.get key area' = Some value.
Proof.
  unfold StoreJs.set, StoreJs.get, Storage.getItem.
  intros ->%setItem_Some. rewrite lookup_insert_eq.
  destruct (lawful value) as [Hne ->].
  destruct (String.eqb_spec (JSON_stringify value) ""); congruence.
Qed.

(** ** PouchDB *)

(** What [read] of the adapter gives: the value of the live document under
    an id that [put] accepts, and [null] in every other case. *)
Lemma pouch_read_eq texts key db :
  PouchDBAdapter.read texts key db =
  (Returned
     match Pouch.invalidIdError key, db !! key with
     | None, Some d => if doc_deleted d then None else Some (doc_value d)
     | _, _ => None
     end, db).
Proof. pouch_cases db key; reflexivity. Qed.

(** [write] returns on every id that [put] accepts, and [read] then gives
    the value. *)
Lemma pouch_read_write texts key value db db' :
  PouchDBAdapter.write texts key value db = (Returned tt, db') ->
  PouchDBAdapter.read texts key db' = (Returned (Some value), db').
Proof.
  rewrite pouch_read_eq. revert db'.
  pouch_cases db key; intros db' Hw; try discriminate Hw;
    injection Hw as <-; rewrite ?Ei, lookup_insert_eq; reflexivity.
Qed.

(** Nothing but objects comes out of the operations of the adapter. *)
Lemma pouch_objects texts key value db :
  (forall e db', PouchDBAdapter.write texts key value db = (Thrown e, db') ->
                 exists o : Exn, e = Object o)
  /\ (forall e db', PouchDBAdapter.delete texts key db = (Thrown e, db') ->
                    exists o : Exn, e = Object o).
Proof.
  split; intros e db'; pouch_cases db key; intros Hw; try discriminate Hw;
    inversion Hw; subst; eauto.
Qed.

(** ** Cache Storage *)

Lemma cache_write_eq b key value :
  write CacheStorageAdapter key value b =
  match requestURL b key with
  | Some url =>
      if Cache.http url
      then (Returned tt, set_cacheStorage (<[url := value]> (cacheStorage b)) b)
      else (Thrown (TypeError (unsupported_scheme (messages b) url)), b)
  | None => (Thrown (TypeError (invalid_url (messages b) key)), b)
  end.
Proof.
  cbn [write CacheStorageAdapter]. unfold await, Cache.newRequest, Cache.put.
  destruct (requestURL b key); reflexivity.
Qed.

Lemma cache_read_eq b key :
  read CacheStorageAdapter key b =
  match requestURL b key with
  | Some url =>
      (Returned (match cacheStorage b !! url with
                 | Some body => Some (UTF8.decode body)
                 | None => None
                 end), b)
  | None => (Thrown (TypeError (invalid_url (messages b) key)), b)
  end.
Proof.
  cbn [read CacheStorageAdapter]. unfold await, Cache.newRequest, Cache.matchText.
  destruct (requestURL b key); reflexivity.
Qed.

Lemma cache_delete_eq b key :
  delete CacheStorageAdapter key b =
  match requestURL b key with
  | Some url =>
      (Returned tt, set_cacheStorage (base.delete url (cacheStorage b)) b)
  | None => (Thrown (TypeError (invalid_url (messages b) key)), b)
  end.
Proof.
  cbn [delete CacheStorageAdapter]. unfold await, Cache.newRequest.
  destruct (requestURL b key); reflexivity.
Qed.

Lemma decode_without_bom s : Str.startsWith UTF8.bom s = false -> UTF8.decode s = s.
Proof. unfold UTF8.decode. intros ->. reflexivity. Qed.

(** ** Round trip *)

Lemma roundtrip backend b key value b' :
  (backend = StoreJS \/ backend = IndexedDB -> value <> "") ->
  write (adapter backend) key value b = (Returned tt, b') ->
  (backend = Cookies ->
   Cookie.wfJar (cookieJar b) = true /\ cookieFits key value
   /\ UTF8.valid value = true) ->
  (backend = CacheStorage \/ backend = OPFS ->
   Str.startsWith UTF8.bom value = false) ->
  fst (read (adapter backend) key b') = Returned (Some value).
Proof.
  intros Hvalue Hwrite Hfits Hbom.
  destruct backend; cbn [adapter] in *.
  - simpl in Hwrite |- *.
    destruct (Storage.setItem _ _ _ _) as [area|] eqn:E; [|discriminate].
    injection Hwrite as <-. apply setItem_Some in E as ->.
    simpl. unfold Storage.getItem. rewrite lookup_insert_eq. reflexivity.
  - simpl in Hwrite |- *.
    destruct (Storage.setItem _ _ _ _) as [area|] eqn:E; [|discriminate].
    injection Hwrite as <-. apply setItem_Some in E as ->.
    simpl. unfold Storage.getItem. rewrite lookup_insert_eq. reflexivity.
  - simpl in Hwrite |- *. injection Hwrite as <-. simpl.
    rewrite lookup_insert_eq, orNull_Some by auto. reflexivity.
  - rewrite cache_write_eq in Hwrite. rewrite cache_read_eq.
    destruct (requestURL b key) as [url|] eqn:Eu; [|discriminate].
    destruct (Cache.http url); [|discriminate].
    injection Hwrite as <-. cbn [requestURL set_cacheStorage cacheStorage fst].
    rewrite Eu. cbn [fst]. rewrite lookup_insert_eq, decode_without_bom by auto.
    reflexivity.
  - assert (b' = snd (CookieAdapter.write key value b)) as ->
      by (simpl in Hwrite; rewrite Hwrite; reflexivity).
    destruct Hfits as (Hjar & Hfits & Hvalid); [reflexivity|].
    apply cookie_read_write; auto.
  - simpl in Hwrite |- *. injection Hwrite as <-. simpl.
    rewrite lookup_insert_eq. reflexivity.
  - simpl in Hwrite |- *.
    destruct (StoreJs.set _ _ _ _) as [area|] eqn:E; [|discriminate].
    injection Hwrite as <-. simpl.
    rewrite (storeJs_get_set _ _ _ _ _ E), orNull_Some by auto.
    reflexivity.
  - cbn [write read PouchDBAdapter] in *. unfold within in *.
    destruct (PouchDBAdapter.write (messages b) key value (pouchDB b))
      as [[[]|e] db'] eqn:Ew; [|discriminate].
    injection Hwrite as <-. cbn [pouchDB set_pouchDB messages].
    rewrite (pouch_read_write _ _ _ _ _ Ew). reflexivity.
  - simpl in Hwrite |- *. injection Hwrite as <-. simpl.
    rewrite lookup_insert_eq. reflexivity.
  - cbn [write read OPFSAdapter] in *.
    unfold OPFSAdapter.write, OPFSAdapter.read, OPFSAdapter.getRoot,
      try_catch, await, within, FileSystem.writeFile, FileSystem.readFile,
      resolve in *.
    destruct (opfsAvailable b) eqn:Ea; simpl in Hwrite; [|discriminate].
    injection Hwrite as <-. simpl. rewrite Ea. simpl.
    rewrite lookup_insert_eq, decode_without_bom by auto. reflexivity.
Qed.


(** store.js and IndexedDB hand back [null] for the empty string, and the
    value itself otherwise. *)
Lemma orNull_read backend b key value b' :
  backend = StoreJS \/ backend = IndexedDB ->
  write (adapter backend) key value b = (Returned tt, b') ->
  fst (read (adapter backend) key b') = Returned (orNull (Some value)).
Proof.
  intros [-> | ->] Hwrite; simpl in Hwrite |- *.
  - destruct (StoreJs.set _ _ _ _) as [area|] eqn:E; [|discriminate].
    injection Hwrite as <-. cbn [localStorage set_localStorage].
    rewrite (storeJs_get_set _ _ _ _ _ E). reflexivity.
  - injection Hwrite as <-. cbn [indexedDB set_indexedDB].
    rewrite lookup_insert_eq. reflexivity.
Qed.

(** ** [delete] of a key *)

Lemma pouch_delete_returns texts key db :
  exists db', PouchDBAdapter.delete texts key db = (Returned tt, db').
Proof. pouch_cases db key; eauto. Qed.

(** Nine adapters delete without error, the key being there or not; for
    Cache Storage the key has to be one a request can be built from. *)
Lemma delete_returns backend b key :
  backend <> OPFS ->
  (backend = CacheStorage -> is_Some (requestURL b key)) ->
  fst (delete (adapter backend) key b) = Returned tt.
Proof.
  intros Hb Hurl. destruct backend; try reflexivity; [| |contradiction].
  - cbn [adapter]. rewrite cache_delete_eq.
    destruct (Hurl eq_refl) as [url ->]. reflexivity.
  - simpl. unfold within.
    destruct (pouch_delete_returns (messages b) key (pouchDB b)) as (db' & ->).
    reflexivity.
Qed.

(** The OPFS adapter rejects the deletion of a file that is not there. *)
Lemma OPFS_delete_absent b key :
  opfsAvailable b = true -> opfsRoot b !! key = None ->
  fst (delete (adapter OPFS) key b) = Thrown FileSystem.NotFoundError.
Proof.
  intros Ha Hk. simpl.
  unfold OPFSAdapter.delete, OPFSAdapter.getRoot, await, within,
    FileSystem.removeEntry.
  rewrite Ha. simpl. rewrite Hk. reflexivity.
Qed.

(** ** The OPFS adapter without the capability *)

(** C9, where the code departs from it.  When the capability is absent,
    [write], [delete] and [clear] of the OPFS adapter throw the error
    'OPFS not supported' and leave the browser as it was, as the claim
    says; [read] does not: it catches that error and returns [null]. *)
Theorem OPFS_without_capability b key value :
  opfsAvailable b = false ->
  exn_message OPFSAdapter.notSupported = Some "OPFS not supported"
  /\ write (adapter OPFS) key value b = (Thrown OPFSAdapter.notSupported, b)
  /\ delete (adapter OPFS) key b = (Thrown OPFSAdapter.notSupported, b)
  /\ clear (adapter OPFS) b = (Thrown OPFSAdapter.notSupported, b)
  /\ read (adapter OPFS) key b = (Returned None, b).
Proof.
  intros Ha. simpl.
  unfold OPFSAdapter.write, OPFSAdapter.delete, OPFSAdapter.clear,
    OPFSAdapter.read, OPFSAdapter.getRoot, try_catch, await, resolve.
  rewrite Ha. simpl. auto 6.
Qed.

(** ** [clear] *)

Lemma sameExcept_refl s b : sameExcept s b b.
Proof. unfold sameExcept. repeat split; auto. Qed.

Lemma sameExcept_trans s b1 b2 b3 :
  sameExcept s b1 b2 -> sameExcept s b2 b3 -> sameExcept s b1 b3.
Proof.
  unfold sameExcept.
  intros (A1 & A2 & A3 & A4 & A5 & A6 & A7 & A8 & A9 & A10 & A11 & A12 & A13)
         (B1 & B2 & B3 & B4 & B5 & B6 & B7 & B8 & B9 & B10 & B11 & B12 & B13).
  repeat split; try congruence;
    match goal with
    | Ha : ?P \/ _, Hb : ?P \/ _ |- ?P \/ _ =>
        destruct Ha as [Ha|Ha]; [left; exact Ha|];
        destruct Hb as [Hb|Hb]; [left; exact Hb|];
        right; congruence
    end.
Qed.

Ltac same_except :=
  unfold sameExcept; cbn; repeat split; auto.

Lemma deleteEach_sameExcept ca :
  forall b, sameExcept InCookieJar b (snd (CookieAdapter.deleteEach ca b)).
Proof.
  induction ca as [|c ca IH]; intros b.
  - apply sameExcept_refl.
  - cbn [CookieAdapter.deleteEach]. rewrite await_eq.
    unfold CookieAdapter.delete at 1.
    eapply sameExcept_trans; [|apply IH]. same_except.
Qed.

Lemma removeEach_sameExcept names :
  forall b, sameExcept InOPFS b (snd (OPFSAdapter.removeEach names b)).
Proof.
  induction names as [|n names IH]; intros b.
  - apply sameExcept_refl.
  - cbn [OPFSAdapter.removeEach]. rewrite await_eq. unfold within at 1.
    destruct (FileSystem.removeEntry n (opfsRoot b)) as [[[]|e] root'] eqn:E.
    + eapply sameExcept_trans; [|apply IH]. same_except.
    + same_except.
Qed.

(** [clear] changes nothing outside the backing store of its adapter. *)
Lemma clear_sameExcept backend b :
  sameExcept (backingStore backend) b (snd (clear (adapter backend) b)).
Proof.
  destruct backend; try solve [same_except].
  - apply deleteEach_sameExcept.
  - simpl. unfold OPFSAdapter.clear. rewrite await_eq.
    unfold OPFSAdapter.getRoot. destruct (opfsAvailable b); simpl.
    + apply removeEach_sameExcept.
    + apply sameExcept_refl.
Qed.










Lemma removeEach_removes names :
  forall b b',
    OPFSAdapter.removeEach names b = (Returned tt, b') ->
    forall k, k ∈ names \/ opfsRoot b !! k = None -> opfsRoot b' !! k = None.
Proof.
  induction names as [|n names IH]; intros b b'.
  - unfold OPFSAdapter.removeEach, resolve. intros [= <-] k [Hin|Hk];
      [inversion Hin|assumption].
  - cbn [OPFSAdapter.removeEach]. rewrite await_eq.
    unfold within at 1, FileSystem.removeEntry.
    destruct (opfsRoot b !! n) as [text|] eqn:E; [|discriminate].
    intros Hrest k Hk. apply (IH _ _ Hrest).
    cbn [opfsRoot set_opfsRoot].
    destruct (decide (k = n)) as [->|Hne].
    + right. apply lookup_delete_eq.
    + destruct Hk as [Hin|Hk].
      * apply elem_of_cons in Hin as [?|Hin]; [contradiction|]. left. assumption.
      * right. rewrite lookup_delete_ne by congruence. assumption.
Qed.





(** C10. For the store.js adapter and the IndexedDB adapter, [read(k)]
    after a [write(k, v)] that returned gives [null] when [v] is the empty
    string, and [v] itself when it is not: the round trip fails exactly at
    the empty string. *)
Theorem empty_string_reads_as_null backend b key value b' :
  backend = StoreJS \/ backend = IndexedDB ->
  write (adapter backend) key value b = (Returned tt, b') ->
  (value = "" -> fst (read (adapter backend) key b') = Returned None)
  /\ (value <> "" -> fst (read (adapter backend) key b') = Returned (Some value)).
Proof.
  intros Hbackend Hwrite.
  rewrite (orNull_read _ _ _ _ _ Hbackend Hwrite). split.
  - intros ->. reflexivity.
  - intros Hvalue. rewrite orNull_Some by assumption. reflexivity.
Qed.

(** The other eight adapters hand the empty string back. *)
Lemma empty_string_elsewhere backend b key b' :
  backend <> StoreJS -> backend <> IndexedDB ->
  write (adapter backend) key "" b = (Returned tt, b') ->
  (backend = Cookies -> Cookie.wfJar (cookieJar b) = true /\ cookieFits key "") ->
  fst (read (adapter backend) key b') = Returned (Some "").
Proof.
  intros H1 H2 Hwrite Hfits. eapply roundtrip; eauto.
  - intros [?|?]; contradiction.
  - intros Hb. destruct (Hfits Hb). auto.
Qed.


(** ** What the adapters throw *)

Lemma deleteEach_returns ca :
  forall b, exists b', CookieAdapter.deleteEach ca b = (Returned tt, b').
Proof.
  induction ca as [|c ca IH]; intros b.
  - exists b. reflexivity.
  - cbn [CookieAdapter.deleteEach]. rewrite await_eq.
    unfold CookieAdapter.delete at 1. apply IH.
Qed.

Lemma removeEach_objects names : rejectsWithObjects (OPFSAdapter.removeEach names).
Proof.
  induction names as [|n names IH]; intros b e b'.
  - discriminate.
  - cbn [OPFSAdapter.removeEach]. rewrite await_eq.
    unfold within at 1, FileSystem.removeEntry.
    destruct (opfsRoot b !! n) as [text|].
    + apply IH.
    + intros [= <- _]. eauto.
Qed.

(** The ten adapters reject with error objects only. *)
Lemma adapter_throwsObjects backend : throwsObjects (adapter backend).
Proof.
  unfold throwsObjects, rejectsWithObjects.
  destruct backend;
    (split; [intros b e b'|split; [intros key value b e b'|intros key b e b']]);
    cbn [adapter];
    rewrite ?cache_write_eq, ?cache_read_eq;
    cbn [write read clear LocalStorageAdapter SessionStorageAdapter
           IndexedDBAdapter CacheStorageAdapter CookieAdapter DexieAdapter
           StoreJsAdapter PouchDBAdapter LocalForageAdapter OPFSAdapter];
    try discriminate.
  all: try (destruct (Storage.setItem _ _ _ _); intros [= <- _]; eauto; fail).
  all: try (destruct (requestURL b key) as [url|]; [try destruct (Cache.http url)|];
            intros [= <- _]; eauto; fail).
  - unfold CookieAdapter.clear.
    destruct (deleteEach_returns
                (Str.split ";" (Cookie.document_cookie (cookieJar b))) b)
      as (b1 & ->). discriminate.
  - unfold CookieAdapter.read.
    destruct (CookieAdapter.find _ _) as [encoded|]; [|discriminate].
    destruct (URI.decodeURIComponent encoded); [discriminate|].
    intros [= <- _]. eauto.
  - destruct (StoreJs.set _ _ _ _); intros [= <- _]; eauto.
  - unfold within.
    destruct (PouchDBAdapter.write (messages b) key value (pouchDB b))
      as [[[]|e0] db'] eqn:Ew; intros [= <- _].
    eapply (proj1 (pouch_objects _ _ _ _)). exact Ew.
  - unfold within. rewrite pouch_read_eq. discriminate.
  - unfold OPFSAdapter.clear. rewrite await_eq. unfold OPFSAdapter.getRoot.
    destruct (opfsAvailable b); cbn [negb].
    + apply removeEach_objects.
    + intros [= <- _]. eauto.
  - unfold OPFSAdapter.write. rewrite await_eq. unfold OPFSAdapter.getRoot.
    destruct (opfsAvailable b); cbn [negb].
    + unfold within, FileSystem.writeFile. discriminate.
    + intros [= <- _]. eauto.
  - unfold OPFSAdapter.read, OPFSAdapter.getRoot, try_catch, await, within,
      FileSystem.readFile, resolve.
    destruct (opfsAvailable b); cbn [negb]; [|discriminate].
    destruct (opfsRoot b !! key); discriminate.
Qed.

End AdapterProperties.

(** * The claims at concrete inputs *)


Lemma String_repeat_length n :
  String.length (String_repeat "a" n) = N.to_nat n.
Proof.
  unfold String_repeat. induction n as [|n IH] using N.peano_ind.
  - reflexivity.
  - rewrite N.iter_succ, N2Nat.inj_succ.
    change (S (String.length (N.iter n (String.append "a") "")) = S (N.to_nat n)).
    rewrite IH. reflexivity.
Qed.

Lemma usage_singleton key value :
  Storage.usage (<[key := value]> ∅) =
  (N.of_nat (String.length key) + N.of_nat (String.length value))%N.
Proof.
  unfold Storage.usage. rewrite insert_empty, map_fold_singleton. lia.
Qed.

(** The 100 MB payload of the catalog does not fit in [localStorage]: the
    adapter's [write] throws and nothing is stored. *)
Example localStorage_rejects_100_MB :
  write LocalStorageAdapter "bench_100 MB" (String_repeat "a" (100 * MB)) freshBrowser =
  (Thrown (Storage.QuotaExceededError
             (quota_exceeded Chromium.messages "bench_100 MB")), freshBrowser).
Proof.
  cbn [write LocalStorageAdapter]. unfold Storage.setItem.
  cbn [localStorage storageQuota freshBrowser messages].
  rewrite usage_singleton, String_repeat_length, N2Nat.id.
  assert ((N.of_nat (String.length "bench_100 MB") + 100 * MB <=? 5 * MB)%N = false)
    as -> by (apply N.leb_gt; vm_compute; reflexivity).
  reflexivity.
Qed.


(** The same payload through the Cache Storage adapter. *)
Example roundtrip_cache_storage :
  fst (read (@adapter quotedCodec CacheStorage) "bench_128 B"
         (snd (write (@adapter quotedCodec CacheStorage) "bench_128 B"
                 (String_repeat "a" 128) freshBrowser))) =
  Returned (Some (String_repeat "a" 128)).
Proof. vm_compute. reflexivity. Qed.

(** A value that starts with a byte order mark comes back without it from
    the Cache Storage adapter and from the OPFS adapter. *)
Example byte_order_mark_is_dropped :
  let value := (UTF8.bom ++ String_repeat "a" 128)%string in
  fst (read (@adapter quotedCodec CacheStorage) "bench_128 B"
         (snd (write (@adapter quotedCodec CacheStorage) "bench_128 B" value
                 freshBrowser))) =
  Returned (Some (String_repeat "a" 128))
  /\ fst (read (@adapter quotedCodec OPFS) "bench_128 B"
            (snd (write (@adapter quotedCodec OPFS) "bench_128 B" value
                    freshBrowser))) =
     Returned (Some (String_repeat "a" 128)).
Proof. vm_compute. split; reflexivity. Qed.

(** A cookie without a name whose value holds a [=] is read as the cookie
    of the key in front of the [=]. *)
Example nameless_cookie_shadows_the_key :
  let b := set_cookieJar [("", "bench_128%20B=zzz")] freshBrowser in
  fst (read (@adapter quotedCodec Cookies) "bench_128 B"
         (snd (write (@adapter quotedCodec Cookies) "bench_128 B"
                 (String_repeat "a" 128) b))) =
  Returned (Some "zzz").
Proof. vm_compute. reflexivity. Qed.



(** A local document of PouchDB is still there after [clear()]. *)
Example pouch_clear_keeps_local_documents :
  let b := snd (write (@adapter quotedCodec PouchDB) "_local/bench" "kept"
                  freshBrowser) in
  fst (clear (@adapter quotedCodec PouchDB) b) = Returned tt
  /\ fst (read (@adapter quotedCodec PouchDB) "_local/bench"
            (snd (clear (@adapter quotedCodec PouchDB) b))) =
     Returned (Some "kept").
Proof. vm_compute. split; reflexivity. Qed.

(** The [clear()] of the cookie adapter encodes a cookie name that is
    already encoded: the cookie of a key with a space in it is still there
    afterwards. *)
Example cookie_clear_keeps_the_payload :
  let b := snd (write (@adapter quotedCodec Cookies) "bench_128 B"
                  (String_repeat "a" 128) freshBrowser) in
  fst (clear (@adapter quotedCodec Cookies) b) = Returned tt
  /\ fst (read (@adapter quotedCodec Cookies) "bench_128 B"
            (snd (clear (@adapter quotedCodec Cookies) b))) =
     Returned (Some (String_repeat "a" 128)).
Proof. vm_compute. split; reflexivity. Qed.

(** C8 at the failing input: in a browser with an empty private file
    system, [delete] of the OPFS adapter throws [NotFoundError] for the key
    of the first payload, where [delete] of the PouchDB adapter, which looks
    for the same condition, returns. *)
Theorem OPFS_delete_of_absent_key_throws :
  fst (delete (@adapter quotedCodec OPFS) "bench_128 B" freshBrowser) =
  Thrown FileSystem.NotFoundError
  /\ fst (delete (@adapter quotedCodec PouchDB) "bench_128 B" freshBrowser) =
     Returned tt.
Proof. split; reflexivity. Qed.

(** Without the capability, [read] of the OPFS adapter does not fail: it
    returns [null]. *)
Lemma OPFS_read_does_not_fail_fast :
  ~ (forall (J : JSONCodec) b key value,
       opfsAvailable b = false ->
       fst (write (adapter OPFS) key value b) = Thrown OPFSAdapter.notSupported
       /\ fst (read (adapter OPFS) key b) = Thrown OPFSAdapter.notSupported
       /\ fst (delete (adapter OPFS) key b) = Thrown OPFSAdapter.notSupported
       /\ fst (clear (adapter OPFS) b) = Thrown OPFSAdapter.notSupported).
Proof.
  intros Hclaim.
  destruct (Hclaim quotedCodec browserWithoutOPFS "bench_128 B"
              (String_repeat "a" 128) eq_refl) as (_ & Hread & _).
  vm_compute in Hread. discriminate Hread.
Qed.

(** In a browser without the capability: the three calls that throw, and
    the [read] that returns. *)
Lemma OPFS_without_capability_witness :
  write (@adapter quotedCodec OPFS) "bench_128 B" (String_repeat "a" 128)
    browserWithoutOPFS =
  (Thrown OPFSAdapter.notSupported, browserWithoutOPFS)
  /\ delete (@adapter quotedCodec OPFS) "bench_128 B" browserWithoutOPFS =
     (Thrown OPFSAdapter.notSupported, browserWithoutOPFS)
  /\ clear (@adapter quotedCodec OPFS) browserWithoutOPFS =
     (Thrown OPFSAdapter.notSupported, browserWithoutOPFS)
  /\ read (@adapter quotedCodec OPFS) "bench_128 B" browserWithoutOPFS =
     (Returned None, browserWithoutOPFS).
Proof.
  apply (@OPFS_without_capability quotedCodec browserWithoutOPFS "bench_128 B"
           (String_repeat "a" 128) eq_refl).
Defined.

(** The empty string through the store.js adapter. *)
Lemma empty_string_reads_as_null_witness :
  fst (read (@adapter quotedCodec StoreJS) "bench_128 B"
         (snd (write (@adapter quotedCodec StoreJS) "bench_128 B" ""
                 freshBrowser))) = Returned None.
Proof.
  refine (proj1 (empty_string_reads_as_null quotedCodec_lawful StoreJS
                   freshBrowser "bench_128 B" "" _ (or_introl eq_refl) eq_refl)
            eq_refl).
Defined.

(** * The engine on the adapters, with a clock *)

Lemma millis_nonneg us : (0 <= Timed.millis us)%Q.
Proof. unfold Timed.millis, Qle. simpl. lia. Qed.

Lemma timed_call_monotone {W A} (c : Timed.Call) (m : Promise W A) :
  monotone (Timed.call c m).
Proof.
  intros t. unfold Timed.call.
  destruct (m (Timed.store t)) as [r w]. cbn [snd performance_now Timed.runtime Timed.clock].
  rewrite Qred_correct.
  rewrite <- (Qplus_0_r (Timed.clock t)) at 1.
  apply Qplus_le_compat; [apply Qle_refl|apply millis_nonneg].
Qed.

(** The three cases of the specification: a first trial of 5 ms is followed
    by two more, one of 30 ms by one more, one of 80 ms by none. *)
Example trials_for_5_30_80_ms :
  Timed.trials (Timed.calls (snd (localStorageRun [0; 3000; 2000]%N))) = 3%nat
  /\ Timed.trials (Timed.calls (snd (localStorageRun [0; 20000; 10000]%N))) = 2%nat
  /\ Timed.trials (Timed.calls (snd (localStorageRun [0; 50000; 30000]%N))) = 1%nat.
Proof. vm_compute. repeat split. Qed.


Lemma timed_throwsObjects {W} (a : StorageAdapter W) :
  throwsObjects a -> throwsObjects (Timed.timed a).
Proof.
  intros (Hclear & Hwrite & Hread).
  unfold throwsObjects, rejectsWithObjects.
  split; [intros t e t'|split; [intros key value t e t'|intros key t e t']];
    cbn [clear write read Timed.timed]; unfold Timed.call;
    [destruct (clear a (Timed.store t)) as [r w] eqn:E
    |destruct (write a key value (Timed.store t)) as [r w] eqn:E
    |destruct (read a key (Timed.store t)) as [r w] eqn:E];
    intros [= -> _];
    [eapply Hclear|eapply (Hwrite key value)|eapply (Hread key)]; exact E.
Qed.

Lemma timedLocalStorage_throwsObjects : throwsObjects timedLocalStorage.
Proof.
  apply timed_throwsObjects. apply (@adapter_throwsObjects quotedCodec LocalStorage).
Qed.

Lemma preferenceSuite_buildable :
  @buildable (Timed.World Browser) _ preferenceSuite.
Proof. constructor; [split; discriminate|constructor]. Qed.

Lemma preferencePayload_generated (t : Timed.World Browser) :
  generatePayload (size preferencePayload) t = (Returned (String_repeat "a" 128), t).
Proof. reflexivity. Qed.

(** C1, as stated, fails: the engine builds no string of 1 GB, the
    [RangeError] of [repeat] is thrown outside the [try] block, and
    [runBenchmark] rejects with it, without any result. *)
Lemma runBenchmark_rejects_oversized_payload :
  ~ (forall (W : Type) (R : Runtime W) (adapter : StorageAdapter W) suite w,
       exists rs w',
         runBenchmark adapter suite w = (Returned rs, w')
         /\ length rs = length (payloads suite)
         /\ map payloadSize rs = map label (payloads suite)
         /\ Forall (fun r => adapterName r = name adapter
                            /\ suiteName r = suite_name suite) rs).
Proof.
  intros Hclaim.
  destruct (Hclaim _ _ timedLocalStorage oversizedSuite threeTrials)
    as (rs & w' & Hrun & _).
  vm_compute in Hrun. discriminate Hrun.
Qed.

(** What [runBenchmark] does on that suite. *)
Example oversizedSuite_run :
  runBenchmark timedLocalStorage oversizedSuite threeTrials =
  (Thrown (RangeError "Invalid string length"), threeTrials).
Proof. vm_compute. reflexivity. Qed.

(** The first suite on the localStorage adapter: one result, with the
    label of its payload. *)
Lemma runBenchmark_one_result_per_payload_witness :
  exists rs w',
    runBenchmark timedLocalStorage preferenceSuite threeTrials = (Returned rs, w')
    /\ length rs = 1%nat
    /\ map payloadSize rs = ["128 B"]
    /\ Forall (fun r => adapterName r = "localStorage"
                       /\ suiteName r = "Save a preference (128 B)") rs.
Proof.
  apply (runBenchmark_one_result_per_payload timedLocalStorage preferenceSuite
           threeTrials timedLocalStorage_throwsObjects preferenceSuite_buildable).
Defined.

Lemma threeTrials_first :
  runOnce timedLocalStorage ("bench_" ++ label preferencePayload)
    (String_repeat "a" 128) threeTrials =
  (Returned (3, 2)%Q,
   snd (runOnce timedLocalStorage ("bench_" ++ label preferencePayload)
          (String_repeat "a" 128) threeTrials)).
Proof. vm_compute. reflexivity. Qed.

Lemma threeTrials_more :
  moreTrials (targetRuns (fst (3, 2)%Q + snd (3, 2)%Q) - 1) timedLocalStorage
    ("bench_" ++ label preferencePayload)
    (String_repeat "a" 128)
    (snd (runOnce timedLocalStorage ("bench_" ++ label preferencePayload)
            (String_repeat "a" 128) threeTrials)) =
  (Returned [(6, 1)%Q; (3, 3)%Q],
   snd (moreTrials 2 timedLocalStorage ("bench_" ++ label preferencePayload)
          (String_repeat "a" 128)
          (snd (runOnce timedLocalStorage ("bench_" ++ label preferencePayload)
                  (String_repeat "a" 128) threeTrials)))).
Proof. vm_compute. reflexivity. Qed.

(** A first trial of 5 ms: three trials, and the means of their times. *)
Lemma adaptive_repetition_witness :
  exists r w',
    benchPayload timedLocalStorage preferenceSuite preferencePayload threeTrials =
    (Returned r, w')
    /\ error r = None
    /\ writeTime r = mean [3; 6; 3]%Q
    /\ readTime r = mean [2; 1; 3]%Q.
Proof.
  destruct (adaptive_repetition timedLocalStorage preferenceSuite preferencePayload
              threeTrials _ _ _ (preferencePayload_generated threeTrials)
              threeTrials_first) as [_ Hmean].
  destruct (Hmean _ _ threeTrials_more) as [_ (r & Hr & He & Hw & Hrd)].
  exists r. eexists. split; [exact Hr|]. split; [exact He|].
  split; [exact Hw|exact Hrd].
Defined.

Lemma threeTrials_run :
  runBenchmark timedLocalStorage preferenceSuite threeTrials =
  (Returned
     [{| adapterName := "localStorage";
         suiteName := "Save a preference (128 B)";
         payloadSize := "128 B";
         writeTime := mean [3; 6; 3]%Q;
         readTime := mean [2; 1; 3]%Q;
         blockingTime := (mean [3; 6; 3] + mean [2; 1; 3])%Q;
         error := None |}],
   snd (runBenchmark timedLocalStorage preferenceSuite threeTrials)).
Proof. vm_compute. reflexivity. Qed.

(** The result of that run satisfies the invariant. *)
Lemma results_satisfy_invariant_witness :
  Forall resultInvariant
    [{| adapterName := "localStorage";
        suiteName := "Save a preference (128 B)";
        payloadSize := "128 B";
        writeTime := mean [3; 6; 3]%Q;
        readTime := mean [2; 1; 3]%Q;
        blockingTime := (mean [3; 6; 3] + mean [2; 1; 3])%Q;
        error := None |}].
Proof.
  apply (results_satisfy_invariant timedLocalStorage preferenceSuite threeTrials
           _ _
           (fun k v => timed_call_monotone (Timed.CallWrite k) (write LocalStorageAdapter k v))
           (fun k => timed_call_monotone (Timed.CallRead k) (read LocalStorageAdapter k))
           threeTrials_run).
Defined.

(** The localStorage adapter blocks for the whole of its write and read. *)
Lemma blockingTime_by_backend_witness :
  let r := {| adapterName := "localStorage";
              suiteName := "Save a preference (128 B)";
              payloadSize := "128 B";
              writeTime := mean [3; 6; 3]%Q;
              readTime := mean [2; 1; 3]%Q;
              blockingTime := (mean [3; 6; 3] + mean [2; 1; 3])%Q;
              error := None |} in
  blockingTime r = (writeTime r + readTime r)%Q.
Proof.
  intros r.
  apply (proj1 (blockingTime_by_backend timedLocalStorage preferenceSuite threeTrials
                  _ _ r threeTrials_run (or_introl eq_refl) eq_refl)).
  left. reflexivity.
Defined.

(** C4, as stated, fails: when [clear] rejects with [undefined], reading
    [e.message] in the [catch] block throws a [TypeError]; no result is
    recorded for the payload and [runBenchmark] rejects. *)
Lemma rejection_with_undefined_is_not_recorded :
  ~ (forall (W : Type) (R : Runtime W) (adapter : StorageAdapter W) suite payload
            rest results w data (e : JSValue) w',
       generatePayload (size payload) w = (Returned data, w) ->
       payloadThrows adapter ("bench_" ++ label payload) data w e w' ->
       exists r,
         benchPayload adapter suite payload w = (Returned r, w')
         /\ writeTime r = 0%Q /\ readTime r = 0%Q
         /\ (exists message, error r = Some message)
         /\ benchPayloads adapter suite (payload :: rest) results w =
            benchPayloads adapter suite rest (results ++ [r])%list w').
Proof.
  intros Hclaim.
  destruct (Hclaim _ _ rejectingAdapter preferenceSuite preferencePayload [] []
              threeTrials (String_repeat "a" 128) Undefined
              (snd (clear rejectingAdapter threeTrials))
              (preferencePayload_generated threeTrials))
    as (r & Hr & _).
  - left. left. vm_compute. reflexivity.
  - vm_compute in Hr. discriminate Hr.
Qed.

(** What [runBenchmark] does with that adapter. *)
Example rejectingAdapter_run :
  fst (runBenchmark rejectingAdapter preferenceSuite threeTrials) =
  Thrown (TypeError "Cannot read properties of undefined (reading 'message')").
Proof. vm_compute. reflexivity. Qed.

Lemma withoutOPFS_generated :
  generatePayload (size preferencePayload) withoutOPFS =
  (Returned (String_repeat "a" 128), withoutOPFS).
Proof. reflexivity. Qed.

Lemma withoutOPFS_throws :
  payloadThrows timedOPFS ("bench_" ++ label preferencePayload)
    (String_repeat "a" 128) withoutOPFS
    OPFSAdapter.notSupported (snd (clear timedOPFS withoutOPFS)).
Proof. left. left. vm_compute. reflexivity. Qed.

(** Without the capability the first [clear()] of the OPFS adapter throws,
    and the payload is recorded as failed with the message of the error. *)
Lemma failing_payload_is_recorded_witness :
  benchPayload timedOPFS preferenceSuite preferencePayload withoutOPFS =
  (Returned {| adapterName := "OPFS";
               suiteName := "Save a preference (128 B)";
               payloadSize := "128 B";
               writeTime := 0; readTime := 0; blockingTime := 0;
               error := Some "OPFS not supported" |},
   snd (clear timedOPFS withoutOPFS)).
Proof.
  apply (proj1 (failing_payload_is_recorded timedOPFS preferenceSuite
                  preferencePayload [] [] withoutOPFS (String_repeat "a" 128)
                  OPFSAdapter.notSupported
                  (snd (clear timedOPFS withoutOPFS))
                  withoutOPFS_generated withoutOPFS_throws)).
Defined.

(** * Properties of the views of [App.tsx] *)

Section SortProperties.
Context {A : Type} (cmp : A -> A -> Q).

Lemma sortInsert_Permutation x l : Permutation (sortInsert cmp x l) (x :: l).
Proof.
  induction l as [|y l IH]; simpl; [reflexivity|].
  destruct (Qlt_le_dec (cmp y x) 0); [|reflexivity].
  rewrite IH. apply perm_swap.
Qed.

Lemma Array_sort_Permutation l : Permutation (Array_sort cmp l) l.
Proof.
  induction l as [|x l IH]; simpl; [reflexivity|].
  rewrite sortInsert_Permutation, IH. reflexivity.
Qed.

Hypothesis asymmetric : forall a b, (cmp a b < 0)%Q -> ~ (cmp b a < 0)%Q.

Lemma sortInsert_Sorted x l :
  Sorted (mayPrecede cmp) l -> Sorted (mayPrecede cmp) (sortInsert cmp x l).
Proof.
  induction 1 as [|y l Hl IH Hhd]; simpl.
  - repeat constructor.
  - destruct (Qlt_le_dec (cmp y x) 0) as [Hlt|Hge].
    + constructor; [assumption|].
      destruct Hhd as [|z l Hyz]; simpl.
      * constructor. apply asymmetric. assumption.
      * destruct (Qlt_le_dec (cmp z x) 0); constructor;
          [assumption|apply asymmetric; assumption].
    + constructor; [constructor; assumption|].
      constructor. unfold mayPrecede. apply Qle_not_lt. assumption.
Qed.

Lemma Array_sort_Sorted l : Sorted (mayPrecede cmp) (Array_sort cmp l).
Proof.
  induction l as [|x l IH]; simpl; [constructor|].
  apply sortInsert_Sorted. assumption.
Qed.

End SortProperties.

Lemma mayPrecede_ranked a b :
  ~ (App.byErrorThenTotal b a < 0)%Q <-> rankedBefore a b.
Proof.
  unfold App.byErrorThenTotal, rankedBefore, total.
  destruct (App.hasError a), (App.hasError b); simpl.
  - split.
    + intros Hn. split; [auto|]. intros _. lra.
    + intros [_ Hle] Hlt. specialize (Hle eq_refl). lra.
  - split.
    + intros Hn. exfalso. apply Hn. reflexivity.
    + intros [Himp _]. specialize (Himp eq_refl). discriminate.
  - split.
    + intros _. split; [auto|discriminate].
    + intros _. discriminate.
  - split.
    + intros Hn. split; [auto|]. intros _. lra.
    + intros [_ Hle] Hlt. specialize (Hle eq_refl). lra.
Qed.

Lemma rankedBefore_trans a b c :
  rankedBefore a b -> rankedBefore b c -> rankedBefore a c.
Proof.
  unfold rankedBefore.
  destruct (App.hasError a), (App.hasError b), (App.hasError c);
    intros [H1 H2] [H3 H4]; split; intros; try discriminate; auto;
    try (specialize (H1 eq_refl); discriminate);
    try (specialize (H3 eq_refl); discriminate);
    specialize (H2 eq_refl); specialize (H4 eq_refl); lra.
Qed.

Lemma byErrorThenTotal_asymmetric a b :
  (App.byErrorThenTotal a b < 0)%Q -> ~ (App.byErrorThenTotal b a < 0)%Q.
Proof.
  unfold App.byErrorThenTotal.
  destruct (App.hasError a), (App.hasError b); simpl; intros H1 H2;
    try lra; try discriminate.
Qed.

Lemma Sorted_weaken {A} (R R' : A -> A -> Prop) l :
  (forall a b, R a b -> R' a b) -> Sorted R l -> Sorted R' l.
Proof.
  intros Himp. induction 1 as [|x l Hl IH Hhd]; constructor; [assumption|].
  destruct Hhd; constructor. auto.
Qed.

(** X1.  The table of a suite holds the results of that suite and only those,
    each as often as it was recorded; every result without error stands
    above every result with one, and within each of the two groups the
    totals of write and read time do not decrease downwards. *)
Theorem getSuiteResults_ranked results suiteName' :
  Permutation (App.getSuiteResults results suiteName')
    (List.filter (fun r => String.eqb (suiteName r) suiteName') results)
  /\ StronglySorted rankedBefore (App.getSuiteResults results suiteName').
Proof.
  unfold App.getSuiteResults. split; [apply Array_sort_Permutation|].
  apply Sorted_StronglySorted.
  - intros a b c. apply rankedBefore_trans.
  - eapply Sorted_weaken;
      [|apply (Array_sort_Sorted App.byErrorThenTotal byErrorThenTotal_asymmetric)].
    intros a b. unfold mayPrecede. apply mayPrecede_ranked.
Qed.

(** ** [sortedLegendItems] *)

Lemma sortInsert_app {A} (cmp : A -> A -> Q) x l1 l2 :
  Forall (fun y => (cmp y x < 0)%Q) l1 ->
  sortInsert cmp x (l1 ++ l2) = (l1 ++ sortInsert cmp x l2)%list.
Proof.
  induction 1 as [|y l1 Hy Hl1 IH]; simpl; [reflexivity|].
  destruct (Qlt_le_dec (cmp y x) 0) as [_|Hge].
  - rewrite IH. reflexivity.
  - exfalso. eapply Qlt_not_le; eassumption.
Qed.

Lemma sortInsert_front {A} (cmp : A -> A -> Q) x l :
  (forall y, In y l -> (0 <= cmp y x)%Q) -> sortInsert cmp x l = x :: l.
Proof.
  destruct l as [|y l]; simpl; [reflexivity|]. intros Hge.
  destruct (Qlt_le_dec (cmp y x) 0) as [Hlt|_]; [|reflexivity].
  exfalso. apply (Qlt_not_le _ _ Hlt). apply Hge. left. reflexivity.
Qed.

(** X2.  The legend shows the visible adapters first and the hidden ones after
    them, each group in the order of registration. *)
Theorem sortedLegendItems_partition {W} (adapters' : list (StorageAdapter W))
    (visibleAdapters : list string) :
  App.sortedLegendItems adapters' visibleAdapters =
  (List.filter (fun a => App.includes (name a) visibleAdapters) adapters'
   ++ List.filter (fun a => negb (App.includes (name a) visibleAdapters)) adapters')%list.
Proof.
  unfold App.sortedLegendItems.
  induction adapters' as [|x l IH]; [reflexivity|].
  cbn [Array_sort List.filter]. rewrite IH.
  destruct (App.includes (name x) visibleAdapters) eqn:Ex; cbn [negb].
  - apply sortInsert_front. intros y _.
    unfold App.legendOrder. rewrite Ex.
    destruct (App.includes (name y) visibleAdapters); simpl; discriminate.
  - rewrite sortInsert_app.
    + f_equal. apply sortInsert_front.
      intros y [_ Hy]%filter_In. apply negb_true_iff in Hy.
      unfold App.legendOrder. rewrite Ex, Hy. simpl. discriminate.
    + apply Forall_forall. intros y Hy.
      apply list_elem_of_In, filter_In in Hy as [_ Hy].
      unfold App.legendOrder. rewrite Ex, Hy. reflexivity.
Qed.

(** ** [toggleAdapter] *)

Lemma includes_app n l1 l2 :
  App.includes n (l1 ++ l2)%list = App.includes n l1 || App.includes n l2.
Proof. unfold App.includes. apply existsb_app. Qed.

Lemma includes_filter n m l :
  App.includes n (List.filter (fun k => negb (String.eqb k m)) l) =
  App.includes n l && negb (String.eqb n m).
Proof.
  unfold App.includes. induction l as [|k l IH]; simpl; [reflexivity|].
  destruct (String.eqb_spec k m) as [->|Hkm]; simpl.
  - rewrite IH. destruct (String.eqb_spec n m) as [->|Hnm]; simpl.
    + rewrite !andb_false_r. reflexivity.
    + rewrite !andb_true_r. reflexivity.
  - rewrite IH. destruct (String.eqb_spec n k) as [->|Hnk]; simpl; [|reflexivity].
    destruct (String.eqb_spec k m); [contradiction|reflexivity].
Qed.

(** X3.  A toggle flips whether the adapter toggled is shown and changes this
    for no other adapter. *)
Theorem toggleAdapter_includes adapter_name prev n :
  App.includes n (App.toggleAdapter adapter_name prev) =
  if String.eqb n adapter_name then negb (App.includes adapter_name prev)
  else App.includes n prev.
Proof.
  unfold App.toggleAdapter.
  destruct (App.includes adapter_name prev) eqn:E.
  - rewrite includes_filter.
    destruct (String.eqb_spec n adapter_name) as [->|_]; simpl.
    + apply andb_false_r.
    + apply andb_true_r.
  - rewrite includes_app. simpl. rewrite orb_false_r.
    destruct (String.eqb_spec n adapter_name) as [->|_]; simpl.
    + rewrite E. reflexivity.
    + apply orb_false_r.
Qed.

Lemma filter_absent m l :
  App.includes m l = false ->
  List.filter (fun k => negb (String.eqb k m)) l = l.
Proof.
  unfold App.includes. induction l as [|k l IH]; simpl; [reflexivity|].
  intros [Hk Hl]%orb_false_iff. rewrite String.eqb_sym, Hk. simpl.
  rewrite IH by assumption. reflexivity.
Qed.

(** X4.  Two toggles of an adapter that was hidden give the list back; two
    toggles of one that was shown move it to the end of the list. *)
Theorem toggleAdapter_twice adapter_name prev :
  App.toggleAdapter adapter_name (App.toggleAdapter adapter_name prev) =
  if App.includes adapter_name prev
  then (List.filter (fun n => negb (String.eqb n adapter_name)) prev
        ++ [adapter_name])%list
  else prev.
Proof.
  unfold App.toggleAdapter at 2.
  destruct (App.includes adapter_name prev) eqn:E.
  - unfold App.toggleAdapter. rewrite includes_filter, String.eqb_refl.
    rewrite andb_false_r. reflexivity.
  - unfold App.toggleAdapter. rewrite includes_app. simpl.
    rewrite String.eqb_refl. rewrite orb_true_r.
    rewrite List.filter_app. simpl. rewrite String.eqb_refl. simpl.
    rewrite app_nil_r. apply filter_absent. assumption.
Qed.

(** ** [chartData] *)

Lemma Math_max_floor a b : (b <= App.Math_max a b)%Q.
Proof.
  unfold App.Math_max. destruct (Qlt_le_dec a b); [apply Qle_refl|assumption].
Qed.

Lemma chartCell_plottable results suite acc n :
  map_Forall (fun _ c => plottable c) (snd acc) ->
  map_Forall (fun _ c => plottable c) (snd (App.chartCell results suite acc n)).
Proof.
  destruct acc as [failed point]. unfold App.chartCell. cbn [snd]. intros Hpoint.
  destruct (decide _); [apply map_Forall_insert_2; [exact I|assumption]|].
  destruct (App.findResult results suite n) as [r|]; cbn [snd];
    apply map_Forall_insert_2; try assumption; try exact I.
  apply Math_max_floor.
Qed.

Lemma fold_chartCell_plottable results suite names :
  forall acc,
    map_Forall (fun _ c => plottable c) (snd acc) ->
    map_Forall (fun _ c => plottable c)
      (snd (fold_left (App.chartCell results suite) names acc)).
Proof.
  induction names as [|n names IH]; intros acc Hacc; [assumption|].
  simpl. apply IH. apply chartCell_plottable. assumption.
Qed.

Lemma chartPoints_plottable results names todo :
  forall failed,
    match App.chartPoints results names failed todo with
    | Some points => Forall (map_Forall (fun _ c => plottable c)) points
    | None => True
    end.
Proof.
  induction todo as [|suite todo IH]; intros failed; simpl; [constructor|].
  destruct (payloads suite) as [|payload _]; [exact I|].
  pose proof (fold_chartCell_plottable results suite names
                (failed, {[ "name" := App.CellLabel (label payload) ]})) as Hfold.
  destruct (fold_left _ names _) as [failed' point'].
  specialize (IH failed').
  destruct (App.chartPoints results names failed' todo) as [points|]; [|exact I].
  constructor; [|assumption].
  apply Hfold. cbn [snd]. apply map_Forall_singleton. exact I.
Qed.

(** X5.  Every number the chart is given is at least 0.01, so that each has a
    place on the logarithmic axis. *)
Theorem chartData_plottable suites' names results :
  match App.chartData suites' names results with
  | Some points => Forall (map_Forall (fun _ c => plottable c)) points
  | None => True
  end.
Proof. apply chartPoints_plottable. Qed.

Lemma chartCell_failed_grows results suite acc n k :
  k ∈ fst acc -> k ∈ fst (App.chartCell results suite acc n).
Proof.
  destruct acc as [failed point]. unfold App.chartCell. cbn [fst]. intros Hk.
  set (failed' := match App.findResult results suite n with
                  | Some r => if App.hasError r then {[n]} ∪ failed else failed
                  | None => failed
                  end).
  assert (k ∈ failed') as Hk'.
  { unfold failed'. destruct (App.findResult results suite n) as [r|]; [|assumption].
    destruct (App.hasError r); [set_solver|assumption]. }
  destruct (decide (n ∈ failed')); [assumption|].
  destruct (App.findResult results suite n); assumption.
Qed.

Lemma chartCell_failed_only results suite acc n k :
  k ∈ fst (App.chartCell results suite acc n) -> k ≠ n -> k ∈ fst acc.
Proof.
  destruct acc as [failed point]. unfold App.chartCell. cbn [fst].
  set (failed' := match App.findResult results suite n with
                  | Some r => if App.hasError r then {[n]} ∪ failed else failed
                  | None => failed
                  end).
  intros Hk Hne.
  assert (k ∈ failed') as Hk'.
  { destruct (decide (n ∈ failed')); [assumption|].
    destruct (App.findResult results suite n); assumption. }
  unfold failed' in Hk'. destruct (App.findResult results suite n) as [r|]; [|assumption].
  destruct (App.hasError r); [|assumption].
  apply elem_of_union in Hk' as [Hk'|Hk']; [|assumption].
  apply elem_of_singleton in Hk'. contradiction.
Qed.

Lemma chartCell_null results suite acc n :
  n ∈ fst (App.chartCell results suite acc n) ->
  snd (App.chartCell results suite acc n) !! n = Some App.CellNull.
Proof.
  destruct acc as [failed point]. unfold App.chartCell.
  set (failed' := match App.findResult results suite n with
                  | Some r => if App.hasError r then {[n]} ∪ failed else failed
                  | None => failed
                  end).
  destruct (decide (n ∈ failed')) as [Hin|Hnot]; cbn [fst snd].
  - intros _. apply lookup_insert_eq.
  - destruct (App.findResult results suite n); cbn [fst snd]; contradiction.
Qed.

Lemma chartCell_other results suite acc n k :
  k ≠ n -> snd (App.chartCell results suite acc n) !! k = snd acc !! k.
Proof.
  destruct acc as [failed point]. unfold App.chartCell. intros Hne.
  destruct (decide _); [|destruct (App.findResult results suite n)]; cbn [snd];
    apply lookup_insert_ne; congruence.
Qed.

Lemma chartCell_failed_error results suite acc n r :
  App.findResult results suite n = Some r -> App.hasError r = true ->
  n ∈ fst (App.chartCell results suite acc n).
Proof.
  destruct acc as [failed point]. unfold App.chartCell. intros -> ->.
  destruct (decide _) as [Hin|Hnot]; cbn [fst]; [assumption|].
  exfalso. apply Hnot. set_solver.
Qed.

(** While the adapters of one suite are gone through: whoever is in the
    set of failed adapters, once gone through, has the [null] cell. *)
Lemma fold_chartCell_null results suite names :
  forall acc,
    let acc' := fold_left (App.chartCell results suite) names acc in
    (forall k, k ∈ fst acc -> k ∈ fst acc')
    /\ (forall k, k ∈ names -> k ∈ fst acc' -> snd acc' !! k = Some App.CellNull)
    /\ (forall k, k ∉ names -> snd acc' !! k = snd acc !! k)
    /\ (forall k, k ∈ fst acc' -> k ∉ names -> k ∈ fst acc)
    /\ (forall k r, k ∈ names -> App.findResult results suite k = Some r ->
                    App.hasError r = true -> k ∈ fst acc').
Proof.
  induction names as [|n names IH]; intros acc; cbn [fold_left].
  - repeat split; auto.
    + intros k Hk. inversion Hk.
    + intros k r Hk. inversion Hk.
  - destruct (IH (App.chartCell results suite acc n))
      as (Hgrow & Hnull & Hother & Honly & Herror).
    cbv zeta. repeat split.
    + intros k Hk. apply Hgrow, chartCell_failed_grows. assumption.
    + intros k Hk Hfailed.
      destruct (decide (k ∈ names)) as [Hin|Hnot]; [auto|].
      apply elem_of_cons in Hk as [->|Hk]; [|contradiction].
      rewrite Hother by assumption. apply chartCell_null.
      apply Honly; assumption.
    + intros k Hk. apply not_elem_of_cons in Hk as [Hne Hk].
      rewrite Hother by assumption. apply chartCell_other. assumption.
    + intros k Hfailed Hk. apply not_elem_of_cons in Hk as [Hne Hk].
      eapply chartCell_failed_only; [|eassumption]. apply Honly; assumption.
    + intros k r Hk Hfind Herr.
      apply elem_of_cons in Hk as [->|Hk]; [|eauto].
      apply Hgrow. eapply chartCell_failed_error; eassumption.
Qed.

Lemma chartPoints_failed_null results names todo :
  forall failed points j p k,
    App.chartPoints results names failed todo = Some points ->
    points !! j = Some p -> k ∈ names -> k ∈ failed ->
    p !! k = Some App.CellNull.
Proof.
  induction todo as [|suite todo IH]; intros failed points j p k; simpl.
  - intros [= <-]. rewrite lookup_nil. discriminate.
  - destruct (payloads suite) as [|payload _]; [discriminate|].
    pose proof (fold_chartCell_null results suite names
                  (failed, {[ "name" := App.CellLabel (label payload) ]}))
      as (Hgrow & Hnull & _ & _ & _).
    destruct (fold_left _ names _) as [failed' point']. cbn [fst snd] in *.
    destruct (App.chartPoints results names failed' todo) as [rest|] eqn:Erest;
      [|discriminate].
    intros [= <-] Hj Hk Hfailed. destruct j as [|j]; cbn in Hj.
    + injection Hj as <-. auto.
    + eapply IH; eauto.
Qed.

(** X6.  Once an adapter has a result with an error for a suite, the chart has
    no point for it at that suite nor at any later one. *)
Theorem chartData_failure_sticks suites' names results points i j suite p n r :
  App.chartData suites' names results = Some points ->
  suites' !! i = Some suite ->
  (i <= j)%nat ->
  points !! j = Some p ->
  n ∈ names ->
  App.findResult results suite n = Some r ->
  App.hasError r = true ->
  p !! n = Some App.CellNull.
Proof.
  unfold App.chartData. generalize (∅ : gset string) as failed.
  revert points i j. induction suites' as [|s todo IH];
    intros points i j failed Hpoints Hi Hij Hj Hn Hfind Herr.
  - rewrite lookup_nil in Hi. discriminate.
  - simpl in Hpoints.
    destruct (payloads s) as [|payload _]; [discriminate|].
    pose proof (fold_chartCell_null results s names
                  (failed, {[ "name" := App.CellLabel (label payload) ]}))
      as (_ & Hnull & _ & _ & Herror).
    destruct (fold_left _ names _) as [failed' point']. cbn [fst snd] in *.
    destruct (App.chartPoints results names failed' todo) as [rest|] eqn:Erest;
      [|discriminate].
    injection Hpoints as <-.
    destruct i as [|i].
    + injection Hi as ->.
      assert (n ∈ failed') as Hfailed by eauto.
      destruct j as [|j]; cbn in Hj.
      * injection Hj as <-. auto.
      * eapply chartPoints_failed_null; eauto.
    + destruct j as [|j]; [lia|]. cbn in Hi, Hj.
      eapply (IH rest i j failed'); eauto. lia.
Qed.

(** * Properties of [purgeAll] and of the orchestrator *)

Section OrchestratorProperties.
Context {W : Type} `{Runtime W}.

Lemma purgeAll_eq (l : list (StorageAdapter W)) w :
  purgeAll l w = (Returned tt, clearEach l w).
Proof.
  revert w. induction l as [|a l IH]; intros w; [reflexivity|].
  cbn [purgeAll]. rewrite await_eq. unfold try_catch, clearEach. cbn [fold_left].
  destruct (clear a w) as [[[]|e] w1]; cbn [snd]; apply IH.
Qed.

(** X7.  [purgeAll] never throws, and it calls [clear] on every adapter in turn,
    whether the calls before failed or not. *)
Theorem purgeAll_clears_each (l : list (StorageAdapter W)) w :
  fst (purgeAll l w) = Returned tt
  /\ snd (purgeAll l w) = fold_left (fun w a => snd (clear a w)) l w.
Proof. rewrite purgeAll_eq. split; reflexivity. Qed.

Lemma runBenchmark_keys (a : StorageAdapter W) suite w rs w' :
  runBenchmark a suite w = (Returned rs, w') ->
  map resultKey rs = map (fun p => (suite_name suite, name a, label p)) (payloads suite).
Proof.
  intros Hrun. apply runBenchmark_returned in Hrun.
  induction Hrun as [|p r ps rs (w1 & w2 & Hr) Hall IH]; [reflexivity|].
  apply benchPayload_labels in Hr as (Ha & Hs & Hp).
  simpl. unfold resultKey at 1. rewrite Ha, Hs, Hp, IH. reflexivity.
Qed.

(** The loop over the adapters returns.  Each adapter adds its results for
    the suite, or nothing when [runBenchmark] rejected. *)
Lemma forAdapters_keys suite (todo : list (StorageAdapter W)) :
  forall allResults ui w,
  exists more ui' w',
    App.forAdapters suite todo allResults ui w =
    (Returned ((allResults ++ more)%list, ui'), w')
    /\ sublist (map resultKey more)
         (concat (map (fun a => map (fun p => (suite_name suite, name a, label p))
                                   (payloads suite)) todo))
    /\ (Forall throwsObjects todo -> buildable suite ->
        map resultKey more =
        concat (map (fun a => map (fun p => (suite_name suite, name a, label p))
                                  (payloads suite)) todo))
    /\ App.isRunning ui' = App.isRunning ui
    /\ (App.results ui = allResults -> App.results ui' = (allResults ++ more)%list).
Proof.
  induction todo as [|a todo IH]; intros allResults ui w.
  - exists [], ui, w. cbn [App.forAdapters]. unfold resolve.
    rewrite app_nil_r. repeat split; auto; constructor.
  - cbn [App.forAdapters]. rewrite await_eq. unfold try_catch. rewrite await_eq.
    destruct (runBenchmark a suite w) as [[rs|e] w1] eqn:Hrun.
    + unfold resolve at 1. cbn [fst snd].
      destruct (IH (allResults ++ rs)%list
                  (App.setResults (allResults ++ rs)%list ui) w1)
        as (more & ui' & w' & Hrest & Hsub & Hkeys & Hrunning & Hresults).
      exists (rs ++ more)%list, ui', w'. rewrite Hrest.
      rewrite <- app_assoc. repeat split.
      * cbn [map concat]. rewrite map_app.
        rewrite (runBenchmark_keys _ _ _ _ _ Hrun).
        apply sublist_app; [reflexivity|assumption].
      * intros Hobjects Hsizes. cbn [map concat]. rewrite map_app.
        rewrite (runBenchmark_keys _ _ _ _ _ Hrun), Hkeys; [reflexivity| |assumption].
        inversion Hobjects. assumption.
      * rewrite Hrunning. reflexivity.
      * intros _. rewrite Hresults by reflexivity. rewrite <- app_assoc. reflexivity.
    + unfold resolve at 1. cbn [fst snd].
      destruct (IH allResults ui w1)
        as (more & ui' & w' & Hrest & Hsub & Hkeys & Hrunning & Hresults).
      exists more, ui', w'. rewrite Hrest. repeat split; auto.
      * cbn [map concat]. apply sublist_inserts_l. assumption.
      * intros Hobjects Hsizes. exfalso.
        destruct (runBenchmark_returns a suite w) as (rs & w2 & Hreturns & _);
          [inversion Hobjects; assumption|assumption|].
        rewrite Hrun in Hreturns. discriminate Hreturns.
Qed.

Lemma forSuites_keys (adapters' : list (StorageAdapter W)) todo :
  forall allResults ui w,
  exists more ui' w',
    App.forSuites todo adapters' allResults ui w =
    (Returned ((allResults ++ more)%list, ui'), w')
    /\ sublist (map resultKey more) (plannedKeys todo adapters')
    /\ (Forall throwsObjects adapters' -> Forall buildable todo ->
        map resultKey more = plannedKeys todo adapters')
    /\ App.isRunning ui' = App.isRunning ui
    /\ (App.results ui = allResults -> App.results ui' = (allResults ++ more)%list).
Proof.
  induction todo as [|suite todo IH]; intros allResults ui w.
  - exists [], ui, w. cbn [App.forSuites]. unfold resolve.
    rewrite app_nil_r. repeat split; auto; constructor.
  - cbn [App.forSuites]. rewrite await_eq.
    destruct (forAdapters_keys suite adapters' allResults ui w)
      as (more1 & ui1 & w1 & Hfirst & Hsub1 & Hkeys1 & Hrunning1 & Hresults1).
    rewrite Hfirst. cbn [fst snd].
    destruct (IH (allResults ++ more1)%list ui1 w1)
      as (more & ui' & w' & Hrest & Hsub & Hkeys & Hrunning & Hresults).
    exists (more1 ++ more)%list, ui', w'. rewrite Hrest.
    rewrite <- app_assoc. repeat split.
    + unfold plannedKeys. cbn [map concat]. rewrite map_app.
      apply sublist_app; assumption.
    + intros Hobjects Hsizes. inversion Hsizes; subst.
      unfold plannedKeys. cbn [map concat]. rewrite map_app, Hkeys1 by assumption.
      f_equal. apply Hkeys; assumption.
    + congruence.
    + intros Hui. rewrite Hresults by auto. rewrite <- app_assoc. reflexivity.
Qed.

Lemma runAllBenchmarks_eq suites' (adapters' : list (StorageAdapter W)) ui w :
  exists ui',
    App.runAllBenchmarks suites' adapters' ui w =
    (Returned ui',
     clearEach adapters'
       (snd (App.forSuites suites' adapters' []
               (App.setResults [] (App.setIsRunning true ui)) w)))
    /\ App.isRunning ui' = false
    /\ sublist (map resultKey (App.results ui')) (plannedKeys suites' adapters')
    /\ (Forall throwsObjects adapters' -> Forall buildable suites' ->
        map resultKey (App.results ui') = plannedKeys suites' adapters').
Proof.
  unfold App.runAllBenchmarks. rewrite await_eq.
  destruct (forSuites_keys adapters' suites' []
              (App.setResults [] (App.setIsRunning true ui)) w)
    as (more & ui1 & w1 & Hloop & Hsub & Hkeys & _ & Hresults).
  rewrite Hloop. rewrite await_eq, purgeAll_eq. unfold resolve. cbn [snd].
  exists (App.setIsRunning false ui1).
  cbn [App.results App.setIsRunning]. rewrite Hresults by reflexivity.
  repeat split; assumption.
Qed.

(** X8.  A run returns, whatever the adapters do and whatever the suites
    hold, with the running flag down.  What was in the state before the
    run is gone, and the results are those of the plan -- the suites in the
    order of the catalog, within a suite the adapters in the order of
    registration, within an adapter the payloads in order -- less those of
    the pairs of a suite and an adapter on which [runBenchmark] rejected,
    which are logged and skipped.  No pair is skipped, and there is a
    result for every payload of every suite on every adapter, when the
    adapters reject with error objects only and the engine can build the
    payloads of the suites. *)
Theorem runAllBenchmarks_results suites' (adapters' : list (StorageAdapter W)) ui w :
  exists ui' w',
    App.runAllBenchmarks suites' adapters' ui w = (Returned ui', w')
    /\ App.isRunning ui' = false
    /\ sublist (map resultKey (App.results ui')) (plannedKeys suites' adapters')
    /\ (Forall throwsObjects adapters' -> Forall buildable suites' ->
        map resultKey (App.results ui') = plannedKeys suites' adapters').
Proof.
  destruct (runAllBenchmarks_eq suites' adapters' ui w) as (ui' & Hrun & Hrest).
  eauto.
Qed.

(** ** What a run keeps *)

Section Invariant.
Variable P : W -> Prop.
Hypothesis timer_keeps : forall ms w, P w -> P (set_timeout ms w).



Lemma failed_world (a : StorageAdapter W) suite payload e w :
  snd (failed a suite payload e w) = w.
Proof. destruct e; reflexivity. Qed.





End Invariant.

End OrchestratorProperties.

(** * More properties of the adapters *)

Section MoreAdapterProperties.
Context {J : JSONCodec}.

(** ** The cookie adapter *)

Lemma CookieAdapter_read_eq key b :
  Cookie.wfJar (cookieJar b) = true ->
  CookieAdapter.read key b =
  (match cookieNamed (URI.encodeURIComponent key) (cookieJar b) with
   | Some encoded =>
       match URI.decodeURIComponent encoded with
       | Some value => Returned (Some value)
       | None => Thrown CookieAdapter.URIError
       end
   | None => Returned None
   end, b).
Proof.
  intros Hjar. cbn [read CookieAdapter]. unfold CookieAdapter.read.
  rewrite find_document_cookie;
    [|assumption|apply uriChars_no; [apply encode_uriChars|auto]].
  destruct (cookieNamed _ _) as [encoded|]; [|reflexivity].
  destruct (URI.decodeURIComponent encoded); reflexivity.
Qed.

(** X11.  [read] of the cookie adapter changes nothing and gives the decoded
    value of the first cookie that bears the encoded key as its name,
    [null] when there is none, and throws [URIError] when that value is no
    encoding. *)
Theorem cookie_read_by_name key b :
  Cookie.wfJar (cookieJar b) = true ->
  snd (read (adapter Cookies) key b) = b
  /\ fst (read (adapter Cookies) key b) =
     match cookieNamed (URI.encodeURIComponent key) (cookieJar b) with
     | Some encoded =>
         match URI.decodeURIComponent encoded with
         | Some value => Returned (Some value)
         | None => Thrown CookieAdapter.URIError
         end
     | None => Returned None
     end.
Proof.
  intros Hjar. cbn [adapter read CookieAdapter].
  rewrite CookieAdapter_read_eq by assumption. split; reflexivity.
Qed.

Lemma cookieNamed_store_other n m v jar :
  n <> m -> cookieNamed n (Cookie.store m v jar) = cookieNamed n jar.
Proof.
  intros Hne. induction jar as [|[k w] jar IH]; simpl.
  - destruct (String.eqb_spec m n); [congruence|reflexivity].
  - destruct (String.eqb_spec k m) as [->|Hkm]; simpl.
    + destruct (String.eqb_spec m n); [congruence|reflexivity].
    + rewrite IH. reflexivity.
Qed.


Lemma cookieNamed_remove_other n m jar :
  n <> m -> cookieNamed n (Cookie.remove m jar) = cookieNamed n jar.
Proof.
  intros Hne. induction jar as [|[k w] jar IH]; simpl; [reflexivity|].
  destruct (String.eqb_spec k m) as [->|Hkm]; simpl.
  - rewrite IH. destruct (String.eqb_spec m n); [congruence|reflexivity].
  - rewrite IH. reflexivity.
Qed.


(** What an assignment of the adapter does to the cookie of another key:
    nothing. *)
Lemma cookieNamed_assign_other key value maxAge other jar :
  other <> key ->
  cookieNamed (URI.encodeURIComponent other)
    (Cookie.assign (URI.encodeURIComponent key ++ "=" ++ URI.encodeURIComponent value)
       maxAge jar) =
  cookieNamed (URI.encodeURIComponent other) jar.
Proof.
  intros Hne. unfold Cookie.assign.
  rewrite parsePair_encoded by apply encode_uriChars.
  assert (URI.encodeURIComponent other <> URI.encodeURIComponent key) as Hnames.
  { intros Heq. apply encode_injective in Heq. contradiction. }
  destruct (_ && _); [reflexivity|].
  destruct (_ <? _)%nat; [reflexivity|].
  destruct (maxAge <=? 0)%Z.
  - apply cookieNamed_remove_other. assumption.
  - apply cookieNamed_store_other. assumption.
Qed.

(** ** [write] and the other keys *)


Lemma pouch_read_lookup texts key db db' :
  db' !! key = db !! key ->
  fst (PouchDBAdapter.read texts key db') = fst (PouchDBAdapter.read texts key db).
Proof. intros Heq. rewrite !pouch_read_eq, Heq. reflexivity. Qed.


(** ** [delete] *)


Lemma pouch_delete_other texts key other db :
  other <> key -> snd (PouchDBAdapter.delete texts key db) !! other = db !! other.
Proof.
  intros Hne. pouch_cases db key; cbn [snd]; try reflexivity;
    first [apply lookup_insert_ne|apply lookup_delete_ne]; congruence.
Qed.


(** X15.  A [delete], whether it returns or throws, leaves what [read] gives for
    every other key, for the nine adapters whose keys are names. *)
Theorem delete_keeps_other_keys backend b key other :
  backend <> CacheStorage ->
  Cookie.wfJar (cookieJar b) = true ->
  other <> key ->
  fst (read (adapter backend) other (snd (delete (adapter backend) key b))) =
  fst (read (adapter backend) other b).
Proof.
  intros Hbackend Hjar Hne. destruct backend; try contradiction;
    try (simpl; unfold Storage.getItem, Storage.removeItem, StoreJs.get,
           StoreJs.remove, Storage.getItem, Storage.removeItem;
         rewrite lookup_delete_ne by congruence; reflexivity).
  - cbn [adapter]. cbn [read CookieAdapter]; rewrite !CookieAdapter_read_eq; [|assumption|].
    + cbn [fst snd delete CookieAdapter]. unfold CookieAdapter.delete.
      cbn [snd cookieJar set_cookieJar].
      change (URI.encodeURIComponent key ++ "=")
        with (URI.encodeURIComponent key ++ "=" ++ URI.encodeURIComponent "").
      rewrite cookieNamed_assign_other by assumption. reflexivity.
    + apply (wfJar_invariant b Hjar).
  - cbn [adapter delete read PouchDBAdapter]. unfold within.
    pose proof (pouch_delete_other (messages b) key other (pouchDB b) Hne) as Hother.
    destruct (PouchDBAdapter.delete (messages b) key (pouchDB b)) as [r db'].
    cbn [snd] in *. cbn [pouchDB set_pouchDB messages].
    rewrite !pouch_read_eq, Hother. reflexivity.
  - simpl. unfold OPFSAdapter.delete, OPFSAdapter.read, OPFSAdapter.getRoot,
      try_catch, await, within, FileSystem.removeEntry, FileSystem.readFile, resolve.
    destruct (opfsAvailable b) eqn:Ea; simpl; rewrite ?Ea; simpl; [|reflexivity].
    destruct (opfsRoot b !! key) eqn:Ek; simpl; rewrite ?Ea; simpl.
    + rewrite lookup_delete_ne by congruence.
      destruct (opfsRoot b !! other); reflexivity.
    + destruct (opfsRoot b !! other); reflexivity.
Qed.

(** ** [clear] *)

Lemma removeEach_returns names :
  forall b,
    NoDup names ->
    (forall n, n ∈ names -> is_Some (opfsRoot b !! n)) ->
    exists b', OPFSAdapter.removeEach names b = (Returned tt, b').
Proof.
  induction names as [|n names IH]; intros b Hnodup Hpresent.
  - exists b. reflexivity.
  - cbn [OPFSAdapter.removeEach]. rewrite await_eq.
    unfold within at 1, FileSystem.removeEntry.
    destruct (Hpresent n) as [text Hn]; [left|]. rewrite Hn.
    apply NoDup_cons in Hnodup as [Hnotin Hnodup].
    apply IH; [assumption|].
    intros m Hm. cbn [opfsRoot set_opfsRoot].
    rewrite lookup_delete_ne by (intros ->; contradiction).
    apply Hpresent. right. assumption.
Qed.

Lemma removeEach_keys_returns b :
  exists b',
    OPFSAdapter.removeEach (FileSystem.keys (opfsRoot b)) b = (Returned tt, b').
Proof.
  apply removeEach_returns.
  - apply NoDup_fst_map_to_list.
  - intros n Hn. unfold FileSystem.keys in Hn.
    apply list_elem_of_fmap in Hn as ([k text] & -> & Hin).
    apply elem_of_map_to_list in Hin. eauto.
Qed.

(** X16.  In a browser that has the private file system, [clear] of the OPFS
    adapter returns and leaves it without any entry, whoever wrote it. *)
Theorem OPFS_clear_empties b :
  opfsAvailable b = true ->
  exists b', clear (adapter OPFS) b = (Returned tt, b') /\ opfsRoot b' = ∅.
Proof.
  intros Ha. cbn [clear adapter OPFSAdapter]. unfold OPFSAdapter.clear.
  rewrite await_eq. unfold OPFSAdapter.getRoot. rewrite Ha. cbn [negb].
  destruct (removeEach_keys_returns b) as (b' & Hrm).
  - exists b'. split; [exact Hrm|].
    apply map_empty. intros k. apply (removeEach_removes _ _ _ Hrm).
    destruct (opfsRoot b !! k) as [text|] eqn:E; [left|right; reflexivity].
    unfold FileSystem.keys. apply list_elem_of_fmap. exists (k, text).
    split; [reflexivity|]. apply elem_of_map_to_list. assumption.
Qed.



Lemma clear_requestURL a b :
  requestURL (snd (clear (adapter a) b)) = requestURL b.
Proof.
  pose proof (clear_sameExcept a b) as Hsame. unfold sameExcept in Hsame.
  decompose [and] Hsame. assumption.
Qed.

Lemma clearEach_requestURL l :
  forall b, requestURL (clearEach (map adapter l) b) = requestURL b.
Proof.
  unfold clearEach. induction l as [|a l IH]; intros b; [reflexivity|].
  cbn [map fold_left]. rewrite IH. apply clear_requestURL.
Qed.











End MoreAdapterProperties.

(** * Calls made by the engine *)

Section EngineCalls.
Context {W : Type}.
Implicit Types (a : StorageAdapter W) (t : Timed.World W).

Lemma call_calls {A} c (m : Promise W A) t :
  Timed.calls (snd (Timed.call c m t)) = (Timed.calls t ++ [c])%list.
Proof. unfold Timed.call. destruct (m (Timed.store t)). reflexivity. Qed.

Lemma runOnce_prefix a key data t :
  exists log,
    Timed.calls (snd (runOnce (Timed.timed a) key data t)) = (Timed.calls t ++ log)%list
    /\ match fst (runOnce (Timed.timed a) key data t) with
       | Returned _ => log = trialCalls key
       | Thrown _ =>
           log = [Timed.CallClear]
           \/ log = [Timed.CallClear; Timed.CallWrite key]
           \/ log = trialCalls key
       end.
Proof.
  unfold runOnce, await, now, resolve. cbn [clear write read Timed.timed].
  pose proof (call_calls Timed.CallClear (clear a) t) as Hc.
  destruct (Timed.call Timed.CallClear (clear a) t) as [[[]|e] t1]; cbn [snd fst] in *.
  - pose proof (call_calls (Timed.CallWrite key) (write a key data) t1) as Hw.
    destruct (Timed.call (Timed.CallWrite key) (write a key data) t1)
      as [[[]|e] t2]; cbn [snd fst] in *.
    + pose proof (call_calls (Timed.CallRead key) (read a key) t2) as Hr.
      destruct (Timed.call (Timed.CallRead key) (read a key) t2)
        as [[v|e] t3]; cbn [snd fst] in *;
        exists (trialCalls key); rewrite Hr, Hw, Hc, <- !app_assoc; auto.
    + exists [Timed.CallClear; Timed.CallWrite key].
      rewrite Hw, Hc, <- !app_assoc; auto.
  - exists [Timed.CallClear]. auto.
Qed.

(** X9.  One trial calls [clear], then [write], then [read] on the key, and
    stops at the first call that throws: it has made all three calls when
    it returns, and at least the first when it throws. *)
Theorem runOnce_calls a key data t :
  exists n,
    Timed.calls (snd (runOnce (Timed.timed a) key data t))
    = (Timed.calls t ++ firstn n (trialCalls key))%list
    /\ (1 <= n <= 3)%nat
    /\ (forall r, fst (runOnce (Timed.timed a) key data t) = Returned r -> n = 3%nat).
Proof.
  destruct (runOnce_prefix a key data t) as (log & Hlog & Hshape).
  destruct (fst (runOnce (Timed.timed a) key data t)) as [r|e].
  - exists 3%nat. subst log. repeat split; auto; lia.
  - destruct Hshape as [-> | [-> | ->]];
      [exists 1%nat|exists 2%nat|exists 3%nat];
      repeat split; try assumption; try lia; discriminate.
Qed.

Lemma runOnce_log a key data t :
  exists log,
    Timed.calls (snd (runOnce (Timed.timed a) key data t)) = (Timed.calls t ++ log)%list
    /\ Timed.trials log = 1%nat
    /\ Forall (usesOnly [key]) log.
Proof.
  destruct (runOnce_prefix a key data t) as (log & Hlog & Hshape).
  exists log. split; [assumption|].
  assert (log = [Timed.CallClear]
          \/ log = [Timed.CallClear; Timed.CallWrite key]
          \/ log = trialCalls key) as [-> | [-> | ->]].
  { destruct (fst _); auto. }
  all: split; [reflexivity|]; repeat constructor.
Qed.

Lemma trials_app l1 l2 :
  Timed.trials (l1 ++ l2) = (Timed.trials l1 + Timed.trials l2)%nat.
Proof.
  induction l1 as [|[] l1 IH]; cbn [app Timed.trials]; rewrite ?IH; reflexivity.
Qed.

Lemma moreTrials_log a key data :
  forall n t,
  exists log,
    Timed.calls (snd (moreTrials n (Timed.timed a) key data t)) = (Timed.calls t ++ log)%list
    /\ (Timed.trials log <= n)%nat
    /\ Forall (usesOnly [key]) log.
Proof.
  induction n as [|n IH]; intros t.
  - exists []. cbn. rewrite app_nil_r. repeat split; [lia|constructor].
  - cbn [moreTrials]. rewrite await_eq. unfold wait at 1. rewrite await_eq.
    destruct (runOnce_log a key data (set_timeout 50 t)) as (log1 & H1 & Hn1 & Hk1).
    destruct (runOnce (Timed.timed a) key data (set_timeout 50 t)) as [[nx|e] t1];
      cbn [snd] in H1.
    + rewrite await_eq. destruct (IH t1) as (log2 & H2 & Hn2 & Hk2).
      destruct (moreTrials n (Timed.timed a) key data t1) as [[ts|e] t2];
        unfold resolve; cbn [snd] in H2 |- *; exists (log1 ++ log2)%list;
        rewrite H2, H1; cbn [set_timeout Timed.runtime Timed.calls];
        rewrite trials_app, app_assoc; repeat split; try lia;
        apply Forall_app; auto.
    + exists log1. cbn [snd]. rewrite H1. repeat split; [lia|assumption].
Qed.

Lemma targetRuns_at_most_3 totalTime : (targetRuns totalTime <= 3)%nat.
Proof.
  unfold targetRuns.
  destruct (Qlt_le_dec totalTime 10); [lia|].
  destruct (Qlt_le_dec totalTime 50); lia.
Qed.

(** The calls for one payload: none when the payload cannot be built, and
    otherwise those of one to three trials. *)
Lemma benchPayload_log a suite payload t :
  exists log,
    Timed.calls (snd (benchPayload (Timed.timed a) suite payload t))
    = (Timed.calls t ++ log)%list
    /\ (Timed.trials log <= 3)%nat
    /\ Forall (usesOnly ["bench_" ++ label payload]) log
    /\ ((log = [] /\ exists e t',
                      benchPayload (Timed.timed a) suite payload t = (Thrown e, t'))
        \/ (1 <= Timed.trials log)%nat).
Proof.
  rewrite benchPayload_eq, generatePayload_eq.
  destruct ((0 <=? size payload) && (size payload <=? max_string_length))%Z.
  2:{ exists []. cbn [snd]. rewrite app_nil_r. repeat split; [cbn; lia|constructor|].
      left. eauto. }
  rewrite measure_trials.
  destruct (runOnce_log a ("bench_" ++ label payload)
              (String_repeat "a" (Z.to_N (size payload))) t)
    as (log1 & H1 & Hn1 & Hk1).
  destruct (runOnce _ _ _ t) as [[first|e] t1]; cbn [snd] in H1.
  - destruct (moreTrials_log a ("bench_" ++ label payload)
                (String_repeat "a" (Z.to_N (size payload)))
                (targetRuns (fst first + snd first) - 1) t1)
      as (log2 & H2 & Hn2 & Hk2).
    pose proof (targetRuns_at_most_3 (fst first + snd first)).
    destruct (moreTrials _ _ _ _ t1) as [[ts|e] t2]; cbn [snd] in H2 |- *;
      rewrite ?failed_world;
      exists (log1 ++ log2)%list; rewrite H2, H1, trials_app, app_assoc;
      repeat split; try lia; try (apply Forall_app; auto); right; lia.
  - exists log1. rewrite failed_world. rewrite H1.
    repeat split; try lia; assumption.
Qed.

(** The calls of a run on a suite, payload by payload.  The run goes
    through the payloads in order and stops short of the last one only
    where it rejects. *)
Lemma benchPayloads_log a suite :
  forall todo results t,
  exists done logs,
    done `prefix_of` todo
    /\ Timed.calls (snd (benchPayloads (Timed.timed a) suite todo results t))
       = (Timed.calls t ++ concat logs)%list
    /\ Forall2 (fun p log =>
                  (1 <= Timed.trials log <= 3)%nat
                  /\ Forall (usesOnly ["bench_" ++ label p]) log) done logs
    /\ (forall rs t',
          benchPayloads (Timed.timed a) suite todo results t = (Returned rs, t') ->
          done = todo).
Proof.
  induction todo as [|p todo IH]; intros results t.
  - exists [], []. cbn. rewrite app_nil_r.
    split; [apply prefix_nil|]. split; [reflexivity|]. split; [constructor|].
    reflexivity.
  - cbn [benchPayloads]. rewrite await_eq.
    destruct (benchPayload_log a suite p t) as (log1 & H1 & Hn1 & Hk1 & Hcase).
    destruct (benchPayload (Timed.timed a) suite p t) as [[r|e] t1] eqn:Hr;
      cbn [snd] in H1.
    + destruct Hcase as [(_ & e & t' & Habsurd)|Hone]; [discriminate Habsurd|].
      destruct (IH (results ++ [r])%list t1) as (done & logs & Hpre & H2 & Hall & Hret).
      exists (p :: done), (log1 :: logs). repeat split.
      * apply prefix_cons. assumption.
      * rewrite H2, H1. cbn [concat]. rewrite app_assoc. reflexivity.
      * constructor; [split; [lia|assumption]|assumption].
      * intros rs t' Hrun. f_equal. eapply Hret. exact Hrun.
    + destruct Hcase as [(-> & _)|Hone].
      * exists [], []. cbn [snd concat]. rewrite H1. repeat split.
        -- apply prefix_nil.
        -- constructor.
        -- discriminate.
      * exists [p], [log1]. cbn [snd concat]. rewrite H1, app_nil_r. repeat split.
        -- apply prefix_cons, prefix_nil.
        -- constructor; [split; [lia|assumption]|constructor].
        -- discriminate.
Qed.

(** X10.  On a suite, the engine goes through the payloads in order and
    makes between one and three trials for each payload it comes to, on
    the key ["bench_" + label] of that payload and no other; it calls
    nothing but [clear], [write] and [read], never [delete].  It comes to
    every payload of the suite when [runBenchmark] returns. *)
Theorem runBenchmark_calls a suite t :
  exists done logs,
    done `prefix_of` payloads suite
    /\ Timed.calls (snd (runBenchmark (Timed.timed a) suite t))
       = (Timed.calls t ++ concat logs)%list
    /\ Forall2 (fun p log =>
                  (1 <= Timed.trials log <= 3)%nat
                  /\ Forall (usesOnly ["bench_" ++ label p]) log) done logs
    /\ (forall rs t',
          runBenchmark (Timed.timed a) suite t = (Returned rs, t') ->
          done = payloads suite).
Proof. apply benchPayloads_log. Qed.

End EngineCalls.

(** * [clear] of the cookie adapter *)

Section CookieClear.

Lemma uriChar_not_whitespace c : uriChar c = true -> Str.isWhiteSpace c = false.
Proof.
  destruct c as [[] [] [] [] [] [] [] []]; vm_compute; intuition discriminate.
Qed.

Lemma trim_uriChars s : allChars uriChar s = true -> Str.trim s = s.
Proof.
  intros Hs. unfold Str.trim, Str.trimBy.
  rewrite trimStartBy_uriChars, trimEndBy_uriChars;
    auto using uriChar_not_whitespace.
Qed.

Lemma remove_filter n jar :
  Cookie.remove n jar = List.filter (fun c => negb (String.eqb (fst c) n)) jar.
Proof.
  induction jar as [|[m v] jar IH]; simpl; [reflexivity|].
  destruct (String.eqb m n); simpl; rewrite IH; reflexivity.
Qed.

(** The name [clear] reads off a piece of [document.cookie]. *)
Lemma clear_key c piece :
  encodedCookie c = true ->
  piece = Cookie.pairString c \/ piece = String " "%char (Cookie.pairString c) ->
  Str.trim (hd EmptyString (Str.split "=" piece)) = fst c.
Proof.
  destruct c as [n v]. unfold encodedCookie, Cookie.pairString. cbn [fst snd].
  intros [[Hne Hn]%andb_true_iff Hv]%andb_true_iff Hpiece.
  apply negb_true_iff in Hne. rewrite Hne in Hpiece.
  change ("=" ++ v) with (String "="%char v) in Hpiece.
  destruct Hpiece as [-> | ->].
  - rewrite split_first by (apply uriChars_no; auto).
    cbn [hd]. apply trim_uriChars. assumption.
  - change (String " "%char (n ++ String "="%char v))
      with (String " "%char n ++ String "="%char v).
    rewrite split_first.
    2:{ cbn [Str.mem]. rewrite (uriChars_no _ n) by auto. reflexivity. }
    cbn [hd]. unfold Str.trim, Str.trimBy. cbn [Str.trimStartBy].
    change (Str.isWhiteSpace " ") with true. cbv iota.
    apply trim_uriChars. assumption.
Qed.

(** [delete] of a name made of the characters of an encoding: the browser
    is asked to expire the cookie called by the encoding of that name. *)
Lemma delete_encoded_name n b :
  n <> "" ->
  CookieAdapter.delete n b =
  (Returned tt,
   set_cookieJar
     (if (String.length (URI.encodeURIComponent n) <=? Cookie.maxSize)%nat
      then Cookie.remove (URI.encodeURIComponent n) (cookieJar b)
      else cookieJar b) b).
Proof.
  intros Hn. unfold CookieAdapter.delete. do 2 f_equal.
  unfold Cookie.assign.
  change (URI.encodeURIComponent n ++ "=")
    with (URI.encodeURIComponent n ++ "=" ++ "").
  rewrite parsePair_encoded by (apply encode_uriChars || reflexivity).
  destruct (String.eqb_spec (URI.encodeURIComponent n) "") as [He|_].
  { apply encode_empty in He. contradiction. }
  cbn [andb String.length]. rewrite Nat.add_0_r.
  destruct (Nat.ltb_spec Cookie.maxSize (String.length (URI.encodeURIComponent n)));
    destruct (Nat.leb_spec (String.length (URI.encodeURIComponent n)) Cookie.maxSize);
    try lia; reflexivity.
Qed.

Lemma deleteEach_encoded :
  forall cs pieces b,
    Forall2 (fun c piece =>
               encodedCookie c = true
               /\ (piece = Cookie.pairString c
                   \/ piece = String " "%char (Cookie.pairString c))) cs pieces ->
    CookieAdapter.deleteEach pieces b =
    (Returned tt, set_cookieJar (expireEach cs (cookieJar b)) b).
Proof.
  induction cs as [|c cs IH]; intros pieces b Hall.
  - inversion Hall; subst. destruct b; reflexivity.
  - inversion Hall as [|? piece ? rest [Hc Hpiece] Hrest]; subst.
    cbn [CookieAdapter.deleteEach]. rewrite await_eq.
    rewrite (clear_key c piece Hc Hpiece).
    rewrite delete_encoded_name.
    2:{ unfold encodedCookie in Hc.
        apply andb_true_iff in Hc as [[Hne _]%andb_true_iff _].
        apply negb_true_iff, String.eqb_neq in Hne. assumption. }
    rewrite (IH rest _ Hrest). reflexivity.
Qed.

Lemma expireEach_filter cs :
  forall jar,
    expireEach cs jar =
    List.filter (fun c => negb (expiredByClear cs (fst c))) jar.
Proof.
  induction cs as [|d cs IH]; intros jar.
  - simpl. induction jar as [|c jar IHjar]; simpl; congruence.
  - unfold expireEach. cbn [fold_left]. fold (expireEach cs). rewrite IH.
    unfold expiredByClear. cbn [existsb]. unfold expires at 2.
    destruct (String.length (URI.encodeURIComponent (fst d)) <=? Cookie.maxSize)%nat.
    + rewrite remove_filter.
      induction jar as [|c jar IHjar]; simpl; [reflexivity|].
      rewrite andb_true_r, (String.eqb_sym (fst c)).
      destruct (String.eqb (URI.encodeURIComponent (fst d)) (fst c)); simpl;
        rewrite IHjar; reflexivity.
    + induction jar as [|c jar IHjar]; simpl; [reflexivity|].
      rewrite andb_false_r. simpl. rewrite IHjar. reflexivity.
Qed.

Lemma CookieAdapter_clear_eq b :
  encodedJar (cookieJar b) = true ->
  CookieAdapter.clear b =
  (Returned tt,
   set_cookieJar
     (List.filter (fun c => negb (expiredByClear (cookieJar b) (fst c))) (cookieJar b))
     b).
Proof.
  intros Hjar. unfold CookieAdapter.clear.
  rewrite <- expireEach_filter.
  destruct (cookieJar b) as [|c jar] eqn:Ejar.
  - destruct b; simpl in *; subst. reflexivity.
  - unfold Cookie.document_cookie. rewrite split_document_cookie.
    2:{ clear Ejar. revert Hjar. generalize (c :: jar). intros l Hl.
        induction l as [|[n v] l IH]; [constructor|].
        cbn [encodedJar forallb] in Hl. apply andb_true_iff in Hl as [Hc Hl].
        constructor; [|apply IH; assumption].
        unfold encodedCookie in Hc. cbn [fst snd] in Hc.
        apply andb_true_iff in Hc as [[Hne Hn]%andb_true_iff Hv].
        apply negb_true_iff in Hne. unfold Cookie.pairString. cbn [fst snd].
        rewrite Hne, !mem_app, (uriChars_no _ n), (uriChars_no _ v) by auto.
        reflexivity. }
    cbn [map]. rewrite <- Ejar at 1.
    rewrite (deleteEach_encoded (c :: jar)); [rewrite Ejar; reflexivity|].
    cbn [encodedJar forallb] in Hjar. apply andb_true_iff in Hjar as [Hc Hjar].
    constructor; [auto|].
    clear Ejar Hc. induction jar as [|d jar IH]; [constructor|].
    cbn [forallb] in Hjar. apply andb_true_iff in Hjar as [Hd Hjar].
    constructor; auto.
Qed.

Context {J : JSONCodec}.

(** X19.  In a jar of cookies written by the adapter, [clear] returns and expires
    exactly the cookies whose name is the encoding of the name of a cookie
    of the jar: the name it reads from [document.cookie] is encoded already
    and [delete] encodes it once more. *)
Theorem cookie_clear_expires b :
  encodedJar (cookieJar b) = true ->
  clear (adapter Cookies) b =
  (Returned tt,
   set_cookieJar
     (List.filter (fun c => negb (expiredByClear (cookieJar b) (fst c))) (cookieJar b))
     b).
Proof. apply CookieAdapter_clear_eq. Qed.








End CookieClear.

(** * PouchDB revisions *)

Section PouchProperties.

(** X21.  [write] of the PouchDB adapter, by the id.  With the empty key it
    rejects with the error 412 of [put], [_id is required for puts], and
    with a key that starts with an underscore, other than those of the
    design documents and of the local documents, with its error 400; the
    database is as it was.  With any other key that is not that of a local
    document it never ends in a conflict or a not-found error: it leaves a
    live document with the value, under the revision after that of the
    document or of the tombstone that was there, or under the first
    revision. *)
Theorem pouch_write_revision key value b :
  match Pouch.invalidIdError key with
  | Some e =>
      (e = Pouch.missingId \/ e = Pouch.reservedId)
      /\ (key = "" <-> e = Pouch.missingId)
      /\ write PouchDBAdapter key value b = (Thrown e, b)
  | None =>
      Pouch.isLocalId key = false ->
      write PouchDBAdapter key value b =
      (Returned tt,
       set_pouchDB
         (<[key := {| doc_rev := match pouchDB b !! key with
                                 | Some d => S (doc_rev d)
                                 | None => 1
                                 end;
                      doc_deleted := false;
                      doc_value := value |}]> (pouchDB b)) b)
  end.
Proof.
  cbn [write PouchDBAdapter]. unfold within.
  destruct (Pouch.invalidIdError key) as [e|] eqn:Ei.
  - assert (PouchDBAdapter.write (messages b) key value (pouchDB b)
            = (Thrown e, pouchDB b)) as ->.
    { pouch_cases (pouchDB b) key; congruence. }
    unfold Pouch.invalidIdError in Ei.
    destruct (String.eqb_spec key "") as [->|Hne].
    + injection Ei as <-. repeat split; auto. destruct b; reflexivity.
    + destruct (_ && _); [|discriminate]. injection Ei as <-.
      repeat split; auto; try (intros; contradiction); try discriminate.
      destruct b; reflexivity.
  - intros Hlocal.
    assert (PouchDBAdapter.write (messages b) key value (pouchDB b)
            = (Returned tt,
               <[key := {| doc_rev := match pouchDB b !! key with
                                      | Some d => S (doc_rev d)
                                      | None => 1
                                      end;
                           doc_deleted := false;
                           doc_value := value |}]> (pouchDB b))) as ->.
    { pouch_cases (pouchDB b) key; congruence. }
    reflexivity.
Qed.

End PouchProperties.

(** * Instances *)

Lemma chartAfterFailure_eq :
  App.chartData largeSuites ["localStorage"; "IndexedDB"] [quotaFailure; laterSuccess]
  = Some chartAfterFailure.
Proof. reflexivity. Qed.

Lemma chartAfterFailure_last :
  chartAfterFailure !! 1%nat = Some (default ∅ (chartAfterFailure !! 1%nat)).
Proof. reflexivity. Qed.

Lemma chartData_failure_sticks_witness :
  default ∅ (chartAfterFailure !! 1%nat) !! "localStorage" = Some App.CellNull.
Proof.
  apply (chartData_failure_sticks largeSuites ["localStorage"; "IndexedDB"]
           [quotaFailure; laterSuccess] chartAfterFailure 0 1
           {| suite_name := "Offline dataset (8 MB)";
              payloads := [ {| label := "8 MB"; size := 8 * 1024 * 1024 |} ] |}
           _ "localStorage" quotaFailure).
  - exact chartAfterFailure_eq.
  - reflexivity.
  - lia.
  - exact chartAfterFailure_last.
  - apply elem_of_cons. left. reflexivity.
  - reflexivity.
  - reflexivity.
Defined.

Lemma oneCookie_wfJar : Cookie.wfJar (cookieJar oneCookie) = true.
Proof. vm_compute. reflexivity. Qed.

Lemma oneCookie_encodedJar : encodedJar (cookieJar oneCookie) = true.
Proof. vm_compute. reflexivity. Qed.

Lemma cookie_read_by_name_witness :
  snd (read (@adapter quotedCodec Cookies) "bench_128 B" oneCookie) = oneCookie
  /\ fst (read (@adapter quotedCodec Cookies) "bench_128 B" oneCookie) =
     match cookieNamed (URI.encodeURIComponent "bench_128 B") (cookieJar oneCookie) with
     | Some encoded =>
         match URI.decodeURIComponent encoded with
         | Some value => Returned (Some value)
         | None => Thrown CookieAdapter.URIError
         end
     | None => Returned None
     end.
Proof.
  apply (@cookie_read_by_name quotedCodec "bench_128 B" oneCookie).
  exact oneCookie_wfJar.
Defined.



Lemma delete_keeps_other_keys_witness :
  fst (read (@adapter quotedCodec Cookies) "bench_128 B"
         (snd (delete (@adapter quotedCodec Cookies) "bench_1 KB" oneCookie))) =
  fst (read (@adapter quotedCodec Cookies) "bench_128 B" oneCookie).
Proof.
  apply (@delete_keeps_other_keys quotedCodec Cookies oneCookie).
  - discriminate.
  - exact oneCookie_wfJar.
  - discriminate.
Defined.

Lemma OPFS_clear_empties_witness :
  exists b', clear (@adapter quotedCodec OPFS) oneFile = (Returned tt, b')
             /\ opfsRoot b' = ∅.
Proof.
  apply (@OPFS_clear_empties quotedCodec oneFile). reflexivity.
Defined.




(** The first suite on the localStorage adapter alone: the run leaves the
    one result of the plan. *)
Lemma runAllBenchmarks_results_witness :
  exists ui' t',
    App.runAllBenchmarks [preferenceSuite] [timedLocalStorage] idle threeTrials =
    (Returned ui', t')
    /\ App.isRunning ui' = false
    /\ map resultKey (App.results ui') =
       [("Save a preference (128 B)", "localStorage", "128 B")].
Proof.
  destruct (runAllBenchmarks_results [preferenceSuite] [timedLocalStorage] idle
              threeTrials) as (ui' & t' & Hrun & Hflag & _ & Hkeys).
  exists ui', t'. split; [exact Hrun|]. split; [exact Hflag|].
  apply Hkeys.
  - constructor; [exact timedLocalStorage_throwsObjects|constructor].
  - constructor; [exact preferenceSuite_buildable|constructor].
Defined.

(** The first key of the benchmark in an empty database. *)
Lemma pouch_write_revision_witness :
  write PouchDBAdapter "bench_128 B" "kept" freshBrowser =
  (Returned tt,
   set_pouchDB
     (<["bench_128 B" := {| doc_rev := match pouchDB freshBrowser !! "bench_128 B" with
                                       | Some d => S (doc_rev d)
                                       | None => 1
                                       end;
                            doc_deleted := false;
                            doc_value := "kept" |}]> (pouchDB freshBrowser))
     freshBrowser).
Proof.
  exact (pouch_write_revision "bench_128 B" "kept" freshBrowser eq_refl).
Defined.

(** The empty key, and a key that starts with an underscore. *)
Example pouch_write_rejects_ids :
  fst (write PouchDBAdapter "" "kept" freshBrowser) = Thrown Pouch.missingId
  /\ fst (write PouchDBAdapter "_bench" "kept" freshBrowser) = Thrown Pouch.reservedId.
Proof. split; reflexivity. Qed.

Lemma cookie_clear_expires_witness :
  clear (@adapter quotedCodec Cookies) oneCookie =
  (Returned tt,
   set_cookieJar
     (List.filter (fun c => negb (expiredByClear (cookieJar oneCookie) (fst c)))
        (cookieJar oneCookie))
     oneCookie).
Proof.
  apply (@cookie_clear_expires quotedCodec oneCookie). exact oneCookie_encodedJar.
Defined.


